(** * The frame-descriptor registry of the OCaml runtime

    A shallow embedding of [runtime/frame_descriptors.c]: the open-addressed
    hash table from return addresses to frame descriptors, its construction
    ([realloc_frame_descriptors]), registration ([add_frame_descriptors] and
    the rendezvous body), removal ([invalid_entry],
    [remove_frame_descriptors]) and lookup ([caml_find_frame_descr]).

    The model is sequential.  The mutex, the memory fences, the barrier of
    the stop-the-world section and the [frame_readers] counter order the
    steps of several threads; they have no effect on what one operation,
    run alone, computes, and are left out. *)

From stdpp Require Import base list.
From Stdlib Require Import ZArith Lia.

Local Open Scope Z_scope.

(** ** Machine integers

    The code runs on a 64-bit target: [intnat] and [uintnat] have 64 bits,
    [int] has 32.  Values are kept in [Z]; a store into a variable of a
    narrower type wraps. *)

Definition wrap (w z : Z) : Z := (z + 2 ^ (w - 1)) mod 2 ^ w - 2 ^ (w - 1).
Definition to_int (z : Z) : Z := wrap 32 z.
Definition to_intnat (z : Z) : Z := wrap 64 z.
Definition to_uintnat (z : Z) : Z := z mod 2 ^ 64.

(** Pointers are addresses. *)
Definition NULL : Z := 0.

(** [sizeof(intnat)], [sizeof(atomic_frame_ptr)], the size of a pointer *)
Definition word_size : Z := 8.

(** [sizeof(caml_frametable_list)]: a pointer and a link *)
Definition node_size : Z := 2 * word_size.

(** Modelled from the spec: the macro [Align_to] is missing; the parser
    advances "respecting per-field alignment requirements".  [Align_to p
    size] is the first multiple of [size] from [p] on. *)
Definition Align_to (p size : Z) : Z := (p + size - 1) / size * size.

(** An array of words with its bounds: the read of an element, and the
    write of an element that has just been read. *)
Definition array_get (a : list Z) (i : Z) : option Z :=
  if 0 <=? i then a !! Z.to_nat i else None.

Definition array_set (a : list Z) (i x : Z) : list Z := <[Z.to_nat i := x]> a.

(** ** Results of a run

    [Out_of_memory] is [caml_raise_out_of_memory]; [Fault] is an access
    through a null pointer or outside an array; [Spin] is a loop that has
    used up the fuel it was given. *)

Inductive outcome (A : Type) : Type :=
| Ret (a : A)
| Out_of_memory
| Fault
| Spin.

Arguments Ret {A} a.
Arguments Out_of_memory {A}.
Arguments Fault {A}.
Arguments Spin {A}.

#[global] Instance outcome_ret : MRet outcome := fun A a => Ret a.
#[global] Instance outcome_bind : MBind outcome := fun A B f m =>
  match m with
  | Ret a => f a
  | Out_of_memory => Out_of_memory
  | Fault => Fault
  | Spin => Spin
  end.

(** ** What the file takes from its surroundings

    The header [caml/frame_descriptors.h], the frame tables emitted by
    ocamlopt and the allocator are not part of the file.  They are the
    fields of [Env]:
    - [frametable_len t] is the first word of the frame table at [t];
    - [mem_retaddr d] is the field [d->retaddr] of a descriptor in a frame
      table;
    - [frame_return_to_C], [frame_has_allocs] and [frame_has_debug] are
      the macros of the header that test the flags of a descriptor;
    - [num_live d] is the field [d->num_live], [live_ofs d i] the address
      [&d->live_ofs[i]], and [load_uchar p] the byte at [p];
    - [dummy_addr] is the address of the static [dummy_descr], which is
      not null;
    - [hash_bits] is what [Hash_retaddr] computes before the mask is
      applied;
    - [caml_stat_alloc n] and [caml_stat_alloc_noexc n] tell whether an
      allocation of [n] bytes succeeds;
    - [caml_frametable] is the null-terminated array of the frame tables
      linked into the program, without its terminator. *)

Class Env := {
  frametable_len : Z -> Z;
  mem_retaddr : Z -> Z;
  frame_return_to_C : Z -> bool;
  frame_has_allocs : Z -> bool;
  frame_has_debug : Z -> bool;
  num_live : Z -> Z;
  live_ofs : Z -> Z -> Z;
  load_uchar : Z -> Z;
  dummy_addr : positive;
  hash_bits : Z -> Z;
  caml_stat_alloc : Z -> bool;
  caml_stat_alloc_noexc : Z -> bool;
  caml_frametable : list Z
}.

(** [struct caml_frame_descrs].  [descriptors] is the array itself, empty
    for the null pointer; [frametables] is the linked list, as the
    sequence of the [frametable] fields of its nodes. *)
Record caml_frame_descrs := mk_frame_descrs {
  num_descr : Z;
  mask : Z;
  descriptors : list Z;
  frametables : list Z
}.

(** [realloc_request].  [req_tail] is the node [frametables_list_tail]
    found in [req_new_frametables]. *)
Record realloc_request := mk_request {
  req_new_frametables : list Z;
  req_tail : option Z;
  req_increase : Z
}.

Section Model.
Context {env : Env}.

(** [&dummy_descr] *)
Definition dummy_descr : Z := Z.pos dummy_addr.

(** [d->retaddr]; [dummy_descr] is initialised with its own address. *)
Definition retaddr (d : Z) : Z :=
  if d =? dummy_descr then dummy_descr else mem_retaddr d.

(** The descriptor after [d].  [CAMLassert] is empty outside the debug
    runtime. *)
Definition next_frame_descr (d : Z) : Z :=
  if negb (frame_return_to_C d) then
    (* Skip to end of live_ofs *)
    let p := live_ofs d (num_live d) in
    (* Skip alloc_lengths if present *)
    let num_allocs := if frame_has_allocs d then load_uchar p else 0 in
    let p := if frame_has_allocs d then p + num_allocs + 1 else p in
    (* Skip debug info if present *)
    let p :=
      if frame_has_debug d
      then Align_to p 4 + 4 * (if frame_has_allocs d then num_allocs else 1)
      else p in
    (* Align to word size *)
    Align_to p word_size
  else
    (* the top of an ML stack chunk: an empty descriptor *)
    Align_to (live_ofs d 0) word_size.

(** [cons]: [caml_stat_alloc] raises when it has no memory. *)
Definition cons (frametable : Z) (tl : list Z) : outcome (list Z) :=
  if caml_stat_alloc node_size then Ret (frametable :: tl) else Out_of_memory.

(** Modelled from the spec: the macro [Hash_retaddr] of
    [caml/frame_descriptors.h] is missing; the hash is "a hash of
    [return_address] modulo capacity (via bitmask)". *)
Definition Hash_retaddr (addr mask : Z) : Z := Z.land (hash_bits addr) mask.

(** [(h+1) & mask], on [uintnat] *)
Definition next_slot (h mask : Z) : Z := Z.land (to_uintnat (h + 1)) mask.

(** [atomic_load_relaxed(descriptors + h)] *)
Definition atomic_load_relaxed (a : list Z) (h : Z) : option Z :=
  array_get a h.

(** [atomic_store_relaxed(descriptors + h, d)], at a slot that was just
    loaded *)
Definition atomic_store_relaxed (a : list Z) (h d : Z) : list Z :=
  array_set a h d.

Definition count_descriptors (l : list Z) : Z :=
  fold_left (fun num cur => to_intnat (num + frametable_len cur)) l 0.

Definition frametables_list_tail (l : list Z) : option Z := last l.

Definition capacity (table : caml_frame_descrs) : Z := to_int (mask table + 1).

(** The [while] loop of [fill_hashtable]: the slot where the probe from
    [h] stops. *)
Fixpoint probe_free (fuel : nat) (a : list Z) (mask h : Z) : outcome Z :=
  match fuel with
  | O => Spin
  | S fuel' =>
      match atomic_load_relaxed a h with
      | None => Fault
      | Some e =>
          if negb (e =? NULL) && negb (e =? dummy_descr)
          then probe_free fuel' a mask (next_slot h mask)
          else Ret h
      end
  end.

(** The [for] loop of [fill_hashtable] over the [j] descriptors that are
    left in one frame table, [d] being the current one. *)
Fixpoint fill_frametable (fuel : nat) (j : nat) (a : list Z) (mask d : Z)
  : outcome (list Z) :=
  match j with
  | O => Ret a
  | S j' =>
      h ← probe_free fuel a mask (Hash_retaddr (retaddr d) mask);
      fill_frametable fuel j' (atomic_store_relaxed a h d) mask
        (next_frame_descr d)
  end.

Fixpoint fill_list (fuel : nat) (a : list Z) (mask : Z) (l : list Z)
  : outcome (list Z) :=
  match l with
  | [] => Ret a
  | cur :: next =>
      a' ← fill_frametable fuel (Z.to_nat (frametable_len cur)) a mask
             (cur + word_size);
      fill_list fuel a' mask next
  end.

Definition fill_hashtable (fuel : nat) (table : caml_frame_descrs)
    (new_frametables : list Z) : outcome caml_frame_descrs :=
  a ← fill_list fuel (descriptors table) (mask table) new_frametables;
  mret (mk_frame_descrs (num_descr table) (mask table) a (frametables table)).

(** [while (tblsize < 2 * num_descr) tblsize *= 2;] *)
Fixpoint grow_tblsize (fuel : nat) (tblsize count : Z) : outcome Z :=
  if tblsize <? to_intnat (2 * count) then
    match fuel with
    | O => Spin
    | S fuel' => grow_tblsize fuel' (to_intnat (tblsize * 2)) count
    end
  else Ret tblsize.

Definition realloc_frame_descriptors (fuel : nat) (table : caml_frame_descrs)
    (new_frametables : list Z) : outcome caml_frame_descrs :=
  let count := count_descriptors new_frametables in
  tblsize ← grow_tblsize fuel 4 count;
  if caml_stat_alloc_noexc (tblsize * word_size) then
    table ← fill_hashtable fuel
               (mk_frame_descrs (to_int count) (to_int (tblsize - 1))
                  (replicate (Z.to_nat tblsize) NULL) (frametables table))
               new_frametables;
    mret (mk_frame_descrs (num_descr table) (mask table) (descriptors table)
            new_frametables)
  else Out_of_memory.

(** [current_frame_descrs] before [caml_init_frame_descriptors] *)
Definition initial_frame_descrs : caml_frame_descrs :=
  mk_frame_descrs 0 (-1) [] [].

(** The loop of [caml_init_frame_descriptors] over what is left of
    [caml_frametable]. *)
Fixpoint init_frametables (tables : list Z) (frametables : list Z)
  : outcome (list Z) :=
  match tables with
  | [] => Ret frametables
  | t :: tables' =>
      frametables ← cons t frametables;
      init_frametables tables' frametables
  end.

Definition caml_init_frame_descriptors (fuel : nat)
  : outcome caml_frame_descrs :=
  frametables ← init_frametables caml_frametable [];
  realloc_frame_descriptors fuel initial_frame_descrs frametables.

(** The body run by the domain that reaches the barrier last
    ([is_final]); the other domains leave the table as it is.
    [tail->next = table->frametables] appends the list of the table to
    the new list. *)
Definition realloc_frame_descriptors_from_stw_single (is_final : bool)
    (fuel : nat) (table : caml_frame_descrs) (request : realloc_request)
  : outcome caml_frame_descrs :=
  if is_final then
    let new_frametables := req_new_frametables request in
    let tail := req_tail request in
    let tblsize := capacity table in
    let increase := req_increase request in
    if tblsize <? to_intnat (to_intnat (num_descr table + increase) * 2) then
      match tail with
      | None => Fault
      | Some _ =>
          realloc_frame_descriptors fuel table
            (new_frametables ++ frametables table)
      end
    else
      let table := mk_frame_descrs (to_int (num_descr table + increase))
                     (mask table) (descriptors table) (frametables table) in
      table ← fill_hashtable fuel table new_frametables;
      match tail with
      | None => Fault
      | Some _ =>
          mret (mk_frame_descrs (num_descr table) (mask table)
                  (descriptors table) (new_frametables ++ frametables table))
      end
  else mret table.

(** [caml_try_run_on_all_domains] is retried until the stop-the-world
    section has run; the body then runs once, on the final domain. *)
Definition add_frame_descriptors (fuel : nat) (table : caml_frame_descrs)
    (new_frametables : list Z) : outcome caml_frame_descrs :=
  let tail := frametables_list_tail new_frametables in
  let increase := count_descriptors new_frametables in
  let tblsize := capacity table in
  if tblsize <? to_intnat (to_intnat (num_descr table + increase) * 2) then
    realloc_frame_descriptors_from_stw_single true fuel table
      (mk_request new_frametables tail increase)
  else
    let table := mk_frame_descrs (to_int (num_descr table + increase))
                   (mask table) (descriptors table) (frametables table) in
    table ← fill_hashtable fuel table new_frametables;
    match tail with
    | None => Fault
    | Some _ =>
        mret (mk_frame_descrs (num_descr table) (mask table)
                (descriptors table) (new_frametables ++ frametables table))
    end.

(** The loop of [caml_register_frametables]: [n] handles are left, [i] is
    the index of the next one. *)
Fixpoint cons_frametables (n : nat) (i : Z) (frametables : list Z)
    (new_frametables : list Z) : outcome (list Z) :=
  match n with
  | O => Ret new_frametables
  | S n' =>
      match array_get frametables i with
      | None => Fault
      | Some t =>
          new_frametables ← cons t new_frametables;
          cons_frametables n' (i + 1) frametables new_frametables
      end
  end.

Definition caml_register_frametables (fuel : nat) (table : caml_frame_descrs)
    (frametables : list Z) (ntables : Z) : outcome caml_frame_descrs :=
  new_frametables ← cons_frametables (Z.to_nat ntables) 0 frametables [];
  add_frame_descriptors fuel table new_frametables.

Definition caml_register_frametable (fuel : nat) (table : caml_frame_descrs)
    (frametable : Z) : outcome caml_frame_descrs :=
  caml_register_frametables fuel table [frametable] 1.

(** The loop of [invalid_entry] from slot [h]. *)
Fixpoint invalid_entry_loop (fuel : nat) (a : list Z) (mask e h : Z)
  : outcome (list Z) :=
  match fuel with
  | O => Spin
  | S fuel' =>
      match atomic_load_relaxed a h with
      | None => Fault
      | Some d =>
          if d =? e then Ret (atomic_store_relaxed a h dummy_descr)
          else invalid_entry_loop fuel' a mask e (next_slot h mask)
      end
  end.

Definition invalid_entry (fuel : nat) (fds : caml_frame_descrs) (e : Z)
  : outcome caml_frame_descrs :=
  a ← invalid_entry_loop fuel (descriptors fds) (mask fds) e
        (Hash_retaddr (retaddr e) (mask fds));
  mret (mk_frame_descrs (num_descr fds) (mask fds) a (frametables fds)).

(** The inner loop of [remove_frame_descriptors] over the [j] descriptors
    left in one frame table. *)
Fixpoint invalidate_frametable (fuel : nat) (j : nat)
    (fds : caml_frame_descrs) (descr : Z) : outcome caml_frame_descrs :=
  match j with
  | O => Ret fds
  | S j' =>
      fds' ← invalid_entry fuel fds descr;
      invalidate_frametable fuel j' fds' (next_frame_descr descr)
  end.

(** The first loop of [remove_frame_descriptors]: [n] handles are left,
    [i] is the index of the next one. *)
Fixpoint invalidate_frametables (fuel : nat) (n : nat) (i : Z)
    (fds : caml_frame_descrs) (frametables : list Z) (decrease : Z)
  : outcome (caml_frame_descrs * Z) :=
  match n with
  | O => Ret (fds, decrease)
  | S n' =>
      match array_get frametables i with
      | None => Fault
      | Some frametable =>
          let len := frametable_len frametable in
          fds' ← invalidate_frametable fuel (Z.to_nat len) fds
                   (frametable + word_size);
          invalidate_frametables fuel n' (i + 1) fds' frametables
            (to_intnat (decrease + len))
      end
  end.

(** [for (i = 0; i < ntables; i++) if (current->frametable ==
    frametables[i])]: the first index that matches, if there is one. *)
Fixpoint scan_frametables (n : nat) (i : Z) (frametables : list Z)
    (current : Z) : outcome (option Z) :=
  match n with
  | O => Ret None
  | S n' =>
      match array_get frametables i with
      | None => Fault
      | Some t =>
          if current =? t then Ret (Some i)
          else scan_frametables n' (i + 1) frametables current
      end
  end.

(** The second loop of [remove_frame_descriptors], from the node
    [current] on.  The result is the list from [*previous] on, and the
    array of the caller.  After a match that is not the last one the
    code jumps to [resume] without testing [current], and reads
    [current->frametable]. *)
Fixpoint unlink_frametables (current : list Z) (frametables : list Z)
    (ntables : Z) : outcome (list Z * list Z) :=
  match current with
  | [] => Ret ([], frametables)
  | cur :: next =>
      found ← scan_frametables (Z.to_nat ntables) 0 frametables cur;
      match found with
      | None =>
          '(l, frametables) ← unlink_frametables next frametables ntables;
          mret (cur :: l, frametables)
      | Some i =>
          let ntables := ntables - 1 in
          if ntables =? 0 then Ret (next, frametables)
          else
            match array_get frametables ntables with
            | None => Fault
            | Some t =>
                let frametables := array_set frametables i t in
                match next with
                | [] => Fault
                | _ => unlink_frametables next frametables ntables
                end
            end
      end
  end.

(** [tables] is the array [frametables] of the caller; the result is the
    table and that array. *)
Definition remove_frame_descriptors (fuel : nat) (fds : caml_frame_descrs)
    (tables : list Z) (ntables : Z)
  : outcome (caml_frame_descrs * list Z) :=
  '(fds, decrease) ← invalidate_frametables fuel (Z.to_nat ntables) 0 fds
                        tables 0;
  let fds := mk_frame_descrs (to_int (num_descr fds - decrease)) (mask fds)
               (descriptors fds) (frametables fds) in
  '(l, tables) ← unlink_frametables (frametables fds) tables ntables;
  mret (mk_frame_descrs (num_descr fds) (mask fds) (descriptors fds) l,
        tables).

Definition caml_unregister_frametables (fuel : nat) (fds : caml_frame_descrs)
    (frametables : list Z) (ntables : Z)
  : outcome (caml_frame_descrs * list Z) :=
  remove_frame_descriptors fuel fds frametables ntables.

Definition caml_unregister_frametable (fuel : nat) (fds : caml_frame_descrs)
    (frametable : Z) : outcome (caml_frame_descrs * list Z) :=
  caml_unregister_frametables fuel fds [frametable] 1.

(** The loop of [caml_find_frame_descr] from slot [h]. *)
Fixpoint find_loop (fuel : nat) (a : list Z) (mask pc h : Z) : outcome Z :=
  match fuel with
  | O => Spin
  | S fuel' =>
      match atomic_load_relaxed a h with
      | None => Fault
      | Some d =>
          if d =? NULL then Ret d
          else if retaddr d =? pc then Ret d
          else find_loop fuel' a mask pc (next_slot h mask)
      end
  end.

Definition caml_find_frame_descr (fuel : nat) (fds : caml_frame_descrs)
    (pc : Z) : outcome Z :=
  find_loop fuel (descriptors fds) (mask fds) pc (Hash_retaddr pc (mask fds)).

End Model.

(** ** Concrete images

    A memory image for examples.  [(t, rs)] is a frame table at address
    [t], a multiple of 8, whose descriptors have the return addresses
    [rs]; a descriptor has no live slots, no allocation lengths and no
    debug information, its [live_ofs] starts 12 bytes in, so descriptors
    are 16 bytes apart and follow the length word.  The hash drops the
    three low bits of a return address, as the runtime does. *)

Definition image := list (Z * list Z).

Definition descr_size : Z := 16.

Fixpoint image_len (m : image) (t : Z) : Z :=
  match m with
  | [] => 0
  | (t', rs) :: m' =>
      if t =? t' then Z.of_nat (length rs) else image_len m' t
  end.

Fixpoint image_retaddr (m : image) (d : Z) : Z :=
  match m with
  | [] => 0
  | (t, rs) :: m' =>
      let off := d - (t + word_size) in
      if (0 <=? off) && (off mod descr_size =? 0)
         && (off / descr_size <? Z.of_nat (length rs))
      then nth (Z.to_nat (off / descr_size)) rs 0
      else image_retaddr m' d
  end.

Definition image_env (m : image) (boot : list Z) : Env := {|
  frametable_len := image_len m;
  mem_retaddr := image_retaddr m;
  frame_return_to_C := fun _ => false;
  frame_has_allocs := fun _ => false;
  frame_has_debug := fun _ => false;
  num_live := fun _ => 0;
  live_ofs := fun d i => d + 12 + 2 * i;
  load_uchar := fun _ => 0;
  dummy_addr := 64%positive;
  hash_bits := fun addr => Z.shiftr addr 3;
  caml_stat_alloc := fun _ => true;
  caml_stat_alloc_noexc := fun _ => true;
  caml_frametable := boot
|}.

(** Four frame tables of one descriptor each; the return addresses fall
    into the four slots of a table of capacity 4. *)
Definition churn_image : image :=
  [ (65536, [4096]); (65792, [4104]); (66048, [4112]); (66304, [4120]) ].

Definition churn_env : Env := image_env churn_image [65536].

(** The scenario of the specification: a table of 3 descriptors at
    start-up, and one of 12 registered later. *)
Definition scenario_image : image :=
  [ (65536, [100; 200; 300]);
    (131072, [400; 500; 600; 700; 800; 900; 1000; 1100; 1200; 1300; 1400;
              1500]) ].

Definition scenario_env : Env := image_env scenario_image [65536].

(** The scenario with an allocator that serves 64 bytes at most: the
    array of the table at start-up fits, the array of a rebuild does
    not. *)
Definition tight_env : Env := {|
  frametable_len := image_len scenario_image;
  mem_retaddr := image_retaddr scenario_image;
  frame_return_to_C := fun _ => false;
  frame_has_allocs := fun _ => false;
  frame_has_debug := fun _ => false;
  num_live := fun _ => 0;
  live_ofs := fun d i => d + 12 + 2 * i;
  load_uchar := fun _ => 0;
  dummy_addr := 64%positive;
  hash_bits := fun addr => Z.shiftr addr 3;
  caml_stat_alloc := fun _ => true;
  caml_stat_alloc_noexc := fun n => n <=? 64;
  caml_frametable := [65536]
|}.

(** The table of [churn_env] after start-up, and after each step of
    three rounds that register and then remove, in turn, the second, the
    third and the fourth frame table. *)
Definition churn_0 : caml_frame_descrs :=
  mk_frame_descrs 1 3 [65544; 0; 0; 0] [65536].
Definition churn_1 : caml_frame_descrs :=
  mk_frame_descrs 2 3 [65544; 65800; 0; 0] [65792; 65536].
Definition churn_2 : caml_frame_descrs :=
  mk_frame_descrs 1 3 [65544; 64; 0; 0] [65536].
Definition churn_3 : caml_frame_descrs :=
  mk_frame_descrs 2 3 [65544; 64; 66056; 0] [66048; 65536].
Definition churn_4 : caml_frame_descrs :=
  mk_frame_descrs 1 3 [65544; 64; 64; 0] [65536].
Definition churn_5 : caml_frame_descrs :=
  mk_frame_descrs 2 3 [65544; 64; 64; 66312] [66304; 65536].
Definition churn_6 : caml_frame_descrs :=
  mk_frame_descrs 1 3 [65544; 64; 64; 64] [65536].

(** The table of [scenario_env] after start-up, and after the second
    frame table has been registered. *)
Definition scenario_0 : caml_frame_descrs :=
  mk_frame_descrs 3 7 [0; 65560; 0; 0; 65544; 65576; 0; 0] [65536].
Definition scenario_1 : caml_frame_descrs :=
  mk_frame_descrs 15 31
    [0; 0; 131224; 0; 131144; 65576; 0; 0; 0; 131192; 0; 131112; 65544; 0;
     0; 131240; 131160; 0; 131080; 0; 0; 0; 131208; 131128; 0; 65560; 0;
     131256; 0; 131176; 131096; 0]
    [131072; 65536].

(** The table [scenario_1] after the first frame table has been removed,
    and after both have been. *)
Definition scenario_2 : caml_frame_descrs :=
  mk_frame_descrs 12 31
    [0; 0; 131224; 0; 131144; 64; 0; 0; 0; 131192; 0; 131112; 64; 0; 0;
     131240; 131160; 0; 131080; 0; 0; 0; 131208; 131128; 0; 64; 0; 131256;
     0; 131176; 131096; 0]
    [131072].
Definition scenario_3 : caml_frame_descrs :=
  mk_frame_descrs 0 31
    [0; 0; 64; 0; 64; 64; 0; 0; 0; 64; 0; 64; 64; 0; 0; 64; 64; 0; 64; 0; 0;
     0; 64; 64; 0; 64; 0; 64; 0; 64; 64; 0]
    [].

(** Four frame tables of one descriptor each, of which the third and
    the fourth have the same home slot in a table of capacity 8: the
    return addresses 4096 and 4160 hash to slot 0, 4104 to slot 1 and
    4112 to slot 2. *)
Definition chain_image : image :=
  [ (65536, [4104]); (65792, [4112]); (66048, [4096]); (66304, [4160]) ].

Definition chain_env : Env := image_env chain_image [65536].

(** The table of [chain_env] after start-up and the registration of the
    second, the third and the fourth frame table, one after the other:
    the descriptor of 4160 was inserted last and lies at the end of the
    probe chain from slot 0.  Then the table after the third frame table
    has been removed. *)
Definition chain_0 : caml_frame_descrs :=
  mk_frame_descrs 4 7 [66056; 65544; 65800; 66312; 0; 0; 0; 0]
    [66304; 66048; 65792; 65536].
Definition chain_1 : caml_frame_descrs :=
  mk_frame_descrs 3 7 [64; 65544; 65800; 66312; 0; 0; 0; 0]
    [66304; 65792; 65536].

(** ** Predicates of the statements *)

Section Statements.
Context {env : Env}.

(** [capacity] is a power of two, and the array has [capacity] slots. *)
Definition table_shape (a : list Z) (mask : Z) : Prop :=
  exists k, 0 <= k <= 30 /\ mask + 1 = 2 ^ k /\ Z.of_nat (length a) = 2 ^ k.

Definition well_formed (fds : caml_frame_descrs) : Prop :=
  table_shape (descriptors fds) (mask fds).

Definition is_power_of_2 (c : Z) : Prop := exists k, 0 <= k /\ c = 2 ^ k.

(** Invariants I1 and I2 of the index. *)
Definition I1 (fds : caml_frame_descrs) : Prop :=
  capacity fds = 0 \/ is_power_of_2 (capacity fds).

Definition I2 (fds : caml_frame_descrs) : Prop :=
  capacity fds > 0 -> num_descr fds * 2 <= capacity fds.

(** A slot is free for [fill_hashtable] when it holds [NULL] or the
    address of [dummy_descr]. *)
Definition is_free (e : Z) : bool := (e =? NULL) || (e =? dummy_descr).

(** The descriptors of the frame table at [t], in the order of the
    loops: [j] descriptors from [d] on. *)
Fixpoint descrs_from (j : nat) (d : Z) : list Z :=
  match j with
  | O => []
  | S j' => d :: descrs_from j' (next_frame_descr d)
  end.

Definition frametable_descrs (t : Z) : list Z :=
  descrs_from (Z.to_nat (frametable_len t)) (t + word_size).

Definition list_descrs (l : list Z) : list Z :=
  concat (map frametable_descrs l).

(** The sum of the length words of the frame tables of a list. *)
Definition total_descrs (l : list Z) : Z :=
  foldr Z.add 0 (map frametable_len l).

(** The largest number of descriptors for which [capacity] fits an
    [int]. *)
Definition descr_limit : Z := 2 ^ 29.

(** The length words are counts, and the counts add up without overflow. *)
Definition counts_ok (l : list Z) : Prop :=
  Forall (fun t => 0 <= frametable_len t) l /\ total_descrs l <= descr_limit.

(** The descriptors of a list of frame tables are distinct objects with
    distinct return addresses, none of them at [NULL] or at
    [dummy_descr]. *)
Definition descrs_ok (ds : list Z) : Prop :=
  NoDup (map retaddr ds) /\
  Forall (fun d => d <> NULL /\ d <> dummy_descr) ds.

(** [c] is the smallest power of two that is at least 4 and at least [n]. *)
Definition smallest_capacity (n c : Z) : Prop :=
  is_power_of_2 c /\ 4 <= c /\ n <= c /\
  forall c', is_power_of_2 c' -> 4 <= c' -> n <= c' -> c <= c'.

(** Fuel for an operation on a table that holds [count] descriptors
    afterwards: no loop runs longer than the capacity of the table. *)
Definition enough_fuel (fuel : nat) (count : Z) : Prop :=
  4 <= Z.of_nat fuel /\ 4 * count <= Z.of_nat fuel.

(** What [fill_hashtable] does with the descriptors [ds], one after the
    other. *)
Fixpoint insert_all (fuel : nat) (a : list Z) (mask : Z) (ds : list Z)
  : outcome (list Z) :=
  match ds with
  | [] => Ret a
  | d :: ds' =>
      h ← probe_free fuel a mask (Hash_retaddr (retaddr d) mask);
      insert_all fuel (atomic_store_relaxed a h d) mask ds'
  end.

(** The number of slots that are not free. *)
Fixpoint live_count (a : list Z) : nat :=
  match a with
  | [] => O
  | e :: a' => ((if is_free e then 0 else 1) + live_count a')%nat
  end.

(** The descriptors in the slots that are not free, in the order of the
    slots. *)
Fixpoint live (a : list Z) : list Z :=
  match a with
  | [] => []
  | e :: a' => if is_free e then live a' else e :: live a'
  end.

(** What [remove_frame_descriptors] does with the descriptors [es], one
    after the other. *)
Fixpoint remove_all (fuel : nat) (fds : caml_frame_descrs) (es : list Z)
  : outcome caml_frame_descrs :=
  match es with
  | [] => Ret fds
  | e :: es' => fds' ← invalid_entry fuel fds e; remove_all fuel fds' es'
  end.

(** The slots of [a] that are not free hold descriptors of [D], and the
    lookup of the return address of a descriptor of [D] returns it. *)
Definition stored (fuel : nat) (a : list Z) (mask : Z) (D : list Z) : Prop :=
  (forall i e, a !! i = Some e -> is_free e = false -> e ∈ D) /\
  (forall d, d ∈ D ->
     find_loop fuel a mask (retaddr d) (Hash_retaddr (retaddr d) mask)
     = Ret d).

(** The test of [add_frame_descriptors] and of the rendezvous body: the
    table is too small for [increase] more descriptors. *)
Definition insufficient (table : caml_frame_descrs) (increase : Z) : bool :=
  capacity table <? to_intnat (to_intnat (num_descr table + increase) * 2).

(** The request [add_frame_descriptors] makes for a list of frame tables. *)
Definition request_for (new_frametables : list Z) : realloc_request :=
  mk_request new_frametables (frametables_list_tail new_frametables)
    (count_descriptors new_frametables).

(** The fast-path fold in the words of the specification (4.2, step 4):
    insert each new record into the existing slot array, increment
    [count] by [increase], prepend the new batches onto the batch list.
    [count] is an [int]. *)
Definition spec_fast_path (fuel : nat) (table : caml_frame_descrs)
    (new_frametables : list Z) (increase : Z) : outcome caml_frame_descrs :=
  a ← insert_all fuel (descriptors table) (mask table)
        (list_descrs new_frametables);
  mret (mk_frame_descrs (to_int (num_descr table + increase)) (mask table) a
          (new_frametables ++ frametables table)).

(** The rebuild body in the words of the specification (4.4): re-check
    the capacity; if it is still insufficient, merge the new batch list
    onto the tail of the existing batch list and build over the merged
    list; otherwise fall back to the fast-path fold. *)
Definition spec_rebuild_body (fuel : nat) (table : caml_frame_descrs)
    (new_frametables : list Z) (increase : Z) : outcome caml_frame_descrs :=
  if insufficient table increase
  then realloc_frame_descriptors fuel table
         (frametables table ++ new_frametables)
  else spec_fast_path fuel table new_frametables increase.

(** The same with the lists merged the other way round: the existing
    batch list is linked onto the tail of the new one. *)
Definition merged_rebuild_body (fuel : nat) (table : caml_frame_descrs)
    (new_frametables : list Z) (increase : Z) : outcome caml_frame_descrs :=
  if insufficient table increase
  then realloc_frame_descriptors fuel table
         (new_frametables ++ frametables table)
  else spec_fast_path fuel table new_frametables increase.

(** The handles a caller passes: the first [ntables] entries of its
    array. *)
Definition handles (tables : list Z) (ntables : Z) : list Z :=
  take (Z.to_nat ntables) tables.

(** The states of the registry after initialisation.  The callers keep
    their side of the contract: the length words of the frame tables they
    hand in are counts that add up without overflow, and they remove
    only frame tables that are registered. *)
Inductive reachable : caml_frame_descrs -> Prop :=
| reachable_init fuel fds :
    counts_ok caml_frametable ->
    caml_init_frame_descriptors fuel = Ret fds ->
    reachable fds
| reachable_register fuel fds tables ntables fds' :
    reachable fds ->
    counts_ok (handles tables ntables ++ frametables fds) ->
    caml_register_frametables fuel fds tables ntables = Ret fds' ->
    reachable fds'
| reachable_rendezvous fuel fds new_frametables fds' :
    reachable fds ->
    counts_ok (new_frametables ++ frametables fds) ->
    realloc_frame_descriptors_from_stw_single true fuel fds
      (request_for new_frametables) = Ret fds' ->
    reachable fds'
| reachable_unregister fuel fds tables ntables fds' tables' :
    reachable fds ->
    handles tables ntables ⊆+ frametables fds ->
    caml_unregister_frametables fuel fds tables ntables
      = Ret (fds', tables') ->
    reachable fds'.

(** What holds of the fields in every reachable state. *)
Definition registry_inv (fds : caml_frame_descrs) : Prop :=
  (exists k, 2 <= k <= 30 /\ mask fds + 1 = 2 ^ k) /\
  num_descr fds * 2 <= mask fds + 1 /\
  counts_ok (frametables fds) /\
  num_descr fds = total_descrs (frametables fds).

(** The table holds the descriptors of its batch list, each in one slot
    and nothing else, and the lookup of the return address of each
    returns it. *)
Definition table_ok (fuel : nat) (fds : caml_frame_descrs) : Prop :=
  registry_inv fds /\ well_formed fds /\
  (length (descriptors fds) <= fuel)%nat /\
  live (descriptors fds) ≡ₚ list_descrs (frametables fds) /\
  forall d, d ∈ list_descrs (frametables fds) ->
    caml_find_frame_descr fuel fds (retaddr d) = Ret d.

(** The slot reached from [h] after [n] steps of [next_slot]. *)
Fixpoint walk (n : nat) (h m : Z) : Z :=
  match n with
  | O => h
  | S n' => walk n' (next_slot h m) m
  end.

(** [fds'] is [fds] after the descriptors [removed] have been taken out:
    a slot keeps its content or, if it held one of [removed], holds the
    address of [dummy_descr]; a lookup that returned something else than
    one of [removed] still returns it. *)
Definition tombstoned (removed : list Z) (fds fds' : caml_frame_descrs)
  : Prop :=
  mask fds' = mask fds /\
  length (descriptors fds') = length (descriptors fds) /\
  (forall i x, descriptors fds !! i = Some x ->
     descriptors fds' !! i = Some x \/
     (x ∈ removed /\ descriptors fds' !! i = Some dummy_descr)) /\
  (forall fuel pc d, d ∉ removed -> pc <> retaddr dummy_descr ->
     caml_find_frame_descr fuel fds pc = Ret d ->
     caml_find_frame_descr fuel fds' pc = Ret d).

End Statements.

(** ** Proofs *)

Section Proofs.
Context {env : Env}.

(** *** Machine arithmetic *)

Lemma wrap_small w z :
  0 < w -> - 2 ^ (w - 1) <= z < 2 ^ (w - 1) -> wrap w z = z.
Proof.
  intros Hw Hz. unfold wrap.
  assert (H2 : 2 ^ w = 2 * 2 ^ (w - 1)).
  { replace w with (Z.succ (w - 1)) at 1 by lia. apply Z.pow_succ_r. lia. }
  rewrite Z.mod_small; lia.
Qed.

Lemma to_int_small z : - 2 ^ 31 <= z < 2 ^ 31 -> to_int z = z.
Proof. intros. apply wrap_small; simpl; lia. Qed.

Lemma to_intnat_small z : - 2 ^ 63 <= z < 2 ^ 63 -> to_intnat z = z.
Proof. intros. apply wrap_small; simpl; lia. Qed.

Lemma land_mask_range x m : 0 <= m -> 0 <= Z.land x m <= m.
Proof.
  intros Hm. split.
  - apply Z.land_nonneg. right. exact Hm.
  - destruct (Z.eq_dec m 0) as [->|Hne].
    + rewrite Z.land_0_r. lia.
    + apply Z.bits_iff_nonneg_ex in Hm as [k Hk].
      assert (H0 : 0 <= Z.land x m) by
        (apply Z.land_nonneg; right; apply Z.bits_iff_nonneg_ex; eauto).
      rewrite <- (Z.lor_ldiff_and m x) at 2.
      rewrite (Z.land_comm m x).
      assert (Hd : 0 <= Z.ldiff m x).
      { apply Z.ldiff_nonneg. left. apply Z.bits_iff_nonneg_ex; eauto. }
      rewrite <- Z.add_nocarry_lor.
      * lia.
      * apply Z.bits_inj'. intros n Hn.
        rewrite Z.land_spec, Z.ldiff_spec, Z.land_spec, Z.bits_0.
        destruct (Z.testbit m n), (Z.testbit x n); reflexivity.
Qed.

Lemma Hash_retaddr_range addr m : 0 <= m -> 0 <= Hash_retaddr addr m <= m.
Proof. apply land_mask_range. Qed.

Lemma next_slot_range h m : 0 <= m -> 0 <= next_slot h m <= m.
Proof. apply land_mask_range. Qed.

Lemma next_slot_mod k h m :
  0 <= k <= 64 -> m + 1 = 2 ^ k -> next_slot h m = (h + 1) mod 2 ^ k.
Proof.
  intros Hk Hm. unfold next_slot, to_uintnat.
  replace m with (Z.ones k).
  2:{ rewrite Z.ones_equiv. lia. }
  rewrite Z.land_ones by lia.
  replace (2 ^ 64) with (2 ^ k * 2 ^ (64 - k)).
  2:{ rewrite <- Z.pow_add_r by lia. f_equal. lia. }
  rewrite Z.rem_mul_r by lia.
  rewrite (Z.mul_comm (2 ^ k)), Z_mod_plus_full.
  apply Z.mod_mod. lia.
Qed.

Lemma dummy_descr_not_null : dummy_descr <> NULL.
Proof. unfold dummy_descr, NULL. lia. Qed.

Lemma retaddr_dummy : retaddr dummy_descr = dummy_descr.
Proof. unfold retaddr. rewrite Z.eqb_refl. reflexivity. Qed.

Lemma array_get_Some a i e :
  array_get a i = Some e ->
  0 <= i /\ a !! Z.to_nat i = Some e /\ i < Z.of_nat (length a).
Proof.
  unfold array_get. destruct (Z.leb_spec 0 i); [|discriminate].
  intros He. split; [lia|]. split; [exact He|].
  apply lookup_lt_Some in He. lia.
Qed.

Lemma array_get_in_range a i :
  0 <= i < Z.of_nat (length a) -> exists e, array_get a i = Some e.
Proof.
  intros Hi. unfold array_get.
  destruct (Z.leb_spec 0 i); [|lia].
  destruct (lookup_lt_is_Some_2 a (Z.to_nat i)) as [e He]; [lia|eauto].
Qed.

Lemma load_Some a h e :
  atomic_load_relaxed a h = Some e ->
  0 <= h /\ a !! Z.to_nat h = Some e /\ h < Z.of_nat (length a).
Proof. apply array_get_Some. Qed.

Lemma load_in_range a h :
  0 <= h < Z.of_nat (length a) -> exists e, atomic_load_relaxed a h = Some e.
Proof. apply array_get_in_range. Qed.

Lemma load_store_eq a h e d :
  atomic_load_relaxed a h = Some e ->
  atomic_load_relaxed (atomic_store_relaxed a h d) h = Some d.
Proof.
  intros He. apply load_Some in He as (H0 & He & _).
  unfold atomic_load_relaxed, atomic_store_relaxed, array_get, array_set.
  destruct (Z.leb_spec 0 h); [|lia].
  apply list_lookup_insert_eq. eapply lookup_lt_Some; eauto.
Qed.

Lemma load_store_ne a q h d :
  0 <= q -> h <> q ->
  atomic_load_relaxed (atomic_store_relaxed a q d) h = atomic_load_relaxed a h.
Proof.
  intros Hq Hne. unfold atomic_load_relaxed, atomic_store_relaxed, array_get, array_set.
  destruct (Z.leb_spec 0 h); [|reflexivity].
  apply list_lookup_insert_ne. lia.
Qed.

(** *** The probe sequence *)

Lemma walk_mod k m n h :
  0 <= k <= 64 -> m + 1 = 2 ^ k -> 0 <= h <= m ->
  walk n h m = (h + Z.of_nat n) mod 2 ^ k.
Proof.
  intros Hk Hm. revert h. induction n as [|n IH]; intros h Hh.
  - simpl. rewrite Z.add_0_r, Z.mod_small; lia.
  - cbn [walk]. rewrite IH by (apply next_slot_range; lia).
    rewrite (next_slot_mod k) by assumption.
    rewrite Z.add_mod_idemp_l by lia. f_equal. lia.
Qed.

(** Every slot is reached in fewer steps than there are slots. *)
Lemma walk_reaches k m h i :
  0 <= k <= 64 -> m + 1 = 2 ^ k -> 0 <= h <= m -> 0 <= i <= m ->
  exists n, Z.of_nat n < 2 ^ k /\ walk n h m = i.
Proof.
  intros Hk Hm Hh Hi.
  assert (Hpos : 0 < 2 ^ k) by lia.
  exists (Z.to_nat ((i - h) mod 2 ^ k)).
  pose proof (Z.mod_pos_bound (i - h) (2 ^ k) Hpos) as Hb.
  split; [lia|].
  rewrite (walk_mod k) by assumption.
  rewrite Z2Nat.id by lia.
  rewrite Z.add_mod_idemp_r by lia.
  replace (h + (i - h)) with i by lia.
  apply Z.mod_small. lia.
Qed.

(** *** The lookup loop *)

Lemma find_loop_post fuel a m pc h d :
  find_loop fuel a m pc h = Ret d -> d = NULL \/ retaddr d = pc.
Proof.
  revert h. induction fuel as [|fuel IH]; intros h; simpl; [discriminate|].
  destruct (atomic_load_relaxed a h) as [x|]; [|discriminate].
  destruct (Z.eqb_spec x NULL) as [->|Hx].
  - intros [= <-]. left; reflexivity.
  - destruct (Z.eqb_spec (retaddr x) pc) as [Hr|Hr].
    + intros [= <-]. right; assumption.
    + apply IH.
Qed.

Lemma find_loop_mono fuel fuel' a m pc h d :
  (fuel <= fuel')%nat ->
  find_loop fuel a m pc h = Ret d -> find_loop fuel' a m pc h = Ret d.
Proof.
  revert fuel' h. induction fuel as [|fuel IH]; intros fuel' h Hle;
    simpl; [discriminate|].
  destruct fuel' as [|fuel']; [lia|]. simpl.
  destruct (atomic_load_relaxed a h) as [x|]; [|discriminate].
  destruct (x =? NULL); [trivial|].
  destruct (retaddr x =? pc); [trivial|].
  apply IH. lia.
Qed.

(** A probe that meets an empty slot within its fuel returns. *)
Lemma find_loop_reach a m pc n :
  0 <= m -> Z.of_nat (length a) = m + 1 ->
  forall fuel h, 0 <= h <= m -> (n < fuel)%nat ->
  atomic_load_relaxed a (walk n h m) = Some NULL ->
  exists d, find_loop fuel a m pc h = Ret d.
Proof.
  intros Hm Hlen. induction n as [|n IH]; intros fuel h Hh Hn Hnull;
    (destruct fuel as [|fuel]; [lia|]); simpl in *.
  - rewrite Hnull. simpl. eauto.
  - destruct (load_in_range a h) as [x ->]; [lia|].
    destruct (x =? NULL); [eauto|].
    destruct (retaddr x =? pc); [eauto|].
    apply IH; [apply next_slot_range; lia|lia|assumption].
Qed.

Lemma find_loop_total a m pc fuel h :
  table_shape a m -> NULL ∈ a -> 0 <= h <= m -> (length a <= fuel)%nat ->
  exists d, find_loop fuel a m pc h = Ret d.
Proof.
  intros (k & Hk & Hm & Hlen) Hin Hh Hfuel.
  apply list_elem_of_lookup in Hin as [i Hi].
  pose proof (lookup_lt_Some _ _ _ Hi) as Hlt.
  assert (Hpos : 0 < 2 ^ k) by lia.
  destruct (walk_reaches k m h (Z.of_nat i)) as (n & Hn & Hw);
    [lia|assumption|assumption|lia|].
  apply (find_loop_reach a m pc n); [lia|lia|assumption|lia|].
  rewrite Hw. unfold atomic_load_relaxed, array_get.
  destruct (Z.leb_spec 0 (Z.of_nat i)); [|lia].
  rewrite Nat2Z.id. exact Hi.
Qed.

(** A probe that meets neither an empty slot nor its key never stops. *)
Lemma find_loop_spin a m pc :
  0 <= m -> Z.of_nat (length a) = m + 1 ->
  Forall (fun x => x <> NULL /\ retaddr x <> pc) a ->
  forall fuel h, 0 <= h <= m -> find_loop fuel a m pc h = Spin.
Proof.
  intros Hm Hlen Hall. induction fuel as [|fuel IH]; intros h Hh; simpl;
    [reflexivity|].
  destruct (load_in_range a h) as [x Hx]; [lia|]. rewrite Hx.
  apply load_Some in Hx as (_ & Hx & _).
  rewrite Forall_lookup in Hall. destruct (Hall _ _ Hx) as [Hn Hr].
  destruct (Z.eqb_spec x NULL); [contradiction|].
  destruct (Z.eqb_spec (retaddr x) pc); [contradiction|].
  apply IH. apply next_slot_range. lia.
Qed.

(** Writing the tombstone over [e] keeps every lookup that did not
    return [e]. *)
Lemma find_loop_tombstone fuel a m pc h q e d :
  find_loop fuel a m pc h = Ret d ->
  atomic_load_relaxed a q = Some e -> d <> e -> pc <> dummy_descr ->
  find_loop fuel (atomic_store_relaxed a q dummy_descr) m pc h = Ret d.
Proof.
  intros Hfind Hq Hde Hpc. revert h Hfind.
  induction fuel as [|fuel IH]; intros h; simpl; [discriminate|].
  destruct (Z.eq_dec h q) as [->|Hne].
  - rewrite Hq, (load_store_eq _ _ _ _ Hq).
    destruct (Z.eqb_spec e NULL) as [He|He]; [congruence|].
    destruct (Z.eqb_spec (retaddr e) pc) as [Hr|Hr]; [congruence|].
    destruct (Z.eqb_spec dummy_descr NULL) as [Hd|_];
      [destruct (dummy_descr_not_null Hd)|].
    rewrite retaddr_dummy.
    destruct (Z.eqb_spec dummy_descr pc) as [Hd|_]; [congruence|].
    apply IH.
  - rewrite load_store_ne by (apply load_Some in Hq; lia || assumption).
    destruct (atomic_load_relaxed a h) as [x|]; [|discriminate].
    destruct (x =? NULL); [trivial|].
    destruct (retaddr x =? pc); [trivial|].
    apply IH.
Qed.

(** Storing [x] into a free slot keeps every lookup of another key that
    found a descriptor. *)
Lemma find_loop_store fuel a m pc h q x e d :
  find_loop fuel a m pc h = Ret d ->
  atomic_load_relaxed a q = Some e -> is_free e = true ->
  d <> NULL -> d <> dummy_descr -> x <> NULL -> retaddr x <> pc ->
  find_loop fuel (atomic_store_relaxed a q x) m pc h = Ret d.
Proof.
  intros Hfind Hq Hfree Hd0 Hdd Hx Hxr. revert h Hfind.
  induction fuel as [|fuel IH]; intros h; simpl; [discriminate|].
  destruct (Z.eq_dec h q) as [->|Hne].
  - rewrite Hq, (load_store_eq _ _ _ _ Hq).
    destruct (Z.eqb_spec e NULL) as [He|He]; [congruence|].
    destruct (Z.eqb_spec (retaddr e) pc) as [Hr|Hr].
    + intros [= <-]. unfold is_free in Hfree.
      apply orb_true_iff in Hfree as [H|H]; apply Z.eqb_eq in H; congruence.
    + destruct (Z.eqb_spec x NULL); [contradiction|].
      destruct (Z.eqb_spec (retaddr x) pc); [contradiction|].
      apply IH.
  - rewrite load_store_ne by (apply load_Some in Hq; lia || assumption).
    destruct (atomic_load_relaxed a h) as [y|]; [|discriminate].
    destruct (y =? NULL); [trivial|].
    destruct (retaddr y =? pc); [trivial|].
    apply IH.
Qed.

(** *** The insertion probe *)

Lemma probe_free_ret fuel a m h q :
  probe_free fuel a m h = Ret q ->
  exists e, atomic_load_relaxed a q = Some e /\ is_free e = true.
Proof.
  revert h. induction fuel as [|fuel IH]; intros h; simpl; [discriminate|].
  destruct (atomic_load_relaxed a h) as [e|] eqn:He; [|discriminate].
  destruct (negb (e =? NULL) && negb (e =? dummy_descr)) eqn:Hlive.
  - apply IH.
  - intros [= <-]. exists e. split; [assumption|].
    unfold is_free. apply andb_false_iff in Hlive as [H|H];
      apply negb_false_iff in H; rewrite H; auto using orb_true_r.
Qed.

(** A descriptor is found where the insertion probe has put it. *)
Lemma find_loop_new fuel a m h q x :
  probe_free fuel a m h = Ret q ->
  x <> NULL ->
  (forall i e, a !! i = Some e -> is_free e = false ->
               retaddr e <> retaddr x) ->
  find_loop fuel (atomic_store_relaxed a q x) m (retaddr x) h = Ret x.
Proof.
  intros Hprobe Hx Hdistinct. revert h Hprobe.
  induction fuel as [|fuel IH]; intros h; simpl; [discriminate|].
  destruct (atomic_load_relaxed a h) as [e|] eqn:He; [|discriminate].
  destruct (negb (e =? NULL) && negb (e =? dummy_descr)) eqn:Hlive.
  - intros Hprobe.
    destruct (probe_free_ret _ _ _ _ _ Hprobe) as (e' & He' & Hfree).
    assert (Hne : h <> q).
    { intros ->. rewrite He in He'. injection He' as <-.
      unfold is_free in Hfree. apply andb_true_iff in Hlive as [H1 H2].
      apply negb_true_iff in H1, H2. rewrite H1, H2 in Hfree.
      discriminate. }
    rewrite load_store_ne by (apply load_Some in He'; lia || assumption).
    rewrite He.
    apply andb_true_iff in Hlive as [H1 H2].
    apply negb_true_iff in H1, H2. rewrite H1.
    apply load_Some in He as (_ & He & _).
    assert (Hr : retaddr e <> retaddr x).
    { apply (Hdistinct _ _ He). unfold is_free. rewrite H1, H2.
      reflexivity. }
    destruct (Z.eqb_spec (retaddr e) (retaddr x)); [contradiction|].
    apply IH. assumption.
  - intros [= <-]. rewrite (load_store_eq _ _ _ _ He).
    destruct (Z.eqb_spec x NULL); [contradiction|].
    rewrite Z.eqb_refl. reflexivity.
Qed.

Lemma probe_free_reach a m n :
  0 <= m -> Z.of_nat (length a) = m + 1 ->
  forall fuel h e, 0 <= h <= m -> (n < fuel)%nat ->
  atomic_load_relaxed a (walk n h m) = Some e -> is_free e = true ->
  exists q, probe_free fuel a m h = Ret q.
Proof.
  intros Hm Hlen. induction n as [|n IH]; intros fuel h e Hh Hn He Hfree;
    (destruct fuel as [|fuel]; [lia|]); simpl in *.
  - rewrite He. unfold is_free in Hfree.
    apply orb_true_iff in Hfree as [H|H]; rewrite H; simpl; eauto.
    rewrite andb_false_r. eauto.
  - destruct (load_in_range a h) as [x ->]; [lia|].
    destruct (negb (x =? NULL) && negb (x =? dummy_descr)); [|eauto].
    apply (IH _ _ e); [apply next_slot_range; lia|lia|assumption..].
Qed.

Lemma probe_free_total a m fuel h :
  table_shape a m -> (exists e, e ∈ a /\ is_free e = true) ->
  0 <= h <= m -> (length a <= fuel)%nat ->
  exists q, probe_free fuel a m h = Ret q.
Proof.
  intros (k & Hk & Hm & Hlen) (e & Hin & Hfree) Hh Hfuel.
  apply list_elem_of_lookup in Hin as [i Hi].
  pose proof (lookup_lt_Some _ _ _ Hi) as Hlt.
  assert (Hpos : 0 < 2 ^ k) by lia.
  destruct (walk_reaches k m h (Z.of_nat i)) as (n & Hn & Hw);
    [lia|assumption|assumption|lia|].
  apply (probe_free_reach a m n) with (e := e);
    [lia|lia|assumption|lia| |assumption].
  rewrite Hw. unfold atomic_load_relaxed, array_get.
  destruct (Z.leb_spec 0 (Z.of_nat i)); [|lia].
  rewrite Nat2Z.id. exact Hi.
Qed.

(** *** The removal probe *)

Lemma invalid_entry_loop_ret fuel a m e h a' :
  invalid_entry_loop fuel a m e h = Ret a' ->
  exists q, atomic_load_relaxed a q = Some e /\
            a' = atomic_store_relaxed a q dummy_descr.
Proof.
  revert h. induction fuel as [|fuel IH]; intros h; simpl; [discriminate|].
  destruct (atomic_load_relaxed a h) as [d|] eqn:Hd; [|discriminate].
  destruct (Z.eqb_spec d e) as [->|Hne].
  - intros [= <-]. eauto.
  - apply IH.
Qed.

(** *** Removal leaves tombstones *)

Lemma tombstoned_refl S fds : tombstoned S fds fds.
Proof. unfold tombstoned. repeat split; auto. Qed.

Lemma tombstoned_trans S1 S2 a b c :
  tombstoned S1 a b -> tombstoned S2 b c -> tombstoned (S1 ++ S2) a c.
Proof.
  intros (Hm1 & Hl1 & Hs1 & Hf1) (Hm2 & Hl2 & Hs2 & Hf2).
  unfold tombstoned. repeat split; [congruence|congruence| |].
  - intros i x Hx. destruct (Hs1 i x Hx) as [Hb|[Hin Hb]].
    + destruct (Hs2 i x Hb) as [Hc|[Hin Hc]]; [auto|].
      right. split; [apply elem_of_app; auto|assumption].
    + right. split; [apply elem_of_app; auto|].
      destruct (Hs2 i _ Hb) as [Hc|[_ Hc]]; assumption.
  - intros fuel pc d Hd Hpc Hfind. rewrite elem_of_app in Hd.
    apply Hf2; [tauto|assumption|]. apply Hf1; [tauto|assumption..].
Qed.

Lemma invalid_entry_tombstoned fuel fds e fds' :
  invalid_entry fuel fds e = Ret fds' -> tombstoned [e] fds fds'.
Proof.
  unfold invalid_entry. intros H.
  destruct (invalid_entry_loop fuel (descriptors fds) (mask fds) e _)
    as [a'| | |] eqn:Hloop; try discriminate.
  injection H as <-.
  apply invalid_entry_loop_ret in Hloop as (q & Hq & ->).
  unfold tombstoned, caml_find_frame_descr; simpl.
  split; [reflexivity|]. split; [apply length_insert|]. split.
  - intros i x Hx. unfold atomic_store_relaxed, array_set.
    apply load_Some in Hq as (Hq0 & Hq & _).
    destruct (Nat.eq_dec (Z.to_nat q) i) as [<-|Hne].
    + right. rewrite Hq in Hx. injection Hx as ->.
      split; [apply list_elem_of_singleton; reflexivity|].
      apply list_lookup_insert_eq. eapply lookup_lt_Some; eauto.
    + left. rewrite list_lookup_insert_ne by assumption. exact Hx.
  - intros fuel' pc d Hd Hpc Hfind. rewrite retaddr_dummy in Hpc.
    eapply find_loop_tombstone; eauto.
    intros ->. apply Hd. apply list_elem_of_singleton. reflexivity.
Qed.

Lemma invalidate_frametable_tombstoned fuel j fds descr fds' :
  invalidate_frametable fuel j fds descr = Ret fds' ->
  tombstoned (descrs_from j descr) fds fds'.
Proof.
  revert fds descr. induction j as [|j IH]; intros fds descr; simpl.
  - intros [= <-]. apply tombstoned_refl.
  - destruct (invalid_entry fuel fds descr) as [fds1| | |] eqn:H1;
      try discriminate.
    simpl. intros H2.
    apply (tombstoned_trans [descr] _ fds fds1 fds').
    + eapply invalid_entry_tombstoned; eauto.
    + apply IH. assumption.
Qed.

Lemma invalidate_frametables_tombstoned fuel n i fds tables dec fds' dec' :
  invalidate_frametables fuel n i fds tables dec = Ret (fds', dec') ->
  tombstoned (list_descrs (take n (drop (Z.to_nat i) tables))) fds fds'.
Proof.
  revert i fds dec. induction n as [|n IH]; intros i fds dec; simpl.
  - intros [= <- _]. apply tombstoned_refl.
  - destruct (array_get tables i) as [t|] eqn:Ht; [|discriminate].
    destruct (invalidate_frametable fuel _ fds (t + word_size))
      as [fds1| | |] eqn:H1; try discriminate.
    simpl. intros H2. apply array_get_Some in Ht as (Hi & Ht & _).
    rewrite (drop_S _ _ _ Ht). simpl.
    unfold list_descrs. simpl.
    apply (tombstoned_trans _ _ fds fds1 fds').
    + apply invalidate_frametable_tombstoned in H1. exact H1.
    + apply IH in H2. replace (Z.to_nat (i + 1)) with (S (Z.to_nat i)) in H2
        by lia. exact H2.
Qed.

Lemma remove_frame_descriptors_tombstoned fuel fds tables ntables fds' tables' :
  remove_frame_descriptors fuel fds tables ntables = Ret (fds', tables') ->
  tombstoned (list_descrs (take (Z.to_nat ntables) tables)) fds fds'.
Proof.
  unfold remove_frame_descriptors. intros H.
  destruct (invalidate_frametables fuel _ 0 fds tables 0)
    as [[fds1 dec]| | |] eqn:H1; try discriminate.
  simpl in H.
  destruct (unlink_frametables (frametables fds1) tables ntables)
    as [[l t]| | |] eqn:H2; try discriminate.
  simpl in H. injection H as <- <-.
  apply invalidate_frametables_tombstoned in H1. simpl in H1.
  destruct H1 as (Hm & Hl & Hs & Hf).
  unfold tombstoned, caml_find_frame_descr in *; simpl.
  repeat split; assumption.
Qed.

(** C10.  Whatever [caml_find_frame_descr] returns is [NULL] or a
    descriptor whose [retaddr] field is the key; for a key other than
    the address stored in [dummy_descr] it is not [dummy_descr].  The
    lookup returns whenever the table has an empty slot. *)
Theorem find_frame_descr_result
    (fuel : nat) (fds : caml_frame_descrs) (pc : Z) :
  (forall d, caml_find_frame_descr fuel fds pc = Ret d ->
     (d = NULL \/ retaddr d = pc) /\
     (pc <> retaddr dummy_descr -> d <> dummy_descr)) /\
  (well_formed fds -> NULL ∈ descriptors fds ->
   (length (descriptors fds) <= fuel)%nat ->
   exists d, caml_find_frame_descr fuel fds pc = Ret d).
Proof.
  split.
  - intros d Hd. apply find_loop_post in Hd. split; [assumption|].
    intros Hpc ->. destruct Hd as [Hd|Hd]; [|congruence].
    exact (dummy_descr_not_null Hd).
  - intros Hwf Hnull Hfuel. apply find_loop_total; try assumption.
    destruct Hwf as (k & Hk & Hm & _).
    apply Hash_retaddr_range.
    assert (0 < 2 ^ k) by lia. lia.
Qed.

(** *** The size of a new table *)

Lemma grow_tblsize_spec count :
  0 <= count <= descr_limit ->
  forall fuel k, 2 <= k <= 30 ->
  (k = 2 \/ 2 ^ (k - 1) < 2 * count) ->
  4 * count <= 2 ^ k + Z.of_nat fuel ->
  exists k', k <= k' <= 30 /\
    grow_tblsize fuel (2 ^ k) count = Ret (2 ^ k') /\
    2 * count <= 2 ^ k' /\ (k' = 2 \/ 2 ^ (k' - 1) < 2 * count).
Proof.
  unfold descr_limit. intros Hc.
  assert (Hw : to_intnat (2 * count) = 2 * count) by
    (apply to_intnat_small; lia).
  induction fuel as [|fuel IH]; intros k Hk Hinv Hfuel.
  - exists k. simpl. rewrite Hw.
    destruct (Z.ltb_spec (2 ^ k) (2 * count)); [lia|].
    repeat split; (lia || assumption).
  - simpl. rewrite Hw.
    destruct (Z.ltb_spec (2 ^ k) (2 * count)) as [Hlt|Hge].
    + assert (Hk30 : k < 30).
      { apply (Z.pow_lt_mono_r_iff 2); lia. }
      assert (Hpow : 2 ^ (k + 1) = 2 ^ k * 2).
      { rewrite Z.pow_add_r by lia. reflexivity. }
      assert (Hle : 2 ^ (k + 1) <= 2 ^ 30).
      { apply Z.pow_le_mono_r; lia. }
      assert (Hpos : 0 < 2 ^ k) by (apply Z.pow_pos_nonneg; lia).
      rewrite <- Hpow, to_intnat_small by lia.
      destruct (IH (k + 1)) as (k' & Hk' & Hg & H1 & H2).
      * lia.
      * right. replace (k + 1 - 1) with k by lia. assumption.
      * lia.
      * exists k'. repeat split; (lia || assumption).
    + exists k. repeat split; (lia || assumption).
Qed.

Lemma smallest_capacity_intro n k :
  2 <= k -> n <= 2 ^ k -> (k = 2 \/ 2 ^ (k - 1) < n) ->
  smallest_capacity n (2 ^ k).
Proof.
  intros Hk Hn Hinv. unfold smallest_capacity, is_power_of_2.
  split; [exists k; split; [lia|reflexivity]|].
  split.
  { change 4 with (2 ^ 2). apply Z.pow_le_mono_r; lia. }
  split; [assumption|].
  intros c' (j & Hj & ->) H4 Hle.
  apply Z.pow_le_mono_r; [lia|].
  destruct Hinv as [->|Hlt].
  - apply (Z.pow_le_mono_r_iff 2); [lia|lia|]. exact H4.
  - assert (k - 1 < j); [|lia].
    apply (Z.pow_lt_mono_r_iff 2); lia.
Qed.

(** *** Counting *)

Lemma count_descriptors_from acc l :
  Forall (fun t => 0 <= frametable_len t) l ->
  0 <= acc -> acc + total_descrs l < 2 ^ 63 ->
  fold_left (fun num cur => to_intnat (num + frametable_len cur)) l acc
  = acc + total_descrs l.
Proof.
  intros Hall. revert acc. induction Hall as [|t l Ht Hall IH];
    intros acc Hacc Hsum; simpl.
  - unfold total_descrs. simpl. lia.
  - unfold total_descrs in *. simpl in *.
    assert (Hnn : 0 <= foldr Z.add 0 (map frametable_len l)).
    { clear -Hall. induction Hall; simpl; lia. }
    rewrite to_intnat_small by lia.
    rewrite IH by lia. lia.
Qed.

Lemma total_descrs_nonneg l :
  Forall (fun t => 0 <= frametable_len t) l -> 0 <= total_descrs l.
Proof. unfold total_descrs. induction 1; simpl; lia. Qed.

Lemma total_descrs_app l1 l2 :
  total_descrs (l1 ++ l2) = total_descrs l1 + total_descrs l2.
Proof. unfold total_descrs. induction l1; simpl; lia. Qed.

Lemma count_descriptors_total l :
  counts_ok l -> count_descriptors l = total_descrs l.
Proof.
  intros [Hall Hsum]. unfold count_descriptors, descr_limit in *.
  rewrite count_descriptors_from; [lia|assumption|lia|lia].
Qed.

Lemma length_descrs_from j d : length (descrs_from j d) = j.
Proof. revert d. induction j; intros d; simpl; [|rewrite IHj]; reflexivity. Qed.

Lemma length_list_descrs l :
  Forall (fun t => 0 <= frametable_len t) l ->
  Z.of_nat (length (list_descrs l)) = total_descrs l.
Proof.
  unfold list_descrs, total_descrs, frametable_descrs.
  induction 1 as [|t l Ht Hall IH]; simpl; [reflexivity|].
  rewrite length_app, length_descrs_from, Nat2Z.inj_add, IH. lia.
Qed.

Lemma live_count_replicate n : live_count (replicate n NULL) = O.
Proof. induction n; simpl; [reflexivity|assumption]. Qed.

Lemma live_count_le a : (live_count a <= length a)%nat.
Proof. induction a as [|e a IH]; simpl; [lia|]. destruct (is_free e); lia. Qed.

Lemma live_count_free a :
  (live_count a < length a)%nat -> exists e, e ∈ a /\ is_free e = true.
Proof.
  induction a as [|e a IH]; simpl; [lia|].
  destruct (is_free e) eqn:He.
  - intros _. exists e. split; [left|assumption].
  - intros Hlt. destruct IH as (e' & Hin & Hfree); [lia|].
    exists e'. split; [right; assumption|assumption].
Qed.

Lemma live_count_insert a i e x :
  a !! i = Some e -> is_free e = true ->
  (live_count (<[i:=x]> a) <= S (live_count a))%nat.
Proof.
  revert i. induction a as [|y a IH]; intros [|i]; simpl; try discriminate.
  - intros [= ->] ->. destruct (is_free x); lia.
  - intros Hi Hfree. specialize (IH i Hi Hfree).
    destruct (is_free y); lia.
Qed.

(** *** Insertion *)

Lemma fill_frametable_insert_all fuel j a m d :
  fill_frametable fuel j a m d = insert_all fuel a m (descrs_from j d).
Proof.
  revert a d. induction j as [|j IH]; intros a d; simpl; [reflexivity|].
  destruct (probe_free fuel a m _); simpl; [apply IH|reflexivity..].
Qed.

Lemma insert_all_app fuel a m ds1 ds2 :
  insert_all fuel a m (ds1 ++ ds2)
  = a' ← insert_all fuel a m ds1; insert_all fuel a' m ds2.
Proof.
  revert a. induction ds1 as [|d ds1 IH]; intros a; simpl; [reflexivity|].
  destruct (probe_free fuel a m _); simpl; [apply IH|reflexivity..].
Qed.

Lemma fill_list_insert_all fuel a m l :
  fill_list fuel a m l = insert_all fuel a m (list_descrs l).
Proof.
  revert a. induction l as [|t l IH]; intros a; simpl; [reflexivity|].
  unfold list_descrs. simpl. rewrite insert_all_app.
  rewrite fill_frametable_insert_all. unfold frametable_descrs.
  destruct (insert_all fuel a m _); simpl; [apply IH|reflexivity..].
Qed.

Lemma table_shape_mask a m : table_shape a m -> 0 <= m.
Proof.
  intros (k & Hk & Hm & _). assert (0 < 2 ^ k) by lia. lia.
Qed.

Lemma table_shape_store a m q x :
  table_shape a m -> table_shape (atomic_store_relaxed a q x) m.
Proof.
  intros (k & Hk & Hm & Hl). exists k. unfold atomic_store_relaxed, array_set.
  rewrite length_insert. auto.
Qed.

Lemma is_free_false x : x <> NULL -> x <> dummy_descr -> is_free x = false.
Proof.
  intros H0 Hd. unfold is_free.
  destruct (Z.eqb_spec x NULL); [contradiction|].
  destruct (Z.eqb_spec x dummy_descr); [contradiction|]. reflexivity.
Qed.

Lemma is_free_true x : is_free x = true -> x = NULL \/ x = dummy_descr.
Proof.
  unfold is_free. intros H. apply orb_true_iff in H as [H|H];
    apply Z.eqb_eq in H; auto.
Qed.

Lemma live_count_live a : live_count a = length (live a).
Proof.
  induction a as [|e a IH]; simpl; [reflexivity|].
  destruct (is_free e); simpl; lia.
Qed.

Lemma elem_of_live a x : x ∈ live a <-> x ∈ a /\ is_free x = false.
Proof.
  induction a as [|e a IH]; simpl.
  - split; [intros H; apply elem_of_nil in H; contradiction|].
    intros [H _]. apply elem_of_nil in H. contradiction.
  - destruct (is_free e) eqn:He; rewrite ?elem_of_cons, IH.
    + split; [tauto|]. intros [[->|H] Hf]; [congruence|tauto].
    + split; [intros [->|[H Hf]]; tauto|tauto].
Qed.

(** Storing a descriptor into a free slot adds it to the live ones. *)
Lemma live_insert_free a i e x :
  a !! i = Some e -> is_free e = true -> is_free x = false ->
  live (<[i:=x]> a) ≡ₚ x :: live a.
Proof.
  revert i. induction a as [|y a IH]; intros [|i]; simpl; try discriminate.
  - intros [= ->] -> ->. reflexivity.
  - intros Hi Hfree Hx. specialize (IH i Hi Hfree Hx).
    destruct (is_free y); [exact IH|].
    rewrite IH. apply perm_swap.
Qed.

(** Writing the tombstone over a live descriptor takes it out. *)
Lemma live_insert_tombstone a i e :
  a !! i = Some e -> is_free e = false ->
  live a ≡ₚ e :: live (<[i:=dummy_descr]> a).
Proof.
  assert (Hd : is_free dummy_descr = true).
  { unfold is_free. rewrite Z.eqb_refl. apply orb_true_r. }
  revert i. induction a as [|y a IH]; intros [|i]; simpl; try discriminate.
  - intros [= ->] ->. rewrite Hd. reflexivity.
  - intros Hi He. specialize (IH i Hi He).
    destruct (is_free y); [exact IH|].
    rewrite IH. apply perm_swap.
Qed.

(** One insertion: the probe stops at a free slot. *)
Lemma insert_one_returns fuel a m x :
  table_shape a m -> (length a <= fuel)%nat ->
  (live_count a < length a)%nat ->
  exists q, probe_free fuel a m (Hash_retaddr (retaddr x) m) = Ret q /\
    (live_count (atomic_store_relaxed a q x) <= S (live_count a))%nat.
Proof.
  intros Hshape Hfuel Hlive.
  pose proof (table_shape_mask _ _ Hshape) as Hm.
  destruct (probe_free_total a m fuel (Hash_retaddr (retaddr x) m))
    as [q Hq]; [assumption|apply live_count_free; assumption|
                apply Hash_retaddr_range; assumption|assumption|].
  exists q. split; [assumption|].
  destruct (probe_free_ret _ _ _ _ _ Hq) as (e & He & Hfree).
  apply load_Some in He as (_ & He & _).
  unfold atomic_store_relaxed, array_set. eapply live_count_insert; eauto.
Qed.

(** One insertion: what was stored stays stored. *)
Lemma insert_one_stored fuel a m D x q :
  probe_free fuel a m (Hash_retaddr (retaddr x) m) = Ret q ->
  stored fuel a m D ->
  x <> NULL -> x <> dummy_descr ->
  Forall (fun d => d <> NULL /\ d <> dummy_descr) D ->
  (forall d, d ∈ D -> retaddr d <> retaddr x) ->
  stored fuel (atomic_store_relaxed a q x) m (x :: D).
Proof.
  intros Hq [Hslots Hfind] Hx0 Hxd HD Hdist.
  destruct (probe_free_ret _ _ _ _ _ Hq) as (e & He & Hfree).
  pose proof (load_Some _ _ _ He) as (Hq0 & Heq & Hqlt).
  split.
  - intros i e' Hi Hlive'. unfold atomic_store_relaxed, array_set in Hi.
    destruct (Nat.eq_dec (Z.to_nat q) i) as [<-|Hne].
    + rewrite list_lookup_insert_eq in Hi by (eapply lookup_lt_Some; eauto).
      injection Hi as <-. left.
    + rewrite list_lookup_insert_ne in Hi by assumption.
      right. eapply Hslots; eauto.
  - intros d Hd. apply elem_of_cons in Hd as [->|Hd].
    + apply find_loop_new; [assumption|assumption|].
      intros i e' Hi Hlive'. apply Hdist. eapply Hslots; eauto.
    + rewrite Forall_forall in HD. destruct (HD d Hd) as [Hd0 Hdd].
      eapply find_loop_store; eauto.
      intros Heq'. apply (Hdist d Hd). congruence.
Qed.

Lemma stored_equiv fuel a m D D' :
  (forall d, d ∈ D <-> d ∈ D') -> stored fuel a m D -> stored fuel a m D'.
Proof.
  intros Heq [H1 H2]. split.
  - intros i e Hi Hl. apply Heq. eapply H1; eauto.
  - intros d Hd. apply H2. apply Heq. assumption.
Qed.

(** Insertion of [ds] into a table with room for them returns; if the
    table stores [D] and the keys of [ds] are new, it then stores both. *)
Lemma insert_all_ok fuel m ds :
  forall a,
  table_shape a m -> (length a <= fuel)%nat ->
  (live_count a + length ds < length a)%nat ->
  exists a', insert_all fuel a m ds = Ret a' /\
    table_shape a' m /\ length a' = length a /\
    (live_count a' <= live_count a + length ds)%nat /\
    (Forall (fun d => d <> NULL /\ d <> dummy_descr) ds ->
     live a' ≡ₚ ds ++ live a) /\
    forall D, stored fuel a m D -> descrs_ok ds ->
      Forall (fun d => d <> NULL /\ d <> dummy_descr) D ->
      (forall x d, x ∈ ds -> d ∈ D -> retaddr d <> retaddr x) ->
      stored fuel a' m (ds ++ D).
Proof.
  induction ds as [|x ds IH]; intros a Hshape Hfuel Hlive; simpl in *.
  - exists a. split; [reflexivity|]. split; [assumption|].
    split; [reflexivity|]. split; [lia|]. split; [reflexivity|].
    intros D Hst _ _ _. exact Hst.
  - destruct (insert_one_returns fuel a m x) as (q & Hq & Hlive');
      [assumption|assumption|lia|].
    rewrite Hq. simpl.
    assert (Hlen : length (atomic_store_relaxed a q x) = length a)
      by apply length_insert.
    destruct (IH (atomic_store_relaxed a q x))
      as (a' & Hins & Hshape' & Hlen' & Hlive'' & Hperm & Hst'').
    + apply table_shape_store; assumption.
    + lia.
    + lia.
    + exists a'. split; [assumption|]. split; [assumption|].
      split; [lia|]. split; [lia|]. split.
      { intros Hok. apply Forall_cons in Hok as [[Hx0 Hxd] Hok].
        rewrite (Hperm Hok).
        destruct (probe_free_ret _ _ _ _ _ Hq) as (e & He & Hfree).
        apply load_Some in He as (_ & He & _).
        unfold atomic_store_relaxed, array_set.
        rewrite (live_insert_free _ _ _ _ He Hfree (is_free_false _ Hx0 Hxd)).
        symmetry. apply Permutation_middle. }
      intros D Hst [Hnd Hok] HD Hcross.
      apply NoDup_cons in Hnd as [Hx Hnd].
      apply Forall_cons in Hok as [[Hx0 Hxd] Hok].
      eapply stored_equiv; [|apply (Hst'' (x :: D))].
      * intros d. rewrite !elem_of_app, !elem_of_cons, elem_of_app. tauto.
      * apply insert_one_stored; try assumption.
        intros d Hd. apply Hcross; [left|assumption].
      * split; assumption.
      * apply Forall_cons. auto.
      * intros y d Hy Hd. apply elem_of_cons in Hd as [->|Hd].
        -- intros Heq. apply Hx. rewrite Heq.
           apply list_elem_of_fmap_2. assumption.
        -- apply Hcross; [right|]; assumption.
Qed.

Lemma stored_empty fuel n m : stored fuel (replicate n NULL) m [].
Proof.
  split.
  - intros i e Hi. apply lookup_replicate in Hi as [-> _].
    unfold is_free. rewrite Z.eqb_refl. discriminate.
  - intros d Hd. apply elem_of_nil in Hd. contradiction.
Qed.

(** *** Building a table *)

Lemma smallest_capacity_unique n c1 c2 :
  smallest_capacity n c1 -> smallest_capacity n c2 -> c1 = c2.
Proof.
  intros (Hp1 & H41 & Hn1 & Hmin1) (Hp2 & H42 & Hn2 & Hmin2).
  specialize (Hmin1 c2 Hp2 H42 Hn2). specialize (Hmin2 c1 Hp1 H41 Hn1). lia.
Qed.

Lemma realloc_frame_descriptors_ok fuel table l :
  counts_ok l ->
  enough_fuel fuel (total_descrs l) ->
  (forall c, smallest_capacity (2 * total_descrs l) c ->
             caml_stat_alloc_noexc (c * word_size) = true) ->
  exists table',
    realloc_frame_descriptors fuel table l = Ret table' /\
    num_descr table' = total_descrs l /\
    frametables table' = l /\
    smallest_capacity (2 * total_descrs l) (capacity table') /\
    well_formed table' /\
    (length (descriptors table') <= fuel)%nat /\
    (live_count (descriptors table') <= length (list_descrs l))%nat /\
    (descrs_ok (list_descrs l) ->
     stored fuel (descriptors table') (mask table') (list_descrs l) /\
     live (descriptors table') ≡ₚ list_descrs l).
Proof.
  intros Hcounts [Hf4 Hfuel] Halloc.
  pose proof Hcounts as [Hnn Hlim].
  pose proof (total_descrs_nonneg _ Hnn) as Htot0.
  unfold realloc_frame_descriptors.
  rewrite (count_descriptors_total _ Hcounts).
  destruct (grow_tblsize_spec (total_descrs l) (conj Htot0 Hlim) fuel 2)
    as (k & Hk & Hgrow & Hge & Hinv); [lia|left; reflexivity|simpl; lia|].
  change (2 ^ 2) with 4 in Hgrow. rewrite Hgrow. simpl.
  assert (Hcap : smallest_capacity (2 * total_descrs l) (2 ^ k))
    by (apply smallest_capacity_intro; [lia|assumption|assumption]).
  rewrite (Halloc _ Hcap).
  assert (Hpos : 0 < 2 ^ k) by (apply Z.pow_pos_nonneg; lia).
  assert (Hle : 2 ^ k <= 2 ^ 30) by (apply Z.pow_le_mono_r; lia).
  assert (H4 : 4 <= 2 ^ k) by apply Hcap.
  unfold descr_limit in Hlim.
  rewrite (to_int_small (total_descrs l)) by lia.
  rewrite (to_int_small (2 ^ k - 1)) by lia.
  unfold fill_hashtable. simpl. rewrite fill_list_insert_all.
  set (a0 := replicate (Z.to_nat (2 ^ k)) NULL).
  assert (Hlen0 : length a0 = Z.to_nat (2 ^ k)) by apply length_replicate.
  assert (Hsmall : 2 ^ k <= Z.of_nat fuel).
  { destruct Hinv as [->|Hlt]; [simpl; lia|].
    assert (2 ^ k = 2 * 2 ^ (k - 1)); [|lia].
    replace k with (Z.succ (k - 1)) at 1 by lia.
    apply Z.pow_succ_r. lia. }
  destruct (insert_all_ok fuel (2 ^ k - 1) (list_descrs l) a0)
    as (a' & Hins & Hshape & Hlen & Hlive & Hperm & Hst).
  - exists k. rewrite Hlen0. split; [lia|]. split; lia.
  - lia.
  - unfold a0 at 1. rewrite live_count_replicate, Hlen0.
    pose proof (length_list_descrs _ Hnn). lia.
  - rewrite Hins. simpl. eexists. split; [reflexivity|]. simpl.
    split; [reflexivity|]. split; [reflexivity|].
    unfold a0 in Hlive. rewrite live_count_replicate in Hlive.
    split; [|split; [exact Hshape|split; [lia|split; [lia|]]]].
    + unfold capacity. simpl.
      replace (2 ^ k - 1 + 1) with (2 ^ k) by lia.
      rewrite to_int_small by lia. exact Hcap.
    + intros Hdescrs. split.
      * specialize (Hst [] (stored_empty _ _ _) Hdescrs).
        rewrite app_nil_r in Hst. apply Hst; [constructor|].
        intros x d _ Hd. apply elem_of_nil in Hd. contradiction.
      * rewrite (Hperm (proj2 Hdescrs)). unfold a0.
        assert (Hnil : forall n, live (replicate n NULL) = []).
        { induction n as [|n IHn]; [reflexivity|]. exact IHn. }
        rewrite Hnil, app_nil_r. reflexivity.
Qed.

(** *** Registration *)

Lemma frametables_list_tail_Some l :
  l <> [] -> exists t, frametables_list_tail l = Some t.
Proof.
  unfold frametables_list_tail. intros Hl.
  destruct (last l) as [t|] eqn:Hlast; [eauto|].
  apply last_None in Hlast. contradiction.
Qed.

Lemma stored_find fuel table D d :
  stored fuel (descriptors table) (mask table) D -> d ∈ D ->
  caml_find_frame_descr fuel table (retaddr d) = Ret d.
Proof. intros [_ H] Hd. apply H. assumption. Qed.

Lemma insert_all_no_dummy fuel m ds a a' :
  insert_all fuel a m ds = Ret a' ->
  dummy_descr ∉ a -> dummy_descr ∉ ds -> dummy_descr ∉ a'.
Proof.
  revert a a'. induction ds as [|x ds IH]; intros a a'; simpl.
  - intros [= <-]. auto.
  - destruct (probe_free fuel a _ _) as [q| | |]; try discriminate.
    simpl. intros Hins Ha Hds. apply (IH _ _ Hins).
    + unfold atomic_store_relaxed, array_set. intros Hin.
      apply list_elem_of_lookup in Hin as [i Hi].
      destruct (Nat.eq_dec (Z.to_nat q) i) as [<-|Hne].
      * destruct (decide (Z.to_nat q < length a)%nat) as [Hlt|Hge].
        -- rewrite list_lookup_insert_eq in Hi by assumption.
           injection Hi as ->. apply Hds. left.
        -- rewrite list_insert_ge in Hi by lia.
           apply Ha. apply list_elem_of_lookup. eauto.
      * rewrite list_lookup_insert_ne in Hi by assumption.
        apply Ha. apply list_elem_of_lookup. eauto.
    + intros Hin. apply Hds. right. assumption.
Qed.

(** C2.  A registration that finds the capacity insufficient rebuilds
    the table from the new frame tables followed by the registered ones.
    The rebuild returns, and in the new table the lookup of the return
    address of every descriptor of a frame table that was registered, and
    of every new one, returns that descriptor; a slot that is not empty
    holds one of these descriptors. *)
Theorem rebuild_keeps_registered
    (fuel : nat) (table : caml_frame_descrs) (new_frametables : list Z) :
  let merged := new_frametables ++ frametables table in
  new_frametables <> [] ->
  insufficient table (count_descriptors new_frametables) = true ->
  counts_ok merged ->
  descrs_ok (list_descrs merged) ->
  enough_fuel fuel (total_descrs merged) ->
  (forall c, smallest_capacity (2 * total_descrs merged) c ->
             caml_stat_alloc_noexc (c * word_size) = true) ->
  exists table',
    realloc_frame_descriptors_from_stw_single true fuel table
      (request_for new_frametables) = Ret table' /\
    add_frame_descriptors fuel table new_frametables = Ret table' /\
    frametables table' = merged /\
    num_descr table' = total_descrs merged /\
    well_formed table' /\
    (forall d, d ∈ list_descrs (frametables table) ->
       caml_find_frame_descr fuel table' (retaddr d) = Ret d) /\
    (forall d, d ∈ list_descrs new_frametables ->
       caml_find_frame_descr fuel table' (retaddr d) = Ret d) /\
    (forall i e, descriptors table' !! i = Some e -> e <> NULL ->
       e ∈ list_descrs merged).
Proof.
  intros merged Hnew Hins Hcounts Hdescrs Hfuel Halloc.
  destruct (realloc_frame_descriptors_ok fuel table merged Hcounts Hfuel Halloc)
    as (table' & Hre & Hnum & Hft & _ & Hwf & _ & _ & Hst).
  specialize (Hst Hdescrs). destruct Hst as [Hst _].
  destruct (frametables_list_tail_Some _ Hnew) as [t Ht].
  assert (Hbody : realloc_frame_descriptors_from_stw_single true fuel table
                    (request_for new_frametables) = Ret table').
  { unfold realloc_frame_descriptors_from_stw_single, request_for. simpl.
    unfold insufficient in Hins. rewrite Hins, Ht. exact Hre. }
  exists table'. split; [exact Hbody|]. split.
  { unfold add_frame_descriptors. unfold insufficient in Hins.
    rewrite Hins. exact Hbody. }
  split; [assumption|]. split; [assumption|]. split; [assumption|].
  assert (Hsplit : forall d, d ∈ list_descrs merged <->
            d ∈ list_descrs new_frametables \/
            d ∈ list_descrs (frametables table)).
  { intros d. unfold merged, list_descrs.
    rewrite map_app, concat_app, elem_of_app. tauto. }
  split; [|split].
  - intros d Hd. eapply stored_find; [exact Hst|]. apply Hsplit. auto.
  - intros d Hd. eapply stored_find; [exact Hst|]. apply Hsplit. auto.
  - intros i e Hi He. destruct Hst as [Hslots _].
    apply (Hslots i e Hi). unfold is_free.
    destruct (Z.eqb_spec e NULL) as [|_]; [contradiction|]. simpl.
    destruct (Z.eqb_spec e dummy_descr) as [->|_]; [|reflexivity].
    exfalso.
    (* a fresh table holds no tombstone *)
    unfold realloc_frame_descriptors in Hre.
    destruct (grow_tblsize fuel 4 (count_descriptors merged))
      as [sz| | |]; try discriminate.
    simpl in Hre.
    destruct (caml_stat_alloc_noexc (sz * word_size)); [|discriminate].
    unfold fill_hashtable in Hre. simpl in Hre.
    rewrite fill_list_insert_all in Hre.
    destruct (insert_all fuel _ _ _) as [a'| | |] eqn:Hall; try discriminate.
    simpl in Hre. injection Hre as <-. simpl in Hi.
    destruct Hdescrs as [_ Hok].
    apply (insert_all_no_dummy _ _ _ _ _ Hall).
    + intros Hin. apply elem_of_replicate in Hin as [Hin _].
      exact (dummy_descr_not_null Hin).
    + intros Hin. rewrite Forall_forall in Hok.
      destruct (Hok _ Hin) as [_ Hne]. apply Hne. reflexivity.
    + apply list_elem_of_lookup. eauto.
Qed.

(** C6.  A table built from a list of frame tables has the smallest
    capacity that is a power of two, at least 4 and at least twice the
    number of descriptors: 8 for 3 descriptors, 32 for 15. *)
Theorem build_capacity
    (fuel : nat) (table : caml_frame_descrs) (l : list Z) :
  counts_ok l ->
  enough_fuel fuel (total_descrs l) ->
  (forall c, smallest_capacity (2 * total_descrs l) c ->
             caml_stat_alloc_noexc (c * word_size) = true) ->
  exists table',
    realloc_frame_descriptors fuel table l = Ret table' /\
    smallest_capacity (2 * total_descrs l) (capacity table') /\
    Z.of_nat (length (descriptors table')) = capacity table' /\
    (total_descrs l = 3 -> capacity table' = 8) /\
    (total_descrs l = 15 -> capacity table' = 32).
Proof.
  intros Hcounts Hfuel Halloc.
  destruct (realloc_frame_descriptors_ok fuel table l Hcounts Hfuel Halloc)
    as (table' & Hre & _ & _ & Hcap & Hwf & _).
  exists table'. split; [assumption|]. split; [assumption|].
  split; [|split].
  - destruct Hwf as (k & Hk & Hm & Hl). unfold capacity.
    rewrite Hm, Hl. symmetry. apply to_int_small.
    assert (0 < 2 ^ k) by (apply Z.pow_pos_nonneg; lia).
    assert (2 ^ k <= 2 ^ 30) by (apply Z.pow_le_mono_r; lia). lia.
  - intros H3. rewrite H3 in Hcap.
    apply (smallest_capacity_unique (2 * 3)); [assumption|].
    apply (smallest_capacity_intro _ 3); simpl; lia.
  - intros H15. rewrite H15 in Hcap.
    apply (smallest_capacity_unique (2 * 15)); [assumption|].
    apply (smallest_capacity_intro _ 5); simpl; lia.
Qed.

(** C7, as amended.  On the final domain the rendezvous body tests the
    capacity again.  If it is insufficient the body links the batch list
    of the table onto the tail of the new list and builds the table from
    the merged list, new batches first; otherwise it does the fast-path
    fold: insert into the array at hand, add to the count, put the new
    batches in front of the list, which is what registration does on its
    fast path.  On any other domain it leaves the table alone. *)
Theorem rendezvous_body_merges_new_first
    (fuel : nat) (table : caml_frame_descrs) (new_frametables : list Z)
    (increase : Z) :
  new_frametables <> [] ->
  let request :=
    mk_request new_frametables (frametables_list_tail new_frametables)
      increase in
  realloc_frame_descriptors_from_stw_single true fuel table request
    = merged_rebuild_body fuel table new_frametables increase /\
  realloc_frame_descriptors_from_stw_single false fuel table request
    = Ret table /\
  (insufficient table increase = false ->
   increase = count_descriptors new_frametables ->
   realloc_frame_descriptors_from_stw_single true fuel table request
     = add_frame_descriptors fuel table new_frametables).
Proof.
  intros Hnew request.
  destruct (frametables_list_tail_Some _ Hnew) as [t Ht].
  split; [|split].
  - unfold realloc_frame_descriptors_from_stw_single, merged_rebuild_body,
      insufficient, request. simpl. rewrite Ht.
    destruct (capacity table <? _); [reflexivity|].
    unfold fill_hashtable, spec_fast_path. simpl.
    rewrite fill_list_insert_all.
    destruct (insert_all fuel _ _ _); reflexivity.
  - reflexivity.
  - intros Hins ->. unfold add_frame_descriptors.
    unfold insufficient in Hins. rewrite Hins.
    unfold realloc_frame_descriptors_from_stw_single, request. simpl.
    rewrite Hins. reflexivity.
Qed.

(** *** Unlinking the removed frame tables *)

Lemma scan_frametables_ret n i tables cur r :
  scan_frametables n i tables cur = Ret r ->
  match r with
  | None => cur ∉ take n (drop (Z.to_nat i) tables)
  | Some j => i <= j < i + Z.of_nat n /\ tables !! Z.to_nat j = Some cur
  end.
Proof.
  revert i. induction n as [|n IH]; intros i; simpl.
  - intros [= <-]. apply not_elem_of_nil.
  - destruct (array_get tables i) as [t|] eqn:Ht; [|discriminate].
    apply array_get_Some in Ht as (Hi & Ht & _).
    destruct (Z.eqb_spec cur t) as [->|Hne].
    + intros [= <-]. split; [lia|assumption].
    + intros H. specialize (IH _ H). destruct r as [j|].
      * split; [lia|apply IH].
      * rewrite (drop_S _ _ _ Ht). simpl.
        replace (Z.to_nat (i + 1)) with (S (Z.to_nat i)) in IH by lia.
        intros Hin. apply elem_of_cons in Hin as [?|?]; auto.
Qed.

Lemma scan_frametables_prefix n tables cur :
  (n <= length tables)%nat ->
  exists r, scan_frametables n 0 tables cur = Ret r.
Proof.
  intros Hn.
  assert (Hgen : forall m i, 0 <= i -> (Z.to_nat i + m <= length tables)%nat ->
            exists r, scan_frametables m i tables cur = Ret r).
  { induction m as [|m IH]; intros i Hi Hlen; simpl; [eauto|].
    destruct (array_get_in_range tables i) as [t ->]; [lia|].
    destruct (cur =? t); [eauto|]. apply IH; lia. }
  apply Hgen; simpl; lia.
Qed.

(** Swap-remove: the entry at [i] is replaced by the last one. *)
Lemma take_swap_remove (tables : list Z) n i cur t :
  (i <= n)%nat -> tables !! i = Some cur -> tables !! n = Some t ->
  take (S n) tables ≡ₚ cur :: take n (<[i:=t]> tables).
Proof.
  intros Hi Hcur Ht. rewrite (take_S_r _ _ _ Ht).
  destruct (decide (i = n)) as [->|Hne].
  - assert (cur = t) by congruence. subst.
    rewrite list_insert_id by assumption.
    symmetry. apply Permutation_cons_append.
  - rewrite take_insert_lt by lia.
    assert (Hti : take n tables !! i = Some cur).
    { rewrite lookup_take_lt by lia. assumption. }
    rewrite insert_take_drop by (eapply lookup_lt_Some; eauto).
    rewrite <- (take_drop_middle _ _ _ Hti) at 1.
    rewrite <- !Permutation_middle. simpl. rewrite app_nil_r.
    apply perm_swap.
Qed.

Lemma unlink_frametables_ok current :
  forall tables ntables,
  ntables <= Z.of_nat (length tables) ->
  handles tables ntables ⊆+ current ->
  exists l tables',
    unlink_frametables current tables ntables = Ret (l, tables') /\
    current ≡ₚ handles tables ntables ++ l /\
    length tables' = length tables.
Proof.
  unfold handles.
  induction current as [|cur next IH]; intros tables ntables Hn Hsub.
  - simpl. apply submseteq_nil_r in Hsub. rewrite Hsub. eauto.
  - cbn [unlink_frametables].
    destruct (scan_frametables_prefix (Z.to_nat ntables) tables cur)
      as [r Hr]; [lia|].
    rewrite Hr. simpl.
    apply scan_frametables_ret in Hr. destruct r as [i|].
    + destruct Hr as [Hi Hcur]. simpl in Hi.
      assert (Hnt : 0 < ntables) by lia.
      destruct (Z.eqb_spec (ntables - 1) 0) as [H1|H1].
      * exists next, tables. split; [reflexivity|]. split; [|reflexivity].
        replace (Z.to_nat ntables) with 1%nat by lia.
        assert (i = 0) by lia. subst i.
        destruct tables as [|t0 tables]; [discriminate|].
        simpl in Hcur. injection Hcur as ->. reflexivity.
      * destruct (array_get_in_range tables (ntables - 1)) as [t Ht]; [lia|].
        rewrite Ht. apply array_get_Some in Ht as (_ & Ht & _).
        assert (Hperm : take (Z.to_nat ntables) tables ≡ₚ
                  cur :: take (Z.to_nat (ntables - 1))
                           (array_set tables i t)).
        { replace (Z.to_nat ntables) with (S (Z.to_nat (ntables - 1))) by lia.
          apply take_swap_remove; [lia|assumption..]. }
        rewrite Hperm in Hsub. apply (submseteq_app_inv_l _ _ [cur]) in Hsub.
        assert (Hnext : next <> []).
        { intros ->. apply submseteq_nil_r in Hsub.
          apply (f_equal length) in Hsub. rewrite length_take in Hsub.
          unfold atomic_store_relaxed, array_set in Hsub.
          rewrite length_insert in Hsub. simpl in Hsub. lia. }
        destruct (IH (array_set tables i t) (ntables - 1))
          as (l & tables' & Hun & Hp & Hlen).
        { unfold atomic_store_relaxed, array_set. rewrite length_insert. lia. }
        { assumption. }
        exists l, tables'. split.
        { destruct next; [contradiction|exact Hun]. }
        split.
        { rewrite Hperm. simpl. rewrite Hp. reflexivity. }
        { rewrite Hlen. apply length_insert. }
    + simpl in Hr. rewrite drop_0 in Hr.
      apply submseteq_cons_r in Hsub as [Hsub|(l' & Hp & _)].
      2:{ exfalso. apply Hr. rewrite Hp. left. }
      destruct (IH tables ntables Hn Hsub) as (l & tables' & Hun & Hp & Hlen).
      rewrite Hun. simpl. exists (cur :: l), tables'.
      split; [reflexivity|]. split; [|assumption].
      rewrite Hp. apply Permutation_middle.
Qed.

(** *** The invariant of the reachable states *)

Lemma grow_tblsize_ret count :
  0 <= count <= descr_limit ->
  forall fuel k sz, 2 <= k <= 30 ->
  grow_tblsize fuel (2 ^ k) count = Ret sz ->
  exists k', k <= k' <= 30 /\ sz = 2 ^ k' /\ 2 * count <= 2 ^ k'.
Proof.
  unfold descr_limit. intros Hc.
  assert (Hw : to_intnat (2 * count) = 2 * count) by
    (apply to_intnat_small; lia).
  induction fuel as [|fuel IH]; intros k sz Hk; simpl; rewrite Hw.
  - destruct (Z.ltb_spec (2 ^ k) (2 * count)); [discriminate|].
    intros [= <-]. exists k. repeat split; lia.
  - destruct (Z.ltb_spec (2 ^ k) (2 * count)) as [Hlt|Hge].
    + assert (Hk30 : k < 30).
      { apply (Z.pow_lt_mono_r_iff 2); lia. }
      assert (Hpow : 2 ^ (k + 1) = 2 ^ k * 2).
      { rewrite Z.pow_add_r by lia. reflexivity. }
      assert (Hle : 2 ^ (k + 1) <= 2 ^ 30).
      { apply Z.pow_le_mono_r; lia. }
      assert (Hpos : 0 < 2 ^ k) by (apply Z.pow_pos_nonneg; lia).
      rewrite <- Hpow, to_intnat_small by lia.
      intros H. destruct (IH (k + 1) sz) as (k' & Hk' & Hsz & Hcap);
        [lia|assumption|].
      exists k'. repeat split; (lia || assumption).
    + intros [= <-]. exists k. repeat split; lia.
Qed.

Lemma fill_hashtable_fields fuel table l table' :
  fill_hashtable fuel table l = Ret table' ->
  num_descr table' = num_descr table /\ mask table' = mask table /\
  frametables table' = frametables table.
Proof.
  unfold fill_hashtable.
  destruct (fill_list fuel _ _ l); simpl; try discriminate.
  intros [= <-]. auto.
Qed.

Lemma total_descrs_perm l1 l2 : l1 ≡ₚ l2 -> total_descrs l1 = total_descrs l2.
Proof.
  unfold total_descrs.
  induction 1; simpl; lia.
Qed.

Lemma counts_ok_perm l1 l2 : l1 ≡ₚ l2 -> counts_ok l1 -> counts_ok l2.
Proof.
  intros Hp [Hall Hsum]. split.
  - rewrite <- Hp. assumption.
  - rewrite <- (total_descrs_perm _ _ Hp). assumption.
Qed.

Lemma counts_ok_app_l l1 l2 : counts_ok (l1 ++ l2) -> counts_ok l1.
Proof.
  intros [Hall Hsum]. apply Forall_app in Hall as [H1 H2]. split; [assumption|].
  rewrite total_descrs_app in Hsum.
  pose proof (total_descrs_nonneg _ H2). lia.
Qed.

Lemma counts_ok_app_r l1 l2 : counts_ok (l1 ++ l2) -> counts_ok l2.
Proof.
  intros H. apply counts_ok_app_l with (l2 := l1).
  eapply counts_ok_perm; [|exact H]. apply Permutation_app_comm.
Qed.

Lemma realloc_frame_descriptors_inv fuel table l table' :
  counts_ok l -> realloc_frame_descriptors fuel table l = Ret table' ->
  registry_inv table'.
Proof.
  intros Hcounts. pose proof Hcounts as [Hnn Hlim].
  pose proof (total_descrs_nonneg _ Hnn) as Htot0.
  unfold realloc_frame_descriptors.
  rewrite (count_descriptors_total _ Hcounts).
  destruct (grow_tblsize fuel 4 (total_descrs l)) as [sz| | |] eqn:Hgrow;
    try discriminate.
  simpl.
  destruct (grow_tblsize_ret (total_descrs l) (conj Htot0 Hlim) fuel 2 sz)
    as (k & Hk & -> & Hcap); [lia|exact Hgrow|].
  destruct (caml_stat_alloc_noexc _); [|discriminate].
  destruct (fill_hashtable fuel _ l) as [t1| | |] eqn:Hfill; try discriminate.
  simpl. intros [= <-].
  apply fill_hashtable_fields in Hfill as (Hn & Hm & _). simpl in *.
  assert (Hpos : 0 < 2 ^ k) by (apply Z.pow_pos_nonneg; lia).
  assert (Hle : 2 ^ k <= 2 ^ 30) by (apply Z.pow_le_mono_r; lia).
  unfold descr_limit in Hlim.
  rewrite to_int_small in Hn by lia. rewrite to_int_small in Hm by lia.
  unfold registry_inv. simpl. rewrite Hn, Hm.
  split; [exists k; split; [lia|lia]|].
  split; [lia|]. split; [assumption|reflexivity].
Qed.

Lemma registry_inv_capacity fds :
  registry_inv fds ->
  capacity fds = mask fds + 1 /\ 4 <= capacity fds <= 2 ^ 30 /\
  0 <= num_descr fds <= descr_limit.
Proof.
  intros ((k & Hk & Hm) & Hload & [Hnn Hlim] & Hnum).
  assert (H4 : 2 ^ 2 <= 2 ^ k) by (apply Z.pow_le_mono_r; lia).
  assert (Hle : 2 ^ k <= 2 ^ 30) by (apply Z.pow_le_mono_r; lia).
  unfold capacity. rewrite Hm, to_int_small by lia.
  pose proof (total_descrs_nonneg _ Hnn). simpl in H4. lia.
Qed.

(** The fast path, in [add_frame_descriptors] and in the rendezvous body. *)
Lemma fast_path_inv fuel fds new_frametables t1 :
  registry_inv fds -> counts_ok (new_frametables ++ frametables fds) ->
  insufficient fds (count_descriptors new_frametables) = false ->
  fill_hashtable fuel
    (mk_frame_descrs
       (to_int (num_descr fds + count_descriptors new_frametables))
       (mask fds) (descriptors fds) (frametables fds))
    new_frametables = Ret t1 ->
  registry_inv
    (mk_frame_descrs (num_descr t1) (mask t1) (descriptors t1)
       (new_frametables ++ frametables fds)).
Proof.
  intros Hinv Hcounts Hins Hfill.
  pose proof (registry_inv_capacity _ Hinv) as (Hcap & Hrange & Hnum).
  destruct Hinv as (Hk & Hload & Hok & Htot).
  apply fill_hashtable_fields in Hfill as (Hn & Hm & _). simpl in *.
  pose proof (counts_ok_app_l _ _ Hcounts) as Hnew.
  rewrite (count_descriptors_total _ Hnew) in *.
  pose proof Hnew as [Hnn Hlim]. pose proof (total_descrs_nonneg _ Hnn).
  unfold descr_limit in *.
  unfold insufficient in Hins.
  rewrite (to_intnat_small (num_descr fds + _)) in Hins by lia.
  rewrite to_intnat_small in Hins by lia.
  apply Z.ltb_ge in Hins.
  rewrite to_int_small in Hn by lia.
  unfold registry_inv. simpl. rewrite Hn, Hm.
  split; [assumption|]. split; [lia|]. split; [assumption|].
  rewrite total_descrs_app. lia.
Qed.

Lemma rendezvous_body_inv fuel fds new_frametables fds' :
  registry_inv fds -> counts_ok (new_frametables ++ frametables fds) ->
  realloc_frame_descriptors_from_stw_single true fuel fds
    (request_for new_frametables) = Ret fds' ->
  registry_inv fds'.
Proof.
  intros Hinv Hcounts.
  unfold realloc_frame_descriptors_from_stw_single, request_for. simpl.
  destruct (capacity fds <? _) eqn:Hins.
  - destruct (frametables_list_tail new_frametables); [|discriminate].
    apply realloc_frame_descriptors_inv. assumption.
  - destruct (fill_hashtable fuel _ new_frametables) as [t1| | |] eqn:Hfill;
      try discriminate.
    simpl. destruct (frametables_list_tail new_frametables); [|discriminate].
    simpl. intros [= <-].
    pose proof (fill_hashtable_fields _ _ _ _ Hfill) as (_ & _ & Hf).
    simpl in Hf. rewrite Hf.
    exact (fast_path_inv fuel fds new_frametables t1 Hinv Hcounts Hins Hfill).
Qed.

Lemma add_frame_descriptors_inv fuel fds new_frametables fds' :
  registry_inv fds -> counts_ok (new_frametables ++ frametables fds) ->
  add_frame_descriptors fuel fds new_frametables = Ret fds' ->
  registry_inv fds'.
Proof.
  intros Hinv Hcounts. unfold add_frame_descriptors.
  destruct (capacity fds <? _) eqn:Hins.
  - apply rendezvous_body_inv; assumption.
  - destruct (fill_hashtable fuel _ new_frametables) as [t1| | |] eqn:Hfill;
      try discriminate.
    simpl. destruct (frametables_list_tail new_frametables); [|discriminate].
    simpl. intros [= <-].
    pose proof (fill_hashtable_fields _ _ _ _ Hfill) as (_ & _ & Hf).
    simpl in Hf. rewrite Hf.
    exact (fast_path_inv fuel fds new_frametables t1 Hinv Hcounts Hins Hfill).
Qed.

Lemma cons_frametables_ret n i tables acc l :
  cons_frametables n i tables acc = Ret l ->
  l = rev (take n (drop (Z.to_nat i) tables)) ++ acc.
Proof.
  revert i acc. induction n as [|n IH]; intros i acc; simpl.
  - intros [= <-]. reflexivity.
  - destruct (array_get tables i) as [t|] eqn:Ht; [|discriminate].
    apply array_get_Some in Ht as (Hi & Ht & _).
    unfold cons. destruct (caml_stat_alloc node_size); [|discriminate].
    simpl. intros H. apply IH in H. rewrite (drop_S _ _ _ Ht). simpl.
    replace (Z.to_nat (i + 1)) with (S (Z.to_nat i)) in H by lia.
    rewrite <- app_assoc. exact H.
Qed.

Lemma init_frametables_ret tables acc l :
  init_frametables tables acc = Ret l -> l = rev tables ++ acc.
Proof.
  revert acc. induction tables as [|t tables IH]; intros acc; simpl.
  - intros [= <-]. reflexivity.
  - unfold cons. destruct (caml_stat_alloc node_size); [|discriminate].
    simpl. intros H. apply IH in H. rewrite <- app_assoc. exact H.
Qed.

Lemma caml_register_frametables_inv fuel fds tables ntables fds' :
  registry_inv fds -> counts_ok (handles tables ntables ++ frametables fds) ->
  caml_register_frametables fuel fds tables ntables = Ret fds' ->
  registry_inv fds'.
Proof.
  intros Hinv Hcounts. unfold caml_register_frametables.
  destruct (cons_frametables _ 0 tables []) as [l| | |] eqn:Hcons;
    try discriminate.
  simpl. apply cons_frametables_ret in Hcons.
  simpl in Hcons. rewrite drop_0, app_nil_r in Hcons. subst l.
  apply add_frame_descriptors_inv; [assumption|].
  eapply counts_ok_perm; [|exact Hcounts].
  unfold handles. apply Permutation_app_tail. apply Permutation_rev.
Qed.

Lemma invalid_entry_fields fuel fds e fds' :
  invalid_entry fuel fds e = Ret fds' ->
  num_descr fds' = num_descr fds /\ mask fds' = mask fds /\
  frametables fds' = frametables fds.
Proof.
  unfold invalid_entry.
  destruct (invalid_entry_loop fuel _ _ e _); simpl; try discriminate.
  intros [= <-]. auto.
Qed.

Lemma invalidate_frametable_fields fuel j fds descr fds' :
  invalidate_frametable fuel j fds descr = Ret fds' ->
  num_descr fds' = num_descr fds /\ mask fds' = mask fds /\
  frametables fds' = frametables fds.
Proof.
  revert fds descr. induction j as [|j IH]; intros fds descr; simpl.
  - intros [= <-]. auto.
  - destruct (invalid_entry fuel fds descr) as [fds1| | |] eqn:H1;
      try discriminate.
    simpl. intros H2. apply IH in H2 as (? & ? & ?).
    apply invalid_entry_fields in H1 as (? & ? & ?).
    repeat split; congruence.
Qed.

Lemma invalidate_frametables_fields fuel n i fds tables dec fds' dec' :
  invalidate_frametables fuel n i fds tables dec = Ret (fds', dec') ->
  (num_descr fds' = num_descr fds /\ mask fds' = mask fds /\
   frametables fds' = frametables fds) /\
  dec' = fold_left (fun num cur => to_intnat (num + frametable_len cur))
           (take n (drop (Z.to_nat i) tables)) dec /\
  ((0 < n)%nat -> 0 <= i /\ i + Z.of_nat n <= Z.of_nat (length tables)).
Proof.
  revert i fds dec. induction n as [|n IH]; intros i fds dec; simpl.
  - intros [= <- <-]. split; [auto|]. split; [reflexivity|]. lia.
  - destruct (array_get tables i) as [t|] eqn:Ht; [|discriminate].
    destruct (invalidate_frametable fuel _ fds (t + word_size))
      as [fds1| | |] eqn:H1; try discriminate.
    simpl. intros H2. apply array_get_Some in Ht as (Hi & Ht & Hlt).
    apply IH in H2 as ((? & ? & ?) & Hdec & Hlen).
    apply invalidate_frametable_fields in H1 as (? & ? & ?).
    split; [repeat split; congruence|]. split.
    2:{ intros _. destruct n as [|n']; [lia|].
        destruct Hlen as [_ Hlen]; lia. }
    rewrite (drop_S _ _ _ Ht). simpl.
    replace (Z.to_nat (i + 1)) with (S (Z.to_nat i)) in Hdec by lia.
    exact Hdec.
Qed.

Lemma counts_ok_submseteq l1 l2 : l1 ⊆+ l2 -> counts_ok l2 -> counts_ok l1.
Proof.
  intros Hsub Hok. apply submseteq_Permutation in Hsub as [k Hp].
  apply counts_ok_app_l with (l2 := k).
  eapply counts_ok_perm; [exact Hp|exact Hok].
Qed.

Lemma remove_frame_descriptors_inv fuel fds tables ntables fds' tables' :
  registry_inv fds -> handles tables ntables ⊆+ frametables fds ->
  remove_frame_descriptors fuel fds tables ntables = Ret (fds', tables') ->
  registry_inv fds' /\ frametables fds ≡ₚ handles tables ntables ++ frametables fds'.
Proof.
  intros Hinv Hsub. unfold remove_frame_descriptors.
  destruct (invalidate_frametables fuel _ 0 fds tables 0)
    as [[fds1 dec]| | |] eqn:H1; try discriminate.
  simpl.
  destruct (unlink_frametables (frametables fds1) tables ntables)
    as [[l t]| | |] eqn:H2; try discriminate.
  simpl. intros [= <- <-].
  apply invalidate_frametables_fields in H1 as ((Hn & Hm & Hf) & Hdec & Hlen).
  simpl in Hdec. rewrite drop_0 in Hdec. fold (handles tables ntables) in Hdec.
  pose proof (registry_inv_capacity _ Hinv) as (_ & _ & Hnum).
  destruct Hinv as (Hk & Hload & Hok & Htot).
  pose proof (counts_ok_submseteq _ _ Hsub Hok) as Hrem.
  fold (count_descriptors (handles tables ntables)) in Hdec.
  rewrite (count_descriptors_total _ Hrem) in Hdec.
  assert (Hlen' : ntables <= Z.of_nat (length tables)).
  { destruct (Z.to_nat ntables) as [|n'] eqn:Hnt; [lia|].
    destruct Hlen as [_ Hlen]; lia. }
  rewrite Hf in H2.
  destruct (unlink_frametables_ok _ _ _ Hlen' Hsub) as (l' & t' & Hun & Hp & _).
  rewrite Hun in H2. injection H2 as <- <-.
  split; [|exact Hp].
  pose proof (total_descrs_perm _ _ Hp) as Hsum.
  rewrite total_descrs_app in Hsum.
  assert (Hl' : counts_ok l').
  { apply counts_ok_app_r with (l1 := handles tables ntables).
    eapply counts_ok_perm; [exact Hp|exact Hok]. }
  pose proof Hrem as [Hnn _]. pose proof (total_descrs_nonneg _ Hnn).
  pose proof Hl' as [Hnn' _]. pose proof (total_descrs_nonneg _ Hnn').
  unfold descr_limit in *.
  unfold registry_inv. simpl. rewrite Hn, Hm, Hdec.
  rewrite to_int_small by lia.
  split; [assumption|]. split; [lia|]. split; [assumption|lia].
Qed.

Lemma caml_init_frame_descriptors_inv fuel fds :
  counts_ok caml_frametable ->
  caml_init_frame_descriptors fuel = Ret fds -> registry_inv fds.
Proof.
  intros Hcounts. unfold caml_init_frame_descriptors.
  destruct (init_frametables caml_frametable []) as [l| | |] eqn:Hinit;
    try discriminate.
  simpl. apply init_frametables_ret in Hinit. rewrite app_nil_r in Hinit.
  subst l. apply realloc_frame_descriptors_inv.
  eapply counts_ok_perm; [|exact Hcounts]. apply Permutation_rev.
Qed.

Lemma reachable_inv fds : reachable fds -> registry_inv fds.
Proof.
  induction 1 as [fuel fds Hc Hinit
                 |fuel fds tables ntables fds' _ IH Hc Hreg
                 |fuel fds new fds' _ IH Hc Hbody
                 |fuel fds tables ntables fds' tables' _ IH Hsub Hun].
  - eapply caml_init_frame_descriptors_inv; eauto.
  - eapply caml_register_frametables_inv; eauto.
  - eapply rendezvous_body_inv; eauto.
  - eapply remove_frame_descriptors_inv; eauto.
Qed.

(** C4.  In every state reached from initialisation by registrations,
    rendezvous rebuilds and deregistrations, the capacity is a power of
    two (I1) and twice the count is at most the capacity (I2). *)
Theorem reachable_I1_I2 (fds : caml_frame_descrs) :
  reachable fds -> I1 fds /\ I2 fds.
Proof.
  intros Hreach. apply reachable_inv in Hreach.
  pose proof (registry_inv_capacity _ Hreach) as (Hcap & _ & _).
  destruct Hreach as ((k & Hk & Hm) & Hload & _).
  unfold I1, I2, is_power_of_2. rewrite Hcap. split.
  - right. exists k. split; [lia|assumption].
  - intros _. assumption.
Qed.

(** *** The array of the caller *)

Lemma unlink_frametables_two a b rest more :
  unlink_frametables (a :: b :: rest) (a :: b :: more) 2
  = Ret (rest, b :: b :: more).
Proof.
  cbv -[Z.eqb]. rewrite Z.eqb_refl.
  change (1 =? 0) with false. cbv -[Z.eqb]. rewrite Z.eqb_refl.
  change (0 =? 0) with true. cbv -[Z.eqb]. reflexivity.
Qed.

(** C9.  Deregistration writes into the array of handles it is given:
    when the two handles [a] and [b] head the batch list in this order,
    the call leaves [b] in both entries, so the array is not what the
    caller passed unless the two handles were equal. *)
Theorem deregister_overwrites_handles
    (fuel : nat) (fds : caml_frame_descrs) (a b : Z) (rest more : list Z)
    (fds' : caml_frame_descrs) (tables' : list Z) :
  frametables fds = a :: b :: rest ->
  caml_unregister_frametables fuel fds (a :: b :: more) 2
    = Ret (fds', tables') ->
  tables' = b :: b :: more /\
  frametables fds' = rest /\
  (a <> b -> tables' <> a :: b :: more).
Proof.
  intros Hlist. unfold caml_unregister_frametables, remove_frame_descriptors.
  destruct (invalidate_frametables fuel _ 0 fds (a :: b :: more) 0)
    as [[fds1 dec]| | |] eqn:H1; try discriminate.
  apply invalidate_frametables_fields in H1 as ((_ & _ & Hf) & _).
  cbn [mbind outcome_bind frametables]. rewrite Hf, Hlist.
  rewrite unlink_frametables_two.
  cbn [mbind outcome_bind mret outcome_ret].
  intros [= <- <-]. cbn [frametables].
  split; [reflexivity|]. split; [reflexivity|].
  intros Hne [= Heq]. auto.
Qed.

(** *** Registration and removal on a table that holds its batch list *)

Lemma list_descrs_app l1 l2 :
  list_descrs (l1 ++ l2) = list_descrs l1 ++ list_descrs l2.
Proof. unfold list_descrs. rewrite map_app, concat_app. reflexivity. Qed.

Lemma list_descrs_perm l1 l2 :
  l1 ≡ₚ l2 -> list_descrs l1 ≡ₚ list_descrs l2.
Proof.
  unfold list_descrs. induction 1 as [|x l1 l2 _ IH|x y l|l1 l2 l3 _ IH1 _ IH2];
    simpl.
  - reflexivity.
  - rewrite IH. reflexivity.
  - rewrite !app_assoc. apply Permutation_app_tail. apply Permutation_app_comm.
  - etransitivity; eauto.
Qed.

Lemma descrs_ok_app ds1 ds2 :
  descrs_ok (ds1 ++ ds2) ->
  descrs_ok ds1 /\ descrs_ok ds2 /\
  (forall x d, x ∈ ds1 -> d ∈ ds2 -> retaddr d <> retaddr x).
Proof.
  intros [Hnd Hok]. rewrite map_app in Hnd.
  apply NoDup_app in Hnd as (H1 & Hcross & H2).
  apply Forall_app in Hok as [Hok1 Hok2].
  split; [split; assumption|]. split; [split; assumption|].
  intros x d Hx Hd Heq. apply (Hcross (retaddr x)).
  - apply list_elem_of_fmap_2. assumption.
  - rewrite <- Heq. apply list_elem_of_fmap_2. assumption.
Qed.

Lemma table_ok_stored fuel fds :
  table_ok fuel fds ->
  stored fuel (descriptors fds) (mask fds) (list_descrs (frametables fds)).
Proof.
  intros (_ & _ & _ & Hlive & Hfind). split.
  - intros i e Hi He. rewrite <- Hlive. apply elem_of_live.
    split; [|assumption]. apply list_elem_of_lookup. eauto.
  - exact Hfind.
Qed.

(** Registration returns, and the table then holds the new frame tables
    and the registered ones. *)
Lemma add_frame_descriptors_ok fuel fds new_frametables :
  let merged := new_frametables ++ frametables fds in
  table_ok fuel fds -> new_frametables <> [] ->
  counts_ok merged -> descrs_ok (list_descrs merged) ->
  enough_fuel fuel (total_descrs merged) ->
  (forall c, smallest_capacity (2 * total_descrs merged) c ->
             caml_stat_alloc_noexc (c * word_size) = true) ->
  exists fds',
    add_frame_descriptors fuel fds new_frametables = Ret fds' /\
    frametables fds' = merged /\ table_ok fuel fds'.
Proof.
  intros merged Hok Hnew Hcounts Hdescrs Hfuel Halloc.
  destruct (frametables_list_tail_Some _ Hnew) as [t Ht].
  pose proof Hok as (Hinv & Hwf & Hlen & Hlive & Hfind).
  destruct (insufficient fds (count_descriptors new_frametables)) eqn:Hins.
  - (* the table is rebuilt *)
    destruct (realloc_frame_descriptors_ok fuel fds merged Hcounts Hfuel Halloc)
      as (fds' & Hre & Hnum & Hft & _ & Hwf' & Hlen' & _ & Hst).
    destruct (Hst Hdescrs) as [[_ Hfind'] Hlive'].
    assert (Hadd : add_frame_descriptors fuel fds new_frametables = Ret fds').
    { unfold add_frame_descriptors, realloc_frame_descriptors_from_stw_single.
      unfold insufficient in Hins. simpl. rewrite Hins, Ht. exact Hre. }
    exists fds'. split; [assumption|]. split; [assumption|].
    split; [eapply add_frame_descriptors_inv; eauto|].
    split; [assumption|]. split; [assumption|].
    rewrite Hft. split; [assumption|]. exact Hfind'.
  - (* the fast path *)
    pose proof (registry_inv_capacity _ Hinv) as (Hcap & Hrange & Hnum).
    pose proof Hinv as (_ & _ & Hcold & Htot).
    pose proof (counts_ok_app_l _ _ Hcounts) as Hcnew.
    pose proof Hcnew as [Hnn Hlim]. pose proof Hcold as [Hnn' _].
    pose proof (total_descrs_nonneg _ Hnn) as Hnew0.
    pose proof (descrs_ok_app _ _
                  (eq_ind _ descrs_ok Hdescrs _ (list_descrs_app _ _)))
      as (Hdnew & Hdold & Hcross).
    assert (Hroom : (num_descr fds + total_descrs new_frametables) * 2
                    <= capacity fds).
    { unfold insufficient in Hins.
      rewrite (count_descriptors_total _ Hcnew) in Hins.
      unfold descr_limit in *.
      rewrite (to_intnat_small (num_descr fds + _)) in Hins by lia.
      rewrite to_intnat_small in Hins by lia.
      apply Z.ltb_ge in Hins. exact Hins. }
    destruct Hwf as (k & Hk & Hm & Hlenk).
    destruct (insert_all_ok fuel (mask fds) (list_descrs new_frametables)
                (descriptors fds))
      as (a' & Hinsert & Hshape' & Hlen' & _ & Hperm & Hst).
    + exists k. auto.
    + assumption.
    + rewrite live_count_live, Hlive.
      pose proof (length_list_descrs _ Hnn).
      pose proof (length_list_descrs _ Hnn'). lia.
    + assert (Hadd : add_frame_descriptors fuel fds new_frametables
                     = Ret (mk_frame_descrs
                              (to_int (num_descr fds
                                       + count_descriptors new_frametables))
                              (mask fds) a' merged)).
      { unfold add_frame_descriptors. unfold insufficient in Hins.
        rewrite Hins. unfold fill_hashtable. simpl.
        rewrite fill_list_insert_all, Hinsert. simpl. rewrite Ht.
        reflexivity. }
      eexists. split; [exact Hadd|]. split; [reflexivity|].
      split; [eapply add_frame_descriptors_inv; eauto|].
      split; [exact Hshape'|]. simpl. split; [lia|].
      unfold merged. rewrite list_descrs_app. split.
      * rewrite (Hperm (proj2 Hdnew)), Hlive. reflexivity.
      * apply (Hst (list_descrs (frametables fds)));
          [apply table_ok_stored; assumption|assumption|apply Hdold|].
        intros x d Hx Hd. apply Hcross; assumption.
Qed.

(** The removal probe finds what the lookup finds. *)
Lemma invalid_entry_loop_total fuel a m e h :
  find_loop fuel a m (retaddr e) h = Ret e -> e <> NULL ->
  exists q, atomic_load_relaxed a q = Some e /\
    invalid_entry_loop fuel a m e h = Ret (atomic_store_relaxed a q dummy_descr).
Proof.
  intros Hfind He. revert h Hfind.
  induction fuel as [|fuel IH]; intros h; simpl; [discriminate|].
  destruct (atomic_load_relaxed a h) as [x|] eqn:Hx; [|discriminate].
  destruct (Z.eqb_spec x NULL) as [->|Hx0].
  - intros [= <-]. contradiction.
  - destruct (Z.eqb_spec (retaddr x) (retaddr e)) as [Hr|Hr].
    + intros [= ->]. rewrite Z.eqb_refl. eauto.
    + destruct (Z.eqb_spec x e) as [->|_]; [contradiction|]. apply IH.
Qed.

Lemma remove_all_ok fuel es :
  forall fds R,
  live (descriptors fds) ≡ₚ es ++ R ->
  NoDup (es ++ R) ->
  Forall (fun d => d <> NULL /\ d <> dummy_descr /\
                   retaddr d <> dummy_descr) (es ++ R) ->
  (forall d, d ∈ es ++ R ->
     caml_find_frame_descr fuel fds (retaddr d) = Ret d) ->
  exists fds',
    remove_all fuel fds es = Ret fds' /\
    (num_descr fds' = num_descr fds /\ mask fds' = mask fds /\
     frametables fds' = frametables fds) /\
    length (descriptors fds') = length (descriptors fds) /\
    live (descriptors fds') ≡ₚ R /\
    (forall d, d ∈ R -> caml_find_frame_descr fuel fds' (retaddr d) = Ret d).
Proof.
  induction es as [|e es IH]; intros fds R Hlive Hnd Hok Hfind; simpl in *.
  - exists fds. repeat split; auto.
  - apply NoDup_cons in Hnd as [He Hnd].
    apply Forall_cons in Hok as [(He0 & Hed & Her) Hok].
    destruct (invalid_entry_loop_total fuel (descriptors fds) (mask fds) e
                (Hash_retaddr (retaddr e) (mask fds)))
      as (q & Hq & Hloop); [apply Hfind; left|assumption|].
    unfold invalid_entry at 1. rewrite Hloop. simpl.
    pose proof (load_Some _ _ _ Hq) as (_ & Hq' & _).
    destruct (IH (mk_frame_descrs (num_descr fds) (mask fds)
                    (atomic_store_relaxed (descriptors fds) q dummy_descr)
                    (frametables fds)) R)
      as (fds' & Hrem & Hfields & Hlen & Hlive' & Hfind'); simpl.
    + apply (Permutation_cons_inv (a := e)).
      rewrite <- Hlive. symmetry. unfold atomic_store_relaxed, array_set.
      apply live_insert_tombstone; [assumption|].
      apply is_free_false; assumption.
    + assumption.
    + assumption.
    + intros d Hd. unfold caml_find_frame_descr. simpl.
      rewrite Forall_forall in Hok. destruct (Hok d Hd) as (_ & _ & Hdr).
      apply find_loop_tombstone with (e := e); [|assumption| |assumption].
      * apply (Hfind d). right. assumption.
      * intros ->. contradiction.
    + exists fds'. split; [assumption|]. simpl in *.
      split; [assumption|]. split; [|split; assumption].
      rewrite Hlen. unfold atomic_store_relaxed, array_set.
      apply length_insert.
Qed.

Lemma invalidate_frametable_remove_all fuel j fds descr :
  invalidate_frametable fuel j fds descr
  = remove_all fuel fds (descrs_from j descr).
Proof.
  revert fds descr. induction j as [|j IH]; intros fds descr; simpl;
    [reflexivity|].
  destruct (invalid_entry fuel fds descr); simpl; [apply IH|reflexivity..].
Qed.

Lemma remove_all_app fuel fds es1 es2 :
  remove_all fuel fds (es1 ++ es2)
  = fds' ← remove_all fuel fds es1; remove_all fuel fds' es2.
Proof.
  revert fds. induction es1 as [|e es1 IH]; intros fds; simpl; [reflexivity|].
  destruct (invalid_entry fuel fds e); simpl; [apply IH|reflexivity..].
Qed.

Lemma invalidate_frametables_remove_all fuel n :
  forall i fds tables dec,
  0 <= i -> i + Z.of_nat n <= Z.of_nat (length tables) ->
  invalidate_frametables fuel n i fds tables dec
  = fds' ← remove_all fuel fds
             (list_descrs (take n (drop (Z.to_nat i) tables)));
    mret (fds',
          fold_left (fun num cur => to_intnat (num + frametable_len cur))
            (take n (drop (Z.to_nat i) tables)) dec).
Proof.
  induction n as [|n IH]; intros i fds tables dec Hi Hn; simpl;
    [reflexivity|].
  destruct (array_get_in_range tables i) as [t Ht]; [lia|].
  rewrite Ht. apply array_get_Some in Ht as (_ & Ht & _).
  rewrite (drop_S _ _ _ Ht). simpl. unfold list_descrs. simpl.
  fold (list_descrs (take n (drop (S (Z.to_nat i)) tables))).
  rewrite remove_all_app, invalidate_frametable_remove_all.
  unfold frametable_descrs.
  destruct (remove_all fuel fds _) as [fds1| | |]; simpl; try reflexivity.
  rewrite IH by lia.
  replace (Z.to_nat (i + 1)) with (S (Z.to_nat i)) by lia. reflexivity.
Qed.

(** Removal of registered frame tables returns, and the table then holds
    the frame tables that are left; the removed descriptors are in no
    slot. *)
Lemma remove_frame_descriptors_ok fuel fds tables ntables :
  table_ok fuel fds ->
  ntables <= Z.of_nat (length tables) ->
  handles tables ntables ⊆+ frametables fds ->
  descrs_ok (list_descrs (frametables fds)) ->
  Forall (fun d => retaddr d <> dummy_descr) (list_descrs (frametables fds)) ->
  exists fds' tables',
    remove_frame_descriptors fuel fds tables ntables = Ret (fds', tables') /\
    frametables fds ≡ₚ handles tables ntables ++ frametables fds' /\
    table_ok fuel fds' /\
    (forall d, d ∈ list_descrs (handles tables ntables) ->
               d ∉ descriptors fds').
Proof.
  intros Hok Hn Hsub [Hnd Hne] Hkeys.
  pose proof Hok as (Hinv & (k & Hk & Hm & Hlenk) & Hlen & Hlive & Hfind).
  destruct (unlink_frametables_ok _ _ _ Hn Hsub) as (l & tables' & Hun & Hp & _).
  pose proof (list_descrs_perm _ _ Hp) as Hpd. rewrite list_descrs_app in Hpd.
  assert (Hnd' : NoDup (list_descrs (handles tables ntables) ++ list_descrs l)).
  { rewrite <- Hpd. eapply NoDup_fmap_1. exact Hnd. }
  destruct (remove_all_ok fuel (list_descrs (handles tables ntables)) fds
              (list_descrs l))
    as (fds1 & Hrem & (Hn1 & Hm1 & Hf1) & Hlen1 & Hlive1 & Hfind1).
  - rewrite Hlive. exact Hpd.
  - exact Hnd'.
  - rewrite <- Hpd. rewrite Forall_forall in *. intros d Hd.
    destruct (Hne d Hd). auto.
  - intros d Hd. apply Hfind. rewrite Hpd. assumption.
  - assert (Hphase1 : invalidate_frametables fuel (Z.to_nat ntables) 0 fds
                        tables 0
                      = Ret (fds1, count_descriptors (handles tables ntables))).
    { rewrite invalidate_frametables_remove_all by lia.
      simpl. rewrite drop_0. fold (handles tables ntables).
      rewrite Hrem. reflexivity. }
    assert (Hresult : remove_frame_descriptors fuel fds tables ntables
              = Ret (mk_frame_descrs
                       (to_int (num_descr fds1
                                - count_descriptors (handles tables ntables)))
                       (mask fds1) (descriptors fds1) l, tables')).
    { unfold remove_frame_descriptors. rewrite Hphase1. simpl.
      rewrite Hf1, Hun. reflexivity. }
    eexists _, tables'. split; [exact Hresult|].
    destruct (remove_frame_descriptors_inv _ _ _ _ _ _ Hinv Hsub Hresult)
      as [Hinv' _].
    split; [exact Hp|]. split.
    + split; [exact Hinv'|]. unfold well_formed, table_shape. simpl.
      split; [exists k; rewrite Hm1, Hlen1; auto|].
      split; [lia|]. split; [exact Hlive1|].
      intros d Hd. specialize (Hfind1 d Hd).
      unfold caml_find_frame_descr in *. exact Hfind1.
    + simpl. intros d Hd Hin.
      assert (Hdl : d ∈ live (descriptors fds1)).
      { apply elem_of_live. split; [assumption|].
        rewrite Forall_forall in Hne.
        destruct (Hne d) as [H0 Hdd].
        - rewrite Hpd. apply elem_of_app. left. assumption.
        - apply is_free_false; assumption. }
      rewrite Hlive1 in Hdl.
      apply NoDup_app in Hnd' as (_ & Hdisj & _).
      exact (Hdisj d Hd Hdl).
Qed.

Lemma find_loop_in fuel a m pc h x :
  find_loop fuel a m pc h = Ret x -> x ∈ a.
Proof.
  revert h. induction fuel as [|fuel IH]; intros h; simpl; [discriminate|].
  destruct (atomic_load_relaxed a h) as [y|] eqn:Hy; [|discriminate].
  apply load_Some in Hy as (_ & Hy & _).
  assert (Hin : y ∈ a) by (apply list_elem_of_lookup; eauto).
  destruct (y =? NULL); [intros [= <-]; assumption|].
  destruct (retaddr y =? pc); [intros [= <-]; assumption|]. apply IH.
Qed.

(** In a table that holds its batch list, the lookup of a key that no
    registered descriptor has returns [NULL] if it returns at all. *)
Lemma find_absent fuel fuel' fds pc x :
  table_ok fuel fds -> pc <> dummy_descr ->
  (forall d, d ∈ list_descrs (frametables fds) -> retaddr d <> pc) ->
  caml_find_frame_descr fuel' fds pc = Ret x -> x = NULL.
Proof.
  intros (_ & _ & _ & Hlive & _) Hpc Habsent Hfind.
  unfold caml_find_frame_descr in Hfind.
  pose proof (find_loop_in _ _ _ _ _ _ Hfind) as Hin.
  apply find_loop_post in Hfind as [H0|Hr]; [assumption|].
  destruct (is_free x) eqn:Hfree.
  - apply is_free_true in Hfree as [H|H]; [assumption|].
    subst x. rewrite retaddr_dummy in Hr. congruence.
  - exfalso. apply (Habsent x); [|assumption].
    rewrite <- Hlive. apply elem_of_live. auto.
Qed.

(** The round trip on a table that holds its batch list: registration
    returns and the new descriptors are found; the removal of the same
    frame tables returns, and the lookup of a removed return address
    returns [NULL] if it returns, which it does when a slot is empty. *)
Lemma round_trip fuel fds new_frametables :
  let merged := new_frametables ++ frametables fds in
  table_ok fuel fds -> new_frametables <> [] ->
  counts_ok merged -> descrs_ok (list_descrs merged) ->
  Forall (fun d => retaddr d <> dummy_descr) (list_descrs merged) ->
  enough_fuel fuel (total_descrs merged) ->
  (forall c, smallest_capacity (2 * total_descrs merged) c ->
             caml_stat_alloc_noexc (c * word_size) = true) ->
  exists fds1,
    add_frame_descriptors fuel fds new_frametables = Ret fds1 /\
    (forall d, d ∈ list_descrs new_frametables ->
       caml_find_frame_descr fuel fds1 (retaddr d) = Ret d) /\
    exists fds2 tables',
      remove_frame_descriptors fuel fds1 new_frametables
        (Z.of_nat (length new_frametables)) = Ret (fds2, tables') /\
      table_ok fuel fds2 /\
      forall d, d ∈ list_descrs new_frametables ->
        (forall fuel' x,
           caml_find_frame_descr fuel' fds2 (retaddr d) = Ret x -> x = NULL) /\
        (NULL ∈ descriptors fds2 ->
         caml_find_frame_descr fuel fds2 (retaddr d) = Ret NULL).
Proof.
  intros merged Hok Hnew Hcounts Hdescrs Hkeys Hfuel Halloc.
  destruct (add_frame_descriptors_ok fuel fds new_frametables
              Hok Hnew Hcounts Hdescrs Hfuel Halloc)
    as (fds1 & Hadd & Hft1 & Hok1).
  exists fds1. split; [assumption|].
  pose proof Hok1 as (_ & _ & _ & _ & Hfind1).
  split.
  { intros d Hd. apply Hfind1. rewrite Hft1. unfold merged.
    rewrite list_descrs_app. apply elem_of_app. auto. }
  assert (Hh : handles new_frametables (Z.of_nat (length new_frametables))
               = new_frametables).
  { unfold handles. rewrite Nat2Z.id. apply firstn_all. }
  destruct (remove_frame_descriptors_ok fuel fds1 new_frametables
              (Z.of_nat (length new_frametables)))
    as (fds2 & tables' & Hrem & Hp & Hok2 & _).
  - assumption.
  - lia.
  - rewrite Hh, Hft1. apply submseteq_inserts_r. reflexivity.
  - rewrite Hft1. assumption.
  - rewrite Hft1. assumption.
  - exists fds2, tables'. split; [assumption|]. split; [assumption|].
    rewrite Hh, Hft1 in Hp. apply Permutation_app_inv_l in Hp.
    pose proof (descrs_ok_app _ _
                  (eq_ind _ descrs_ok Hdescrs _ (list_descrs_app _ _)))
      as (_ & _ & Hcross).
    intros d Hd.
    assert (Hnone : forall fuel' x,
              caml_find_frame_descr fuel' fds2 (retaddr d) = Ret x ->
              x = NULL).
    { intros fuel' x. apply (find_absent fuel); [assumption| |].
      - rewrite Forall_forall in Hkeys. apply Hkeys. unfold merged.
        rewrite list_descrs_app. apply elem_of_app. auto.
      - intros d' Hd'. apply Hcross; [assumption|].
        rewrite (list_descrs_perm _ _ Hp). assumption. }
    split; [exact Hnone|].
    intros Hnull. destruct Hok2 as (_ & Hwf2 & Hlen2 & _).
    destruct (find_loop_total (descriptors fds2) (mask fds2) (retaddr d) fuel
                (Hash_retaddr (retaddr d) (mask fds2)))
      as [x Hx]; [assumption|assumption| |assumption|].
    { apply Hash_retaddr_range. eapply table_shape_mask. exact Hwf2. }
    unfold caml_find_frame_descr. rewrite Hx. f_equal.
    apply (Hnone fuel). exact Hx.
Qed.

(** *** Counting, parsing and bounds *)

(** X1.  [count_descriptors] adds the length words: for frame tables
    whose length words are counts with a total of at most [2^29] no
    addition wraps, the count of an appended list is the sum of the
    counts, and the count is the number of descriptors the loops of
    [fill_hashtable] visit. *)
Theorem count_descriptors_adds (l1 l2 : list Z) :
  counts_ok (l1 ++ l2) ->
  count_descriptors (l1 ++ l2) = count_descriptors l1 + count_descriptors l2 /\
  count_descriptors (l1 ++ l2) = total_descrs (l1 ++ l2) /\
  Z.of_nat (length (list_descrs (l1 ++ l2))) = count_descriptors (l1 ++ l2) /\
  0 <= count_descriptors (l1 ++ l2) <= descr_limit.
Proof.
  intros Hok.
  rewrite (count_descriptors_total _ Hok).
  rewrite (count_descriptors_total _ (counts_ok_app_l _ _ Hok)).
  rewrite (count_descriptors_total _ (counts_ok_app_r _ _ Hok)).
  destruct Hok as [Hnn Hlim].
  split; [apply total_descrs_app|]. split; [reflexivity|].
  split; [apply length_list_descrs; assumption|].
  split; [apply total_descrs_nonneg; assumption|assumption].
Qed.

Lemma Align_to_spec p size :
  0 < size ->
  p <= Align_to p size < p + size /\ Align_to p size mod size = 0.
Proof.
  intros Hs. unfold Align_to.
  pose proof (Z.div_mod (p + size - 1) size ltac:(lia)) as Hdm.
  pose proof (Z.mod_pos_bound (p + size - 1) size Hs) as Hb.
  split; [|apply Z_mod_mult]. nia.
Qed.

(** X2.  [next_frame_descr] returns a word-aligned address.  For a
    descriptor that returns to C it is the first aligned address from
    [live_ofs] on; otherwise it is not before the end of [live_ofs]. *)
Theorem next_frame_descr_aligned (d : Z) :
  next_frame_descr d mod word_size = 0 /\
  (frame_return_to_C d = true ->
   live_ofs d 0 <= next_frame_descr d < live_ofs d 0 + word_size) /\
  (frame_return_to_C d = false ->
   0 <= load_uchar (live_ofs d (num_live d)) ->
   live_ofs d (num_live d) <= next_frame_descr d).
Proof.
  assert (Hw : 0 < word_size) by (unfold word_size; lia).
  unfold next_frame_descr.
  destruct (frame_return_to_C d); simpl.
  - split; [apply (Align_to_spec _ _ Hw)|].
    split; [intros _; apply (Align_to_spec _ _ Hw)|discriminate].
  - split; [apply (Align_to_spec _ _ Hw)|].
    split; [discriminate|]. intros _ Hn.
    set (p0 := live_ofs d (num_live d)) in *.
    set (n := load_uchar p0) in *.
    assert (Hal : forall p s, 0 < s -> p <= Align_to p s)
      by (intros p s Hs; apply Align_to_spec; assumption).
    destruct (frame_has_allocs d), (frame_has_debug d).
    + pose proof (Hal (p0 + n + 1) 4 ltac:(lia)).
      pose proof (Hal (Align_to (p0 + n + 1) 4 + 4 * n) word_size Hw). lia.
    + pose proof (Hal (p0 + n + 1) word_size Hw). lia.
    + pose proof (Hal p0 4 ltac:(lia)).
      pose proof (Hal (Align_to p0 4 + 4 * 1) word_size Hw). lia.
    + apply Hal. assumption.
Qed.

Lemma find_loop_no_fault a m pc :
  0 <= m -> Z.of_nat (length a) = m + 1 ->
  forall fuel h, 0 <= h <= m -> find_loop fuel a m pc h <> Fault.
Proof.
  intros Hm Hlen. induction fuel as [|fuel IH]; intros h Hh; simpl;
    [discriminate|].
  destruct (load_in_range a h) as [x ->]; [lia|].
  destruct (x =? NULL); [discriminate|].
  destruct (retaddr x =? pc); [discriminate|].
  apply IH. apply next_slot_range. lia.
Qed.

(** X16.  In a table whose capacity is a power of two and the length of
    its array, a lookup never reads outside the array, whatever the key
    and the contents.  On a table without an array, as before
    [caml_init_frame_descriptors], the first read is through the null
    pointer. *)
Theorem find_frame_descr_in_bounds
    (fuel : nat) (fds : caml_frame_descrs) (pc : Z) :
  (well_formed fds -> caml_find_frame_descr fuel fds pc <> Fault) /\
  (descriptors fds = [] -> fuel <> O ->
   caml_find_frame_descr fuel fds pc = Fault).
Proof.
  unfold caml_find_frame_descr. split.
  - intros Hwf. pose proof (table_shape_mask _ _ Hwf) as Hm.
    destruct Hwf as (k & Hk & Hmk & Hlen).
    apply find_loop_no_fault; [assumption|lia|].
    apply Hash_retaddr_range. assumption.
  - intros -> Hfuel. destruct fuel as [|fuel]; [contradiction|]. simpl.
    unfold atomic_load_relaxed, array_get.
    destruct (0 <=? _); reflexivity.
Qed.

(** *** Handles that are not registered, and no handles at all *)

Lemma invalid_entry_loop_spin a m e :
  0 <= m -> Z.of_nat (length a) = m + 1 -> e ∉ a ->
  forall fuel h, 0 <= h <= m -> invalid_entry_loop fuel a m e h = Spin.
Proof.
  intros Hm Hlen He. induction fuel as [|fuel IH]; intros h Hh; simpl;
    [reflexivity|].
  destruct (load_in_range a h) as [x Hx]; [lia|]. rewrite Hx.
  apply load_Some in Hx as (_ & Hx & _).
  destruct (Z.eqb_spec x e) as [->|_].
  - exfalso. apply He. apply list_elem_of_lookup. eauto.
  - apply IH. apply next_slot_range. lia.
Qed.

Lemma invalid_entry_spin fuel fds e :
  well_formed fds -> e ∉ descriptors fds -> invalid_entry fuel fds e = Spin.
Proof.
  intros Hwf He. pose proof (table_shape_mask _ _ Hwf) as Hm.
  destruct Hwf as (k & Hk & Hmk & Hlen). unfold invalid_entry.
  rewrite invalid_entry_loop_spin;
    [reflexivity|assumption|lia|assumption|].
  apply Hash_retaddr_range. assumption.
Qed.

(** X9.  [invalid_entry] has no exit for a descriptor that is in no
    slot: on a table whose capacity is a power of two it probes round and
    round, whatever fuel it is given. *)
Theorem invalid_entry_missing_spins
    (fuel : nat) (fds : caml_frame_descrs) (e : Z) :
  well_formed fds -> e ∉ descriptors fds -> invalid_entry fuel fds e = Spin.
Proof. apply invalid_entry_spin. Qed.

Lemma unlink_frametables_none current tables ntables :
  ntables <= 0 ->
  unlink_frametables current tables ntables = Ret (current, tables).
Proof.
  intros Hn. induction current as [|cur next IH]; [reflexivity|].
  cbn [unlink_frametables]. replace (Z.to_nat ntables) with O by lia.
  simpl. rewrite IH. reflexivity.
Qed.

(** X12.  Deregistration of no frame tables changes nothing: with
    [ntables <= 0] the call returns the table and the array of the
    caller as they were. *)
Theorem unregister_nothing
    (fuel : nat) (fds : caml_frame_descrs) (tables : list Z) (ntables : Z) :
  ntables <= 0 -> - 2 ^ 31 <= num_descr fds < 2 ^ 31 ->
  caml_unregister_frametables fuel fds tables ntables = Ret (fds, tables).
Proof.
  intros Hn Hnum.
  unfold caml_unregister_frametables, remove_frame_descriptors.
  replace (Z.to_nat ntables) with O by lia. simpl.
  rewrite unlink_frametables_none by assumption. simpl.
  rewrite Z.sub_0_r, to_int_small by assumption.
  destruct fds; reflexivity.
Qed.

(** X8.  Registration of no frame tables does not return: the list is
    empty, [frametables_list_tail] gives the null pointer, and both
    branches of [add_frame_descriptors] store through it. *)
Theorem register_nothing_faults
    (fuel : nat) (table : caml_frame_descrs) (tables : list Z) (ntables : Z) :
  ntables <= 0 ->
  caml_register_frametables fuel table tables ntables = Fault.
Proof.
  intros Hn. unfold caml_register_frametables.
  replace (Z.to_nat ntables) with O by lia. simpl.
  unfold add_frame_descriptors, realloc_frame_descriptors_from_stw_single.
  simpl. destruct (capacity table <? _); reflexivity.
Qed.

Lemma cons_frametables_total n :
  forall i tables acc,
  caml_stat_alloc node_size = true ->
  0 <= i -> i + Z.of_nat n <= Z.of_nat (length tables) ->
  cons_frametables n i tables acc
  = Ret (rev (take n (drop (Z.to_nat i) tables)) ++ acc).
Proof.
  induction n as [|n IH]; intros i tables acc Halloc Hi Hn; simpl;
    [reflexivity|].
  destruct (array_get_in_range tables i) as [t Ht]; [lia|].
  rewrite Ht. apply array_get_Some in Ht as (_ & Ht & _).
  unfold cons at 1. rewrite Halloc. simpl.
  rewrite IH by (assumption || lia).
  rewrite (drop_S _ _ _ Ht). simpl.
  replace (Z.to_nat (i + 1)) with (S (Z.to_nat i)) by lia.
  rewrite <- app_assoc. reflexivity.
Qed.

(** X7.  [caml_register_frametables] hands the first [ntables] handles
    of the array to [add_frame_descriptors] in reverse order, if the
    list nodes can be allocated; if they cannot, it raises.
    [caml_register_frametable] registers the list of its one handle. *)
Theorem register_frametables_reverses
    (fuel : nat) (table : caml_frame_descrs) (tables : list Z) (ntables : Z) :
  0 < ntables <= Z.of_nat (length tables) ->
  (caml_stat_alloc node_size = true ->
   caml_register_frametables fuel table tables ntables
   = add_frame_descriptors fuel table (rev (handles tables ntables)) /\
   forall t, caml_register_frametable fuel table t
             = add_frame_descriptors fuel table [t]) /\
  (caml_stat_alloc node_size = false ->
   caml_register_frametables fuel table tables ntables = Out_of_memory).
Proof.
  intros Hn. split.
  - intros Halloc. split.
    + unfold caml_register_frametables.
      rewrite cons_frametables_total by (assumption || lia).
      simpl. rewrite drop_0, app_nil_r. reflexivity.
    + intros t. unfold caml_register_frametable, caml_register_frametables.
      rewrite cons_frametables_total by (assumption || simpl; lia).
      reflexivity.
  - intros Halloc. unfold caml_register_frametables.
    destruct (Z.to_nat ntables) as [|n] eqn:Hnt; [lia|]. simpl.
    destruct (array_get_in_range tables 0) as [t ->]; [lia|].
    unfold cons. rewrite Halloc. reflexivity.
Qed.

(** *** Allocation failure *)

Lemma realloc_frame_descriptors_raises fuel table l c :
  counts_ok l -> enough_fuel fuel (total_descrs l) ->
  smallest_capacity (2 * total_descrs l) c ->
  caml_stat_alloc_noexc (c * word_size) = false ->
  realloc_frame_descriptors fuel table l = Out_of_memory.
Proof.
  intros Hcounts [Hf4 Hfuel] Hc Halloc.
  pose proof Hcounts as [Hnn Hlim].
  pose proof (total_descrs_nonneg _ Hnn) as Htot0.
  unfold realloc_frame_descriptors.
  rewrite (count_descriptors_total _ Hcounts).
  destruct (grow_tblsize_spec (total_descrs l) (conj Htot0 Hlim) fuel 2)
    as (k & Hk & Hgrow & Hge & Hinv); [lia|left; reflexivity|simpl; lia|].
  change (2 ^ 2) with 4 in Hgrow. rewrite Hgrow. simpl.
  assert (Hcap : smallest_capacity (2 * total_descrs l) (2 ^ k))
    by (apply smallest_capacity_intro; [lia|assumption|assumption]).
  rewrite (smallest_capacity_unique _ _ _ Hcap Hc), Halloc. reflexivity.
Qed.

(** X5.  When the slot array of the size a rebuild needs cannot be
    allocated, the rebuild raises [Out_of_memory], and so does the
    registration that asked for it; nothing absorbs the failure. *)
Theorem rebuild_out_of_memory
    (fuel : nat) (table : caml_frame_descrs) (new_frametables : list Z)
    (c : Z) :
  let merged := new_frametables ++ frametables table in
  new_frametables <> [] ->
  insufficient table (count_descriptors new_frametables) = true ->
  counts_ok merged -> enough_fuel fuel (total_descrs merged) ->
  smallest_capacity (2 * total_descrs merged) c ->
  caml_stat_alloc_noexc (c * word_size) = false ->
  realloc_frame_descriptors fuel table merged = Out_of_memory /\
  add_frame_descriptors fuel table new_frametables = Out_of_memory.
Proof.
  intros merged Hnew Hins Hcounts Hfuel Hc Halloc.
  pose proof (realloc_frame_descriptors_raises fuel table merged c
                Hcounts Hfuel Hc Halloc) as Hre.
  split; [exact Hre|].
  destruct (frametables_list_tail_Some _ Hnew) as [t Ht].
  unfold add_frame_descriptors, realloc_frame_descriptors_from_stw_single.
  unfold insufficient in Hins. simpl. rewrite Hins, Ht. exact Hre.
Qed.

(** *** A table that has just been built *)

Lemma realloc_frame_descriptors_no_dummy fuel table l table' :
  realloc_frame_descriptors fuel table l = Ret table' ->
  dummy_descr ∉ list_descrs l -> dummy_descr ∉ descriptors table'.
Proof.
  unfold realloc_frame_descriptors. intros Hre Hl.
  destruct (grow_tblsize fuel 4 (count_descriptors l)) as [sz| | |];
    try discriminate.
  simpl in Hre.
  destruct (caml_stat_alloc_noexc (sz * word_size)); [|discriminate].
  unfold fill_hashtable in Hre. simpl in Hre.
  rewrite fill_list_insert_all in Hre.
  destruct (insert_all fuel _ _ _) as [a'| | |] eqn:Hall; try discriminate.
  simpl in Hre. injection Hre as <-. simpl.
  apply (insert_all_no_dummy _ _ _ _ _ Hall); [|assumption].
  intros Hin. apply elem_of_replicate in Hin as [Hin _].
  exact (dummy_descr_not_null Hin).
Qed.

Lemma half_empty_has_null a :
  dummy_descr ∉ a -> (live_count a < length a)%nat -> NULL ∈ a.
Proof.
  intros Hd Hlive. apply live_count_free in Hlive as (e & Hin & Hfree).
  apply is_free_true in Hfree as [->| ->]; [assumption|contradiction].
Qed.

Lemma realloc_frame_descriptors_fresh fuel table l :
  counts_ok l -> dummy_descr ∉ list_descrs l ->
  enough_fuel fuel (total_descrs l) ->
  (forall c, smallest_capacity (2 * total_descrs l) c ->
             caml_stat_alloc_noexc (c * word_size) = true) ->
  exists table',
    realloc_frame_descriptors fuel table l = Ret table' /\
    frametables table' = l /\
    well_formed table' /\
    (length (descriptors table') <= fuel)%nat /\
    (dummy_descr ∉ descriptors table') /\
    (2 * live_count (descriptors table') <= length (descriptors table'))%nat /\
    NULL ∈ descriptors table'.
Proof.
  intros Hcounts Hnd Hfuel Halloc.
  destruct (realloc_frame_descriptors_ok fuel table l Hcounts Hfuel Halloc)
    as (table' & Hre & _ & Hft & Hcap & Hwf & Hlen & Hlive & _).
  pose proof (realloc_frame_descriptors_no_dummy _ _ _ _ Hre Hnd) as Hno.
  exists table'. split; [assumption|]. split; [assumption|].
  split; [assumption|]. split; [assumption|]. split; [assumption|].
  assert (Hhalf : (2 * live_count (descriptors table')
                   <= length (descriptors table'))%nat).
  { destruct Hcounts as [Hnn Hlim].
    pose proof (length_list_descrs _ Hnn) as Hl.
    destruct Hcap as (_ & _ & Hge & _).
    destruct Hwf as (k & Hk & Hm & Hlenk).
    assert (H30 : 2 ^ k <= 2 ^ 30) by (apply Z.pow_le_mono_r; lia).
    assert (Hpos : 0 < 2 ^ k) by (apply Z.pow_pos_nonneg; lia).
    unfold capacity in Hge. rewrite Hm, to_int_small in Hge by lia. lia. }
  split; [assumption|].
  apply half_empty_has_null; [assumption|].
  destruct Hwf as (k & Hk & Hm & Hlenk).
  assert (Hpos : 0 < 2 ^ k) by (apply Z.pow_pos_nonneg; lia). lia.
Qed.

Lemma find_frame_descr_returns fuel fds pc :
  well_formed fds -> NULL ∈ descriptors fds ->
  (length (descriptors fds) <= fuel)%nat ->
  exists d, caml_find_frame_descr fuel fds pc = Ret d.
Proof.
  intros Hwf Hnull Hfuel. apply find_loop_total; try assumption.
  apply Hash_retaddr_range. eapply table_shape_mask. exact Hwf.
Qed.

(** X3.  A rebuild leaves no tombstone behind, whatever the table held
    before: the new array holds no address of [dummy_descr], at most half
    of its slots are taken, one slot at least is [NULL], and every
    lookup, of whatever key, returns. *)
Theorem rebuild_clears_tombstones
    (fuel : nat) (table : caml_frame_descrs) (l : list Z) :
  counts_ok l -> dummy_descr ∉ list_descrs l ->
  enough_fuel fuel (total_descrs l) ->
  (forall c, smallest_capacity (2 * total_descrs l) c ->
             caml_stat_alloc_noexc (c * word_size) = true) ->
  exists table',
    realloc_frame_descriptors fuel table l = Ret table' /\
    (dummy_descr ∉ descriptors table') /\
    (2 * live_count (descriptors table') <= length (descriptors table'))%nat /\
    NULL ∈ descriptors table' /\
    forall pc, exists d, caml_find_frame_descr fuel table' pc = Ret d.
Proof.
  intros Hcounts Hnd Hfuel Halloc.
  destruct (realloc_frame_descriptors_fresh fuel table l
              Hcounts Hnd Hfuel Halloc)
    as (table' & Hre & _ & Hwf & Hlen & Hno & Hhalf & Hnull).
  exists table'. repeat (split; [assumption|]).
  intros pc. apply find_frame_descr_returns; assumption.
Qed.

(** *** Start-up *)

Lemma init_frametables_total tables acc :
  caml_stat_alloc node_size = true ->
  init_frametables tables acc = Ret (rev tables ++ acc).
Proof.
  intros Halloc. revert acc.
  induction tables as [|t tables IH]; intros acc; simpl; [reflexivity|].
  unfold cons at 1. rewrite Halloc. simpl. rewrite IH, <- app_assoc.
  reflexivity.
Qed.

Lemma descrs_ok_no_dummy ds : descrs_ok ds -> dummy_descr ∉ ds.
Proof.
  intros [_ Hok] Hin. rewrite Forall_forall in Hok.
  destruct (Hok _ Hin) as [_ Hne]. apply Hne. reflexivity.
Qed.

Lemma caml_init_frame_descriptors_ok fuel :
  counts_ok caml_frametable ->
  descrs_ok (list_descrs (rev caml_frametable)) ->
  enough_fuel fuel (total_descrs caml_frametable) ->
  caml_stat_alloc node_size = true ->
  (forall c, smallest_capacity (2 * total_descrs caml_frametable) c ->
             caml_stat_alloc_noexc (c * word_size) = true) ->
  exists fds,
    caml_init_frame_descriptors fuel = Ret fds /\
    frametables fds = rev caml_frametable /\
    table_ok fuel fds /\
    (dummy_descr ∉ descriptors fds) /\ NULL ∈ descriptors fds.
Proof.
  intros Hcounts Hdescrs Hfuel Hcons Halloc.
  assert (Hp : rev caml_frametable ≡ₚ caml_frametable)
    by (symmetry; apply Permutation_rev).
  assert (Hcr : counts_ok (rev caml_frametable))
    by (eapply counts_ok_perm; [symmetry; exact Hp|assumption]).
  rewrite <- (total_descrs_perm _ _ Hp) in Hfuel, Halloc.
  destruct (realloc_frame_descriptors_ok fuel initial_frame_descrs
              (rev caml_frametable) Hcr Hfuel Halloc)
    as (fds & Hre & _ & Hft & _ & Hwf & Hlen & _ & Hst).
  destruct (Hst Hdescrs) as [[_ Hfind] Hlive].
  destruct (realloc_frame_descriptors_fresh fuel initial_frame_descrs
              (rev caml_frametable) Hcr (descrs_ok_no_dummy _ Hdescrs)
              Hfuel Halloc)
    as (fds0 & Hre0 & _ & _ & _ & Hno & _ & Hnull).
  rewrite Hre in Hre0. injection Hre0 as <-.
  assert (Hinit : caml_init_frame_descriptors fuel = Ret fds).
  { unfold caml_init_frame_descriptors.
    rewrite (init_frametables_total _ _ Hcons), app_nil_r. exact Hre. }
  exists fds. split; [assumption|]. split; [assumption|].
  split; [|split; assumption].
  split; [eapply caml_init_frame_descriptors_inv; eauto|].
  split; [assumption|]. split; [assumption|].
  rewrite Hft. split; [assumption|]. exact Hfind.
Qed.

(** X4.  [caml_init_frame_descriptors] returns a table whose batch list
    is [caml_frametable] in reverse order; the lookup of the return
    address of each descriptor of these frame tables returns that
    descriptor, and every other lookup returns too. *)
Theorem init_registers_frametables (fuel : nat) :
  counts_ok caml_frametable ->
  descrs_ok (list_descrs (rev caml_frametable)) ->
  enough_fuel fuel (total_descrs caml_frametable) ->
  caml_stat_alloc node_size = true ->
  (forall c, smallest_capacity (2 * total_descrs caml_frametable) c ->
             caml_stat_alloc_noexc (c * word_size) = true) ->
  exists fds,
    caml_init_frame_descriptors fuel = Ret fds /\
    frametables fds = rev caml_frametable /\
    num_descr fds = total_descrs caml_frametable /\
    (forall d, d ∈ list_descrs caml_frametable ->
       caml_find_frame_descr fuel fds (retaddr d) = Ret d) /\
    (forall pc, exists d, caml_find_frame_descr fuel fds pc = Ret d).
Proof.
  intros Hcounts Hdescrs Hfuel Hcons Halloc.
  destruct (caml_init_frame_descriptors_ok fuel
              Hcounts Hdescrs Hfuel Hcons Halloc)
    as (fds & Hinit & Hft & Hok & _ & Hnull).
  destruct Hok as (Hinv & Hwf & Hlen & _ & Hfind).
  exists fds. split; [assumption|]. split; [assumption|]. split; [|split].
  - destruct Hinv as (_ & _ & _ & Hnum). rewrite Hnum, Hft.
    apply total_descrs_perm. symmetry. apply Permutation_rev.
  - intros d Hd. apply Hfind. rewrite Hft.
    rewrite (list_descrs_perm _ caml_frametable); [assumption|].
    symmetry. apply Permutation_rev.
  - intros pc. apply find_frame_descr_returns; assumption.
Qed.

(** *** The fast path of registration *)

Lemma insert_all_slots fuel m ds :
  forall a a', insert_all fuel a m ds = Ret a' ->
  forall i e, a !! i = Some e ->
    a' !! i = Some e \/
    (is_free e = true /\ exists d, d ∈ ds /\ a' !! i = Some d).
Proof.
  induction ds as [|x ds IH]; intros a a'; simpl.
  - intros [= <-] i e Hi. auto.
  - destruct (probe_free fuel a m _) as [q| | |] eqn:Hq; try discriminate.
    simpl. intros Hins i e Hi.
    destruct (probe_free_ret _ _ _ _ _ Hq) as (eq & Heq & Hfree).
    apply load_Some in Heq as (_ & Heq & _).
    destruct (Nat.eq_dec (Z.to_nat q) i) as [<-|Hne].
    + assert (e = eq) by congruence. subst eq.
      assert (Hx : atomic_store_relaxed a q x !! Z.to_nat q = Some x).
      { unfold atomic_store_relaxed, array_set.
        apply list_lookup_insert_eq. eapply lookup_lt_Some; eauto. }
      right. split; [assumption|].
      destruct (IH _ _ Hins _ _ Hx) as [H|(_ & d & Hd & H)].
      * exists x. split; [left|assumption].
      * exists d. split; [right; assumption|assumption].
    + assert (Hx : atomic_store_relaxed a q x !! i = Some e).
      { unfold atomic_store_relaxed, array_set.
        rewrite list_lookup_insert_ne by assumption. assumption. }
      destruct (IH _ _ Hins _ _ Hx) as [H|(Hf & d & Hd & H)]; [auto|].
      right. split; [assumption|]. exists d. split; [right|]; assumption.
Qed.

Lemma add_fast_path_ok fuel fds new_frametables :
  let merged := new_frametables ++ frametables fds in
  table_ok fuel fds -> new_frametables <> [] ->
  insufficient fds (count_descriptors new_frametables) = false ->
  counts_ok merged -> descrs_ok (list_descrs merged) ->
  exists a',
    insert_all fuel (descriptors fds) (mask fds)
      (list_descrs new_frametables) = Ret a' /\
    add_frame_descriptors fuel fds new_frametables
    = Ret (mk_frame_descrs (num_descr fds + total_descrs new_frametables)
             (mask fds) a' merged) /\
    length a' = length (descriptors fds) /\
    table_ok fuel
      (mk_frame_descrs (num_descr fds + total_descrs new_frametables)
         (mask fds) a' merged).
Proof.
  intros merged Hok Hnew Hins Hcounts Hdescrs.
  destruct (frametables_list_tail_Some _ Hnew) as [t Ht].
  pose proof Hok as (Hinv & Hwf & Hlen & Hlive & Hfind).
  pose proof (registry_inv_capacity _ Hinv) as (Hcap & Hrange & Hnum).
  pose proof Hinv as (_ & _ & Hcold & Htot).
  pose proof (counts_ok_app_l _ _ Hcounts) as Hcnew.
  pose proof Hcnew as [Hnn Hlim]. pose proof Hcold as [Hnn' _].
  pose proof (total_descrs_nonneg _ Hnn) as Hnew0.
  pose proof (descrs_ok_app _ _
                (eq_ind _ descrs_ok Hdescrs _ (list_descrs_app _ _)))
    as (Hdnew & Hdold & Hcross).
  assert (Hroom : (num_descr fds + total_descrs new_frametables) * 2
                  <= capacity fds).
  { unfold insufficient in Hins.
    rewrite (count_descriptors_total _ Hcnew) in Hins.
    unfold descr_limit in *.
    rewrite (to_intnat_small (num_descr fds + _)) in Hins by lia.
    rewrite to_intnat_small in Hins by lia.
    apply Z.ltb_ge in Hins. exact Hins. }
  destruct Hwf as (k & Hk & Hm & Hlenk).
  destruct (insert_all_ok fuel (mask fds) (list_descrs new_frametables)
              (descriptors fds))
    as (a' & Hinsert & Hshape' & Hlen' & _ & Hperm & Hst).
  { exists k. auto. }
  { assumption. }
  { rewrite live_count_live, Hlive.
    pose proof (length_list_descrs _ Hnn).
    pose proof (length_list_descrs _ Hnn'). lia. }
  exists a'. split; [assumption|].
  assert (Hadd : add_frame_descriptors fuel fds new_frametables
                 = Ret (mk_frame_descrs
                          (num_descr fds + total_descrs new_frametables)
                          (mask fds) a' merged)).
  { unfold add_frame_descriptors. unfold insufficient in Hins.
    rewrite Hins. unfold fill_hashtable. simpl.
    rewrite fill_list_insert_all, Hinsert. simpl. rewrite Ht.
    rewrite (count_descriptors_total _ Hcnew).
    unfold descr_limit in *. rewrite to_int_small by lia. reflexivity. }
  split; [assumption|]. split; [assumption|].
  split; [eapply add_frame_descriptors_inv; eauto|].
  split; [exact Hshape'|]. simpl. split; [lia|].
  unfold merged. rewrite list_descrs_app. split.
  - rewrite (Hperm (proj2 Hdnew)), Hlive. reflexivity.
  - apply (Hst (list_descrs (frametables fds)));
      [apply table_ok_stored; assumption|assumption|apply Hdold|].
    intros x d Hx Hd. apply Hcross; assumption.
Qed.

(** X6.  On its fast path [add_frame_descriptors] works in place: the
    mask and the array length stay, the count grows by the number of new
    descriptors, the new frame tables come in front of the batch list, a
    slot that held a descriptor keeps it, no slot becomes [NULL], and
    afterwards the lookup of the return address of every new and every
    registered descriptor returns it. *)
Theorem register_fast_path_in_place
    (fuel : nat) (fds : caml_frame_descrs) (new_frametables : list Z) :
  let merged := new_frametables ++ frametables fds in
  table_ok fuel fds -> new_frametables <> [] ->
  insufficient fds (count_descriptors new_frametables) = false ->
  counts_ok merged -> descrs_ok (list_descrs merged) ->
  exists fds',
    add_frame_descriptors fuel fds new_frametables = Ret fds' /\
    mask fds' = mask fds /\
    length (descriptors fds') = length (descriptors fds) /\
    num_descr fds' = num_descr fds + total_descrs new_frametables /\
    frametables fds' = merged /\
    (forall i e, descriptors fds !! i = Some e -> is_free e = false ->
       descriptors fds' !! i = Some e) /\
    (forall i, descriptors fds' !! i = Some NULL ->
       descriptors fds !! i = Some NULL) /\
    (forall d, d ∈ list_descrs merged ->
       caml_find_frame_descr fuel fds' (retaddr d) = Ret d).
Proof.
  intros merged Hok Hnew Hins Hcounts Hdescrs.
  destruct (add_fast_path_ok fuel fds new_frametables
              Hok Hnew Hins Hcounts Hdescrs)
    as (a' & Hinsert & Hadd & Hlen & Hok').
  eexists. split; [exact Hadd|]. simpl.
  split; [reflexivity|]. split; [assumption|]. split; [reflexivity|].
  split; [reflexivity|].
  pose proof (insert_all_slots _ _ _ _ _ Hinsert) as Hslots.
  split; [|split].
  - intros i e Hi He. destruct (Hslots i e Hi) as [H|(Hf & _)];
      [assumption|congruence].
  - intros i Hi.
    destruct (descriptors fds !! i) as [e|] eqn:He.
    + destruct (Hslots i e He) as [H|(_ & d & Hd & H)]; [congruence|].
      exfalso. rewrite H in Hi. injection Hi as ->.
      destruct Hdescrs as [_ Hne]. rewrite Forall_forall in Hne.
      destruct (Hne NULL) as [H0 _]; [|contradiction].
      unfold merged. rewrite list_descrs_app. apply elem_of_app. auto.
    + apply lookup_ge_None in He. apply lookup_lt_Some in Hi. lia.
  - destruct Hok' as (_ & _ & _ & _ & Hfind). exact Hfind.
Qed.

(** *** Deregistration *)

Lemma removed_key_absent fds fds' removed :
  descrs_ok (list_descrs (frametables fds)) ->
  frametables fds ≡ₚ removed ++ frametables fds' ->
  forall d d', d ∈ list_descrs removed ->
    d' ∈ list_descrs (frametables fds') -> retaddr d' <> retaddr d.
Proof.
  intros Hd Hp d d' Hin Hin'.
  pose proof (list_descrs_perm _ _ Hp) as Hpd.
  rewrite list_descrs_app in Hpd.
  assert (Hd' : descrs_ok (list_descrs removed
                           ++ list_descrs (frametables fds'))).
  { destruct Hd as [Hnd Hok]. split; rewrite <- Hpd; assumption. }
  apply descrs_ok_app in Hd' as (_ & _ & Hcross). apply Hcross; assumption.
Qed.

(** X10.  Deregistration of registered frame tables returns.  The batch
    list loses exactly these frame tables and the count their
    descriptors; the descriptors that are left are still found; a
    removed descriptor is in no slot, and the lookup of its return
    address returns [NULL] if it returns. *)
Theorem deregister_removes_exactly
    (fuel : nat) (fds : caml_frame_descrs) (tables : list Z) (ntables : Z) :
  table_ok fuel fds ->
  ntables <= Z.of_nat (length tables) ->
  handles tables ntables ⊆+ frametables fds ->
  descrs_ok (list_descrs (frametables fds)) ->
  Forall (fun d => retaddr d <> dummy_descr) (list_descrs (frametables fds)) ->
  exists fds' tables',
    remove_frame_descriptors fuel fds tables ntables = Ret (fds', tables') /\
    frametables fds ≡ₚ handles tables ntables ++ frametables fds' /\
    num_descr fds' = num_descr fds - total_descrs (handles tables ntables) /\
    mask fds' = mask fds /\
    (forall d, d ∈ list_descrs (frametables fds') ->
       caml_find_frame_descr fuel fds' (retaddr d) = Ret d) /\
    (forall d, d ∈ list_descrs (handles tables ntables) ->
       (d ∉ descriptors fds') /\
       forall fuel' x,
         caml_find_frame_descr fuel' fds' (retaddr d) = Ret x -> x = NULL).
Proof.
  intros Hok Hn Hsub Hdescrs Hkeys.
  destruct (remove_frame_descriptors_ok fuel fds tables ntables
              Hok Hn Hsub Hdescrs Hkeys)
    as (fds' & tables' & Hrem & Hp & Hok' & Hgone).
  exists fds', tables'. split; [assumption|]. split; [assumption|].
  pose proof Hok as (Hinv & _). pose proof Hok' as (Hinv' & _ & _ & _ & Hfind').
  split; [|split; [|split; [exact Hfind'|]]].
  - destruct Hinv as (_ & _ & _ & Hnum). destruct Hinv' as (_ & _ & _ & Hnum').
    rewrite Hnum, Hnum', (total_descrs_perm _ _ Hp), total_descrs_app. lia.
  - apply remove_frame_descriptors_tombstoned in Hrem. apply Hrem.
  - intros d Hd. split; [apply Hgone; assumption|].
    intros fuel' x. apply (find_absent fuel); [assumption| |].
    + rewrite Forall_forall in Hkeys. apply Hkeys.
      rewrite (list_descrs_perm _ _ Hp), list_descrs_app.
      apply elem_of_app. auto.
    + intros d' Hd'. eapply removed_key_absent; eauto.
Qed.

(** X11.  A frame table can be removed once.  After the deregistration
    of a registered frame table with at least one descriptor, a second
    deregistration of the same frame table does not return: its first
    descriptor is in no slot any more. *)
Theorem unregister_twice_spins
    (fuel : nat) (fds : caml_frame_descrs) (t : Z) :
  table_ok fuel fds -> t ∈ frametables fds -> 0 < frametable_len t ->
  descrs_ok (list_descrs (frametables fds)) ->
  Forall (fun d => retaddr d <> dummy_descr) (list_descrs (frametables fds)) ->
  exists fds' tables',
    caml_unregister_frametable fuel fds t = Ret (fds', tables') /\
    forall fuel', caml_unregister_frametable fuel' fds' t = Spin.
Proof.
  intros Hok Hin Hlen Hdescrs Hkeys.
  destruct (remove_frame_descriptors_ok fuel fds [t] 1)
    as (fds' & tables' & Hrem & Hp & Hok' & Hgone);
    try assumption.
  { simpl. lia. }
  { apply singleton_submseteq_l. assumption. }
  exists fds', tables'. split; [exact Hrem|].
  intros fuel'.
  unfold caml_unregister_frametable, caml_unregister_frametables,
    remove_frame_descriptors.
  change (Z.to_nat 1) with 1%nat. simpl.
  destruct (Z.to_nat (frametable_len t)) as [|j] eqn:Hj; [lia|]. simpl.
  rewrite invalid_entry_spin; [reflexivity|apply Hok'|].
  apply Hgone. change (handles [t] 1) with [t].
  unfold list_descrs, frametable_descrs. simpl. rewrite Hj. simpl. left.
Qed.

(** X17.  A lookup has no false positives: on a table that holds its
    batch list, a descriptor that a lookup returns for a key other than
    the address of [dummy_descr] is a registered one, and the key is its
    return address. *)
Theorem lookup_returns_registered
    (fuel fuel' : nat) (fds : caml_frame_descrs) (pc x : Z) :
  table_ok fuel fds -> pc <> dummy_descr ->
  caml_find_frame_descr fuel' fds pc = Ret x -> x <> NULL ->
  x ∈ list_descrs (frametables fds) /\ retaddr x = pc.
Proof.
  intros (_ & _ & _ & Hlive & _) Hpc Hfind Hx.
  unfold caml_find_frame_descr in Hfind.
  pose proof (find_loop_in _ _ _ _ _ _ Hfind) as Hin.
  apply find_loop_post in Hfind as [H0|Hr]; [contradiction|].
  split; [|assumption].
  rewrite <- Hlive. apply elem_of_live. split; [assumption|].
  apply is_free_false; [assumption|].
  intros ->. rewrite retaddr_dummy in Hr. congruence.
Qed.

(** *** The unlink loop *)

Lemma elem_of_array_set (a : list Z) i t x :
  x ∈ array_set a i t -> x = t \/ x ∈ a.
Proof.
  unfold array_set. intros Hx.
  apply list_elem_of_lookup in Hx as [j Hj].
  destruct (decide (Z.to_nat i = j)) as [<-|Hne].
  - destruct (decide (Z.to_nat i < length a)%nat).
    + rewrite list_lookup_insert_eq in Hj by assumption. left. congruence.
    + rewrite list_insert_ge in Hj by lia. right.
      eapply list_elem_of_lookup; eauto.
  - rewrite list_lookup_insert_ne in Hj by assumption. right.
    eapply list_elem_of_lookup; eauto.
Qed.

Lemma unlink_frametables_ret current :
  forall tables ntables l tables',
  unlink_frametables current tables ntables = Ret (l, tables') ->
  sublist l current /\
  length tables' = length tables /\
  (forall j, (Z.to_nat ntables <= j)%nat -> tables' !! j = tables !! j) /\
  (forall x, x ∈ tables' -> x ∈ tables).
Proof.
  induction current as [|cur next IH]; intros tables ntables l tables'.
  - simpl. intros [= <- <-]. split; [constructor|auto].
  - cbn [unlink_frametables].
    destruct (scan_frametables _ _ _ _) as [r| | |] eqn:Hr; try discriminate.
    simpl. apply scan_frametables_ret in Hr. destruct r as [i|].
    + destruct Hr as [Hi Hcur].
      destruct (Z.eqb_spec (ntables - 1) 0) as [H1|H1].
      * intros [= <- <-]. split; [apply sublist_cons; reflexivity|auto].
      * destruct (array_get tables (ntables - 1)) as [t|] eqn:Ht;
          [|discriminate].
        apply array_get_Some in Ht as (_ & Ht & _).
        destruct next as [|n0 next]; [discriminate|].
        intros Hun. apply IH in Hun as (Hsub & Hlen & Hkeep & Hin).
        split; [apply sublist_cons; assumption|].
        split; [rewrite Hlen; apply length_insert|].
        split.
        { intros j Hj. rewrite Hkeep by lia.
          unfold array_set. apply list_lookup_insert_ne. lia. }
        { intros x Hx. apply Hin in Hx.
          apply elem_of_array_set in Hx as [->|Hx]; [|assumption].
          eapply list_elem_of_lookup; eauto. }
    + destruct (unlink_frametables next tables ntables)
        as [[l0 t0]| | |] eqn:Hun; try discriminate.
      simpl. intros [= <- <-].
      apply IH in Hun as (Hsub & Hlen & Hkeep & Hin).
      split; [apply sublist_skip; assumption|auto].
Qed.

(** X13.  The unlink loop of [remove_frame_descriptors], given handles
    that are all in the batch list, returns: the nodes that are left are
    those of the list without the handles, in the order they had; the
    array of handles keeps its length, its entries from [ntables] on,
    and holds no value it did not hold before. *)
Theorem unlink_keeps_order
    (current tables : list Z) (ntables : Z) :
  ntables <= Z.of_nat (length tables) ->
  handles tables ntables ⊆+ current ->
  exists l tables',
    unlink_frametables current tables ntables = Ret (l, tables') /\
    sublist l current /\
    current ≡ₚ handles tables ntables ++ l /\
    length tables' = length tables /\
    (forall j, (Z.to_nat ntables <= j)%nat -> tables' !! j = tables !! j) /\
    (forall x, x ∈ tables' -> x ∈ tables).
Proof.
  intros Hn Hsub.
  destruct (unlink_frametables_ok current tables ntables Hn Hsub)
    as (l & tables' & Hun & Hp & _).
  exists l, tables'. split; [assumption|].
  apply unlink_frametables_ret in Hun as (Hs & Hlen & Hkeep & Hin).
  auto 6.
Qed.

(** *** Registration and deregistration together *)

Lemma remove_frame_descriptors_unlink fuel fds tables ntables fds' tables' :
  remove_frame_descriptors fuel fds tables ntables = Ret (fds', tables') ->
  unlink_frametables (frametables fds) tables ntables
  = Ret (frametables fds', tables').
Proof.
  unfold remove_frame_descriptors.
  destruct (invalidate_frametables fuel _ 0 fds tables 0)
    as [[fds1 dec]| | |] eqn:H1; try discriminate.
  simpl.
  destruct (unlink_frametables (frametables fds1) tables ntables)
    as [[l t]| | |] eqn:H2; try discriminate.
  simpl. intros [= <- <-]. simpl.
  apply invalidate_frametables_fields in H1 as ((_ & _ & Hf) & _).
  rewrite <- Hf. exact H2.
Qed.

(** When the handles are the first nodes of the list, in any order, the
    unlink loop leaves the rest of the list. *)
Lemma unlink_frametables_prefix old p :
  forall tables ntables,
  p <> [] -> ntables = Z.of_nat (length p) ->
  handles tables ntables ≡ₚ p ->
  exists tables',
    unlink_frametables (p ++ old) tables ntables = Ret (old, tables').
Proof.
  unfold handles.
  induction p as [|cur p IH]; intros tables ntables Hp Hn Hperm;
    [contradiction|].
  assert (Hlen : (Z.to_nat ntables <= length tables)%nat).
  { apply Permutation_length in Hperm. rewrite length_take in Hperm.
    simpl in Hperm, Hn. lia. }
  cbn [app unlink_frametables].
  destruct (scan_frametables_prefix (Z.to_nat ntables) tables cur Hlen)
    as [r Hr].
  rewrite Hr. simpl.
  apply scan_frametables_ret in Hr. destruct r as [i|].
  - destruct Hr as [Hi Hcur]. simpl in Hi, Hn.
    destruct (Z.eqb_spec (ntables - 1) 0) as [H1|H1].
    + destruct p; [|simpl in Hn; lia]. simpl. eauto.
    + destruct (array_get_in_range tables (ntables - 1)) as [t Ht]; [lia|].
      rewrite Ht. apply array_get_Some in Ht as (_ & Ht & _).
      assert (Hperm' : take (Z.to_nat ntables) tables ≡ₚ
                cur :: take (Z.to_nat (ntables - 1)) (array_set tables i t)).
      { replace (Z.to_nat ntables) with (S (Z.to_nat (ntables - 1))) by lia.
        apply take_swap_remove; [lia|assumption..]. }
      rewrite Hperm' in Hperm. apply Permutation_cons_inv in Hperm.
      assert (Hp' : p <> []) by (intros ->; simpl in Hn; lia).
      destruct (IH (array_set tables i t) (ntables - 1) Hp')
        as [tables' Hun]; [lia|assumption|].
      exists tables'. destruct p; [contradiction|]. exact Hun.
  - exfalso. simpl in Hr. rewrite drop_0 in Hr. apply Hr.
    rewrite Hperm. left.
Qed.

(** The probe of [fill_hashtable] sees of a slot only whether it is
    free. *)
Lemma probe_free_same_free fuel m :
  forall h a b,
  Forall2 (fun x y => x = y \/ (is_free x = true /\ is_free y = true)) a b ->
  probe_free fuel a m h = probe_free fuel b m h.
Proof.
  induction fuel as [|fuel IH]; intros h a b HR; simpl; [reflexivity|].
  unfold atomic_load_relaxed, array_get.
  destruct (0 <=? h); [|reflexivity].
  assert (Hl := HR). rewrite Forall2_lookup in Hl.
  specialize (Hl (Z.to_nat h)).
  destruct Hl as [x y Hxy|]; [|reflexivity].
  rewrite (IH _ a b HR).
  destruct Hxy as [->|[Hx Hy]]; [reflexivity|].
  unfold is_free in Hx, Hy. rewrite <- !negb_orb, Hx, Hy. reflexivity.
Qed.

Lemma insert_all_same_free fuel m ds :
  forall a b a',
  Forall2 (fun x y => x = y \/ (is_free x = true /\ is_free y = true)) a b ->
  insert_all fuel a m ds = Ret a' ->
  exists b', insert_all fuel b m ds = Ret b' /\
    forall i, a' !! i = b' !! i \/ (a' !! i = a !! i /\ b' !! i = b !! i).
Proof.
  induction ds as [|x ds IH]; intros a b a' HR; simpl.
  - intros [= <-]. exists b. split; [reflexivity|]. auto.
  - rewrite <- (probe_free_same_free fuel m _ a b HR).
    destruct (probe_free fuel a m _) as [q| | |] eqn:Hq; try discriminate.
    simpl. intros Hins.
    destruct (probe_free_ret _ _ _ _ _ Hq) as (eq & Heq & _).
    apply load_Some in Heq as (_ & Heq & _).
    apply lookup_lt_Some in Heq.
    pose proof (Forall2_length _ _ _ HR) as Hlen.
    destruct (IH (atomic_store_relaxed a q x) (atomic_store_relaxed b q x) a')
      as (b' & Hb & Hslots).
    { unfold atomic_store_relaxed, array_set. apply Forall2_insert; auto. }
    { assumption. }
    exists b'. split; [assumption|]. intros i.
    destruct (Hslots i) as [H|[Ha Hb']]; [auto|].
    unfold atomic_store_relaxed, array_set in Ha, Hb'.
    destruct (decide (Z.to_nat q = i)) as [<-|Hne].
    + left. rewrite Ha, Hb', !list_lookup_insert_eq by lia. reflexivity.
    + right. rewrite list_lookup_insert_ne in Ha, Hb' by assumption. auto.
Qed.

(** A slot of a table that holds its batch list holds no descriptor of
    frame tables that can still be registered. *)
Lemma slot_not_new fuel fds new_frametables i e :
  table_ok fuel fds ->
  descrs_ok (list_descrs (new_frametables ++ frametables fds)) ->
  descriptors fds !! i = Some e -> e ∈ list_descrs new_frametables -> False.
Proof.
  intros (_ & _ & _ & Hlive & _) Hdescrs Hi He.
  rewrite list_descrs_app in Hdescrs.
  apply descrs_ok_app in Hdescrs as ([_ Hne] & _ & Hcross).
  rewrite Forall_forall in Hne. destruct (Hne e He) as [H0 Hd].
  apply (Hcross e e); [assumption| |reflexivity].
  rewrite <- Hlive. apply elem_of_live. split.
  - eapply list_elem_of_lookup; eauto.
  - apply is_free_false; assumption.
Qed.

(** Registration on the fast path and then the removal of the same
    frame tables. *)
Lemma fast_round_trip fuel fds new_frametables tables ntables :
  let merged := new_frametables ++ frametables fds in
  table_ok fuel fds -> new_frametables <> [] ->
  insufficient fds (count_descriptors new_frametables) = false ->
  counts_ok merged -> descrs_ok (list_descrs merged) ->
  Forall (fun d => retaddr d <> dummy_descr) (list_descrs merged) ->
  ntables = Z.of_nat (length new_frametables) ->
  handles tables ntables ≡ₚ new_frametables ->
  exists a1 fds2 tables',
    insert_all fuel (descriptors fds) (mask fds)
      (list_descrs new_frametables) = Ret a1 /\
    add_frame_descriptors fuel fds new_frametables
    = Ret (mk_frame_descrs (num_descr fds + total_descrs new_frametables)
             (mask fds) a1 merged) /\
    remove_frame_descriptors fuel
      (mk_frame_descrs (num_descr fds + total_descrs new_frametables)
         (mask fds) a1 merged) tables ntables = Ret (fds2, tables') /\
    table_ok fuel fds2 /\
    num_descr fds2 = num_descr fds /\ mask fds2 = mask fds /\
    frametables fds2 = frametables fds /\
    length (descriptors fds2) = length (descriptors fds) /\
    (forall i e, a1 !! i = Some e -> e ∉ list_descrs new_frametables ->
       descriptors fds2 !! i = Some e) /\
    (forall i e, descriptors fds !! i = Some e ->
       descriptors fds2 !! i = Some e \/
       (is_free e = true /\ descriptors fds2 !! i = Some dummy_descr)).
Proof.
  intros merged Hok Hnew Hins Hcounts Hdescrs Hkeys Hn Hperm.
  destruct (add_fast_path_ok fuel fds new_frametables
              Hok Hnew Hins Hcounts Hdescrs)
    as (a1 & Hinsert & Hadd & Hlen1 & Hok1).
  set (fds1 := mk_frame_descrs
                  (num_descr fds + total_descrs new_frametables)
                  (mask fds) a1 merged) in *.
  assert (Hle : ntables <= Z.of_nat (length tables)).
  { apply Permutation_length in Hperm. unfold handles in Hperm.
    rewrite length_take in Hperm. lia. }
  destruct (remove_frame_descriptors_ok fuel fds1 tables ntables)
    as (fds2 & tables' & Hrem & Hp & Hok2 & Hgone);
    [assumption|assumption| |assumption|assumption|].
  { simpl. rewrite Hperm. apply submseteq_inserts_r. reflexivity. }
  exists a1, fds2, tables'.
  split; [assumption|]. split; [assumption|]. split; [assumption|].
  split; [assumption|].
  assert (Hft : frametables fds2 = frametables fds).
  { destruct (unlink_frametables_prefix (frametables fds) new_frametables
                tables ntables Hnew Hn Hperm) as [t' Hun].
    apply remove_frame_descriptors_unlink in Hrem. simpl in Hrem.
    unfold merged in Hrem. rewrite Hun in Hrem. congruence. }
  pose proof (remove_frame_descriptors_tombstoned _ _ _ _ _ _ Hrem)
    as (Hm & Hlen2 & Hslots & _).
  fold (handles tables ntables) in Hslots.
  assert (Hslots1 : forall i e, a1 !! i = Some e ->
            e ∉ list_descrs new_frametables ->
            descriptors fds2 !! i = Some e).
  { intros i e Hi He. destruct (Hslots i e Hi) as [H|[Hin _]]; [assumption|].
    exfalso. apply He. rewrite <- (list_descrs_perm _ _ Hperm). assumption. }
  split; [|split; [exact Hm|split; [exact Hft|split; [|split]]]].
  - pose proof Hok as ((_ & _ & _ & Hnum) & _).
    pose proof Hok2 as ((_ & _ & _ & Hnum2) & _).
    rewrite Hnum, Hnum2, Hft. reflexivity.
  - simpl in Hlen2. lia.
  - exact Hslots1.
  - intros i e Hi.
    destruct (insert_all_slots _ _ _ _ _ Hinsert i e Hi)
      as [H|(Hf & d & Hd & H)].
    + left. apply Hslots1; [assumption|].
      intros He. exact (slot_not_new _ _ _ _ _ Hok Hdescrs Hi He).
    + right. split; [assumption|].
      destruct (Hslots i d H) as [H'|[_ H']]; [|assumption].
      exfalso. apply (Hgone d).
      * rewrite (list_descrs_perm _ _ Hperm). assumption.
      * eapply list_elem_of_lookup; eauto.
Qed.

(** X14.  Registration on the fast path followed by the deregistration
    of the same frame tables, given in any order, returns and restores
    the count, the mask and the batch list.  The array is the one from
    before apart from free slots that now hold [&dummy_descr]; the
    descriptors that were registered are still found. *)
Theorem register_unregister_restores
    (fuel : nat) (fds : caml_frame_descrs) (new_frametables tables : list Z)
    (ntables : Z) :
  let merged := new_frametables ++ frametables fds in
  table_ok fuel fds -> new_frametables <> [] ->
  insufficient fds (count_descriptors new_frametables) = false ->
  counts_ok merged -> descrs_ok (list_descrs merged) ->
  Forall (fun d => retaddr d <> dummy_descr) (list_descrs merged) ->
  ntables = Z.of_nat (length new_frametables) ->
  handles tables ntables ≡ₚ new_frametables ->
  exists fds1 fds2 tables',
    add_frame_descriptors fuel fds new_frametables = Ret fds1 /\
    caml_unregister_frametables fuel fds1 tables ntables
    = Ret (fds2, tables') /\
    num_descr fds2 = num_descr fds /\ mask fds2 = mask fds /\
    frametables fds2 = frametables fds /\
    length (descriptors fds2) = length (descriptors fds) /\
    (forall i e, descriptors fds !! i = Some e ->
       descriptors fds2 !! i = Some e \/
       (is_free e = true /\ descriptors fds2 !! i = Some dummy_descr)) /\
    (forall d, d ∈ list_descrs (frametables fds) ->
       caml_find_frame_descr fuel fds2 (retaddr d) = Ret d).
Proof.
  intros merged Hok Hnew Hins Hcounts Hdescrs Hkeys Hn Hperm.
  destruct (fast_round_trip fuel fds new_frametables tables ntables
              Hok Hnew Hins Hcounts Hdescrs Hkeys Hn Hperm)
    as (a1 & fds2 & tables' & _ & Hadd & Hrem & Hok2 & Hnum & Hm & Hft
        & Hlen & _ & Hslots).
  eexists _, fds2, tables'. split; [exact Hadd|].
  split; [exact Hrem|]. repeat (split; [assumption|]).
  destruct Hok2 as (_ & _ & _ & _ & Hfind). rewrite <- Hft. exact Hfind.
Qed.

(** X15.  Insertion reuses the slots that a removal has freed: after
    registration on the fast path and the deregistration of the same
    frame tables, registering them again gives the table, slot for slot,
    that the first registration gave. *)
Theorem reregister_same_table
    (fuel : nat) (fds : caml_frame_descrs) (new_frametables tables : list Z)
    (ntables : Z) :
  let merged := new_frametables ++ frametables fds in
  table_ok fuel fds -> new_frametables <> [] ->
  insufficient fds (count_descriptors new_frametables) = false ->
  counts_ok merged -> descrs_ok (list_descrs merged) ->
  Forall (fun d => retaddr d <> dummy_descr) (list_descrs merged) ->
  ntables = Z.of_nat (length new_frametables) ->
  handles tables ntables ≡ₚ new_frametables ->
  exists fds1 fds2 tables',
    add_frame_descriptors fuel fds new_frametables = Ret fds1 /\
    caml_unregister_frametables fuel fds1 tables ntables
    = Ret (fds2, tables') /\
    add_frame_descriptors fuel fds2 new_frametables = Ret fds1.
Proof.
  intros merged Hok Hnew Hins Hcounts Hdescrs Hkeys Hn Hperm.
  destruct (fast_round_trip fuel fds new_frametables tables ntables
              Hok Hnew Hins Hcounts Hdescrs Hkeys Hn Hperm)
    as (a1 & fds2 & tables' & Hinsert & Hadd & Hrem & Hok2 & Hnum & Hm & Hft
        & Hlen & Hslots1 & Hslots).
  eexists _, fds2, tables'. split; [exact Hadd|]. split; [exact Hrem|].
  assert (Hins2 : insufficient fds2 (count_descriptors new_frametables)
                  = false).
  { unfold insufficient, capacity in *. rewrite Hnum, Hm. exact Hins. }
  destruct (add_fast_path_ok fuel fds2 new_frametables)
    as (a2 & Hinsert2 & Hadd2 & _); try assumption.
  { rewrite Hft. assumption. }
  { rewrite Hft. assumption. }
  rewrite Hadd2, Hnum, Hm, Hft. do 2 f_equal.
  destruct (insert_all_same_free fuel (mask fds)
              (list_descrs new_frametables)
              (descriptors fds) (descriptors fds2) a1)
    as (b' & Hb & Hsame); [|assumption|].
  { apply Forall2_same_length_lookup_2; [lia|].
    intros i x y Hx Hy. destruct (Hslots i x Hx) as [H|[Hf H]].
    - left. congruence.
    - right. split; [assumption|].
      assert (y = dummy_descr) by congruence. subst y.
      unfold is_free. rewrite Z.eqb_refl. apply orb_true_r. }
  rewrite Hm in Hinsert2. assert (b' = a2) by congruence. subst b'.
  apply list_eq. intros i. symmetry.
  destruct (Hsame i) as [H|[Ha Hb']]; [assumption|].
  rewrite Ha, Hb'.
  destruct (descriptors fds !! i) as [e|] eqn:He.
  - symmetry. apply Hslots1; [assumption|].
    intros Hin. exact (slot_not_new _ _ _ _ _ Hok Hdescrs He Hin).
  - symmetry. apply lookup_ge_None in He. apply lookup_ge_None. lia.
Qed.

(** *** The slow path of registration *)

(** X18.  When the table is too small for the new descriptors,
    [add_frame_descriptors] rebuilds it: the result has a larger
    capacity, the smallest that keeps the table half empty, holds the
    new frame tables in front of the registered ones, counts all their
    descriptors, finds each of them, and holds no [&dummy_descr]. *)
Theorem register_slow_path_rebuilds
    (fuel : nat) (fds : caml_frame_descrs) (new_frametables : list Z) :
  let merged := new_frametables ++ frametables fds in
  registry_inv fds -> new_frametables <> [] ->
  insufficient fds (count_descriptors new_frametables) = true ->
  counts_ok merged -> descrs_ok (list_descrs merged) ->
  enough_fuel fuel (total_descrs merged) ->
  (forall c, smallest_capacity (2 * total_descrs merged) c ->
             caml_stat_alloc_noexc (c * word_size) = true) ->
  exists fds',
    add_frame_descriptors fuel fds new_frametables = Ret fds' /\
    capacity fds < capacity fds' /\
    smallest_capacity (2 * total_descrs merged) (capacity fds') /\
    frametables fds' = merged /\
    num_descr fds' = total_descrs merged /\
    (dummy_descr ∉ descriptors fds') /\
    (forall d, d ∈ list_descrs merged ->
       caml_find_frame_descr fuel fds' (retaddr d) = Ret d).
Proof.
  intros merged Hinv Hnew Hins Hcounts Hdescrs Hfuel Halloc.
  destruct (frametables_list_tail_Some _ Hnew) as [t Ht].
  destruct (realloc_frame_descriptors_ok fuel fds merged Hcounts Hfuel Halloc)
    as (fds' & Hre & Hnum & Hft & Hcap & _ & _ & _ & Hst).
  destruct (Hst Hdescrs) as [[_ Hfind] _].
  exists fds'. split.
  { unfold add_frame_descriptors, realloc_frame_descriptors_from_stw_single.
    unfold insufficient in Hins. simpl. rewrite Hins, Ht. exact Hre. }
  split.
  { pose proof (registry_inv_capacity _ Hinv) as (_ & _ & Hn).
    pose proof Hinv as (_ & _ & _ & Htot).
    pose proof (counts_ok_app_l _ _ Hcounts) as Hcnew.
    pose proof Hcounts as [Hnn Hlim].
    pose proof Hcnew as [Hnn' _].
    pose proof (total_descrs_nonneg _ Hnn') as Hnew0.
    unfold merged in Hlim. rewrite total_descrs_app, <- Htot in Hlim.
    unfold insufficient in Hins.
    rewrite (count_descriptors_total _ Hcnew) in Hins.
    unfold descr_limit in *.
    rewrite (to_intnat_small (num_descr fds + _)) in Hins by lia.
    rewrite to_intnat_small in Hins by lia.
    apply Z.ltb_lt in Hins.
    destruct Hcap as (_ & _ & Hge & _).
    unfold merged in Hge. rewrite total_descrs_app, <- Htot in Hge. lia. }
  split; [assumption|]. split; [assumption|]. split; [assumption|].
  split; [|exact Hfind].
  apply (realloc_frame_descriptors_no_dummy _ _ _ _ Hre).
  apply descrs_ok_no_dummy. assumption.
Qed.

(** *** When a lookup returns *)

(** X19.  The lookup of a key that no slot answers returns exactly when
    some slot is [NULL]: the probe stops only there, and a table whose
    slots all hold descriptors or [&dummy_descr] makes it run for ever. *)
Theorem lookup_absent_returns_iff_null
    (fuel : nat) (fds : caml_frame_descrs) (pc : Z) :
  well_formed fds -> (length (descriptors fds) <= fuel)%nat ->
  (forall d, d ∈ descriptors fds -> d <> NULL -> retaddr d <> pc) ->
  (NULL ∈ descriptors fds ->
   caml_find_frame_descr fuel fds pc = Ret NULL) /\
  (NULL ∉ descriptors fds ->
   forall fuel', caml_find_frame_descr fuel' fds pc = Spin).
Proof.
  intros Hwf Hfuel Habsent. split.
  - intros Hnull.
    destruct (find_frame_descr_returns fuel fds pc Hwf Hnull Hfuel)
      as [d Hd].
    rewrite Hd. f_equal. unfold caml_find_frame_descr in Hd.
    pose proof (find_loop_in _ _ _ _ _ _ Hd) as Hin.
    apply find_loop_post in Hd as [H0|Hr]; [assumption|].
    destruct (Z.eq_dec d NULL) as [H0|H0]; [assumption|].
    destruct (Habsent d Hin H0 Hr).
  - intros Hno fuel'. unfold caml_find_frame_descr.
    pose proof (table_shape_mask _ _ Hwf) as Hm.
    destruct Hwf as (k & Hk & Hmask & Hlen).
    apply find_loop_spin; [assumption|lia| |].
    + apply Forall_forall. intros x Hx.
      assert (x <> NULL) by (intros ->; contradiction). auto.
    + apply Hash_retaddr_range. assumption.
Qed.

(** *** Checking a given table *)

Lemma registry_inv_intro fds k :
  2 <= k <= 30 -> mask fds + 1 = 2 ^ k ->
  num_descr fds * 2 <= mask fds + 1 ->
  counts_ok (frametables fds) ->
  num_descr fds = total_descrs (frametables fds) ->
  registry_inv fds.
Proof. intros Hk Hm Hn Hc Ht. split; [exists k|]; auto. Qed.

Lemma table_ok_intro fuel fds k :
  2 <= k <= 30 -> mask fds + 1 = 2 ^ k ->
  Z.of_nat (length (descriptors fds)) = 2 ^ k ->
  num_descr fds * 2 <= mask fds + 1 ->
  counts_ok (frametables fds) ->
  num_descr fds = total_descrs (frametables fds) ->
  (length (descriptors fds) <= fuel)%nat ->
  live (descriptors fds) ≡ₚ list_descrs (frametables fds) ->
  Forall (fun d => caml_find_frame_descr fuel fds (retaddr d) = Ret d)
    (list_descrs (frametables fds)) ->
  table_ok fuel fds.
Proof.
  intros Hk Hm Hlen Hn Hc Ht Hfuel Hlive Hfind.
  split; [eapply registry_inv_intro; eauto|].
  split; [exists k; split; [lia|auto]|].
  split; [assumption|]. split; [assumption|].
  rewrite Forall_forall in Hfind. exact Hfind.
Qed.

(** *** Removal writes tombstones, and lookups go past them *)

(** C5.  Deregistration of registered frame tables returns and writes
    the address of [dummy_descr], which is not [NULL], over the slot of
    each descriptor it removes: every removed descriptor was in a slot,
    every slot that held one holds [&dummy_descr] afterwards, every
    other slot is as it was, and the slots that hold [NULL] are the same
    as before.  Every descriptor that is left is still found by its
    return address, wherever it lies on a probe chain, and every lookup
    that returned a descriptor other than the removed ones, for a key
    other than the address stored in [dummy_descr], returns the same
    descriptor afterwards.  Each call of [invalid_entry] for a
    registered descriptor returns, with [&dummy_descr] stored in a slot
    that held the descriptor and nothing else changed. *)
Theorem deregister_leaves_tombstones
    (fuel : nat) (fds : caml_frame_descrs) (tables : list Z) (ntables : Z) :
  let removed := list_descrs (handles tables ntables) in
  table_ok fuel fds ->
  ntables <= Z.of_nat (length tables) ->
  handles tables ntables ⊆+ frametables fds ->
  descrs_ok (list_descrs (frametables fds)) ->
  Forall (fun d => retaddr d <> dummy_descr) (list_descrs (frametables fds)) ->
  dummy_descr <> NULL /\
  (exists fds' tables',
     remove_frame_descriptors fuel fds tables ntables = Ret (fds', tables') /\
     mask fds' = mask fds /\
     length (descriptors fds') = length (descriptors fds) /\
     (forall d, d ∈ removed -> exists i, descriptors fds !! i = Some d) /\
     (forall i x, descriptors fds !! i = Some x -> x ∈ removed ->
        descriptors fds' !! i = Some dummy_descr) /\
     (forall i x, descriptors fds !! i = Some x -> x ∉ removed ->
        descriptors fds' !! i = Some x) /\
     (forall i, descriptors fds' !! i = Some NULL <->
                descriptors fds !! i = Some NULL) /\
     (forall d, d ∈ list_descrs (frametables fds) -> d ∉ removed ->
        caml_find_frame_descr fuel fds' (retaddr d) = Ret d) /\
     (forall fuel' pc d, d ∉ removed -> pc <> retaddr dummy_descr ->
        caml_find_frame_descr fuel' fds pc = Ret d ->
        caml_find_frame_descr fuel' fds' pc = Ret d)) /\
  (forall e, e ∈ list_descrs (frametables fds) ->
     exists h, atomic_load_relaxed (descriptors fds) h = Some e /\
       invalid_entry fuel fds e
       = Ret (mk_frame_descrs (num_descr fds) (mask fds)
                (atomic_store_relaxed (descriptors fds) h dummy_descr)
                (frametables fds))) /\
  (forall fuel0 fds0 e fds1, invalid_entry fuel0 fds0 e = Ret fds1 ->
     (exists h, atomic_load_relaxed (descriptors fds0) h = Some e /\
        descriptors fds1 =
          atomic_store_relaxed (descriptors fds0) h dummy_descr) /\
     tombstoned [e] fds0 fds1).
Proof.
  intros removed Hok Hn Hsub Hdescrs Hkeys.
  split; [apply dummy_descr_not_null|].
  pose proof Hok as (_ & _ & _ & Hlive & Hfind).
  pose proof Hdescrs as [_ Hne]. rewrite Forall_forall in Hne.
  split; [|split].
  - destruct (remove_frame_descriptors_ok fuel fds tables ntables
                Hok Hn Hsub Hdescrs Hkeys)
      as (fds' & tables' & Hrem & Hp & Hok' & Hgone).
    pose proof (remove_frame_descriptors_tombstoned _ _ _ _ _ _ Hrem)
      as (Hm & Hlen & Hslots & Hkeep).
    fold (handles tables ntables) in Hslots, Hkeep.
    fold removed in Hslots, Hkeep, Hgone.
    pose proof (list_descrs_perm _ _ Hp) as Hpd.
    rewrite list_descrs_app in Hpd. fold removed in Hpd.
    assert (Hreg : forall d, d ∈ removed ->
                     d ∈ list_descrs (frametables fds)).
    { intros d Hd. rewrite Hpd. apply elem_of_app. auto. }
    assert (Hset : forall i x, descriptors fds !! i = Some x ->
                     x ∈ removed ->
                     descriptors fds' !! i = Some dummy_descr).
    { intros i x Hx Hin. destruct (Hslots i x Hx) as [H|[_ H]]; [|exact H].
      exfalso. apply (Hgone x Hin). eapply list_elem_of_lookup; eauto. }
    assert (Hstay : forall i x, descriptors fds !! i = Some x ->
                      x ∉ removed -> descriptors fds' !! i = Some x).
    { intros i x Hx Hin. destruct (Hslots i x Hx) as [H|[H _]];
        [exact H|contradiction]. }
    assert (Hnull : NULL ∉ removed).
    { intros Hin. destruct (Hne NULL (Hreg _ Hin)) as [H0 _].
      apply H0. reflexivity. }
    exists fds', tables'. split; [exact Hrem|]. split; [exact Hm|].
    split; [exact Hlen|]. split; [|split; [exact Hset|split; [exact Hstay|]]].
    { intros d Hd. apply list_elem_of_lookup.
      apply Hreg in Hd. rewrite <- Hlive in Hd.
      apply elem_of_live in Hd as [Hd _]. exact Hd. }
    split; [|split].
    + intros i. split.
      * intros Hi.
        destruct (descriptors fds !! i) as [x|] eqn:Hx.
        -- destruct (decide (x ∈ removed)) as [Hin|Hin].
           ++ rewrite (Hset i x Hx Hin) in Hi. injection Hi as Hi.
              destruct (dummy_descr_not_null Hi).
           ++ rewrite (Hstay i x Hx Hin) in Hi. exact Hi.
        -- apply lookup_ge_None in Hx. apply lookup_lt_Some in Hi. lia.
      * intros Hi. exact (Hstay i NULL Hi Hnull).
    + intros d Hd Hrem'. apply (Hkeep fuel (retaddr d) d Hrem').
      * rewrite retaddr_dummy. rewrite Forall_forall in Hkeys.
        exact (Hkeys d Hd).
      * exact (Hfind d Hd).
    + exact Hkeep.
  - intros e He. destruct (Hne e He) as [He0 _].
    pose proof (Hfind e He) as Hfe. unfold caml_find_frame_descr in Hfe.
    destruct (invalid_entry_loop_total _ _ _ _ _ Hfe He0) as (q & Hq & Hloop).
    exists q. split; [exact Hq|]. unfold invalid_entry.
    rewrite Hloop. reflexivity.
  - intros fuel0 fds0 e fds1 H0. split.
    + unfold invalid_entry in H0.
      destruct (invalid_entry_loop fuel0 (descriptors fds0) (mask fds0) e _)
        as [a'| | |] eqn:Hloop; try discriminate.
      injection H0 as <-. simpl.
      apply invalid_entry_loop_ret in Hloop as (q & Hq & ->). eauto.
    + exact (invalid_entry_tombstoned _ _ _ _ H0).
Qed.
End Proofs.

(** ** The scenarios *)

Ltac by_computation :=
  vm_compute; first [reflexivity | exact I | intro; discriminate].

Ltac by_decision := apply (bool_decide_unpack _); vm_compute; exact I.

Ltac forall_by_computation :=
  match goal with
  | |- Forall ?P ?l =>
      let l' := eval vm_compute in l in change (Forall P l')
  end;
  repeat (apply Forall_cons_2; [by_computation|]); apply Forall_nil_2.

Ltac table_ok_by_computation k :=
  apply (table_ok_intro _ _ k);
  [ lia | reflexivity | reflexivity | by_computation
  | unfold counts_ok; by_decision | reflexivity | simpl; lia
  | by_decision | forall_by_computation ].

Lemma churn_0_reachable : @reachable churn_env churn_0.
Proof.
  apply (@reachable_init churn_env 4).
  - unfold counts_ok. by_decision.
  - by_computation.
Qed.

Lemma churn_round fds t fds1 fds2 :
  @reachable churn_env fds ->
  @counts_ok churn_env (t :: frametables fds) ->
  @caml_register_frametables churn_env 4 fds [t] 1 = Ret fds1 ->
  [t] ⊆+ frametables fds1 ->
  @caml_unregister_frametables churn_env 4 fds1 [t] 1 = Ret (fds2, [t]) ->
  @reachable churn_env fds1 /\ @reachable churn_env fds2.
Proof.
  intros Hreach Hcounts Hreg Hsub Hunreg.
  assert (H1 : @reachable churn_env fds1).
  { eapply (@reachable_register churn_env 4 fds [t] 1); eauto. }
  split; [assumption|].
  eapply (@reachable_unregister churn_env 4 fds1 [t] 1); eauto.
Qed.

Lemma churn_reachable :
  @reachable churn_env churn_4 /\ @reachable churn_env churn_5 /\
  @reachable churn_env churn_6.
Proof.
  destruct (churn_round churn_0 65792 churn_1 churn_2) as [_ H2];
    [apply churn_0_reachable
    |unfold counts_ok; by_decision
    |by_computation|by_decision|by_computation|].
  destruct (churn_round churn_2 66048 churn_3 churn_4) as [_ H4];
    [assumption
    |unfold counts_ok; by_decision
    |by_computation|by_decision|by_computation|].
  destruct (churn_round churn_4 66304 churn_5 churn_6) as [H5 H6];
    [assumption
    |unfold counts_ok; by_decision
    |by_computation|by_decision|by_computation|].
  auto.
Qed.

Lemma churn_6_spins pc :
  pc <> 4096 -> pc <> 64 ->
  forall fuel, @caml_find_frame_descr churn_env fuel churn_6 pc = Spin.
Proof.
  intros H1 H2 fuel. unfold caml_find_frame_descr.
  apply find_loop_spin.
  - by_computation.
  - reflexivity.
  - assert (Hr1 : @retaddr churn_env 65544 = 4096) by reflexivity.
    assert (Hr2 : @retaddr churn_env 64 = 64) by reflexivity.
    change (descriptors churn_6) with [65544; 64; 64; 64].
    repeat (apply Forall_cons; split; [split|]); try apply Forall_nil;
      rewrite ?Hr1, ?Hr2; try congruence; by_computation.
  - apply Hash_retaddr_range. by_computation.
Qed.

(** C3.  The lookup does not always terminate.  Three rounds that
    register one frame table and remove it again lead from start-up to a
    table of capacity 4 that holds one descriptor and three tombstones:
    the count is 1, so I1 and I2 hold, but no slot is empty, and the
    lookup of a return address that is not in the table never returns. *)
Theorem lookup_spins_in_reachable_state :
  @reachable churn_env churn_6 /\
  I1 churn_6 /\ I2 churn_6 /\
  (NULL ∉ descriptors churn_6) /\
  forall fuel, @caml_find_frame_descr churn_env fuel churn_6 4120 = Spin.
Proof.
  pose proof churn_reachable as (_ & _ & H6).
  split; [assumption|].
  destruct (@reachable_inv churn_env _ H6) as (Hk & Hload & _).
  split; [right; exists 2; split; by_computation|].
  split; [intros _; by_computation|].
  split; [by_decision|].
  apply churn_6_spins; intro; discriminate.
Qed.

(** C1.  The round trip fails in its second half.  In the reachable
    table [churn_4], registering the fourth frame table makes the lookup
    of its return address return its descriptor; after that frame table
    has been removed again, the same lookup does not return [NULL]: it
    never returns.  ([round_trip] is the round trip as far as it holds
    in general.) *)
Theorem round_trip_spins_after_removal :
  @reachable churn_env churn_4 /\
  @caml_register_frametables churn_env 4 churn_4 [66304] 1 = Ret churn_5 /\
  @list_descrs churn_env [66304] = [66312] /\
  @retaddr churn_env 66312 = 4120 /\
  @caml_find_frame_descr churn_env 4 churn_5 4120 = Ret 66312 /\
  @caml_unregister_frametables churn_env 4 churn_5 [66304] 1
    = Ret (churn_6, [66304]) /\
  forall fuel, @caml_find_frame_descr churn_env fuel churn_6 4120 = Spin.
Proof.
  pose proof churn_reachable as (H4 & _ & _).
  split; [assumption|].
  repeat (split; [by_computation|]).
  apply churn_6_spins; intro; discriminate.
Qed.

(** *** The theorems at the scenario of the specification *)

Section Scenario.
#[local] Existing Instance scenario_env.

Lemma rebuild_keeps_registered_witness :
  [131072] <> [] /\
  insufficient scenario_0 (count_descriptors [131072]) = true /\
  counts_ok ([131072] ++ frametables scenario_0) /\
  descrs_ok (list_descrs ([131072] ++ frametables scenario_0)) /\
  enough_fuel 64 (total_descrs ([131072] ++ frametables scenario_0)) /\
  (forall c,
     smallest_capacity
       (2 * total_descrs ([131072] ++ frametables scenario_0)) c ->
     caml_stat_alloc_noexc (c * word_size) = true) /\
  exists table',
    realloc_frame_descriptors_from_stw_single true 64 scenario_0
      (request_for [131072]) = Ret table' /\
    add_frame_descriptors 64 scenario_0 [131072] = Ret table' /\
    (forall d, d ∈ list_descrs (frametables scenario_0) ->
       caml_find_frame_descr 64 table' (retaddr d) = Ret d).
Proof.
  assert (H1 : [131072] <> []) by discriminate.
  assert (H2 : insufficient scenario_0 (count_descriptors [131072]) = true)
    by by_computation.
  assert (H3 : counts_ok ([131072] ++ frametables scenario_0))
    by (unfold counts_ok; by_decision).
  assert (H4 : descrs_ok (list_descrs ([131072] ++ frametables scenario_0)))
    by (unfold descrs_ok; by_decision).
  assert (H5 : enough_fuel 64
                 (total_descrs ([131072] ++ frametables scenario_0)))
    by (split; by_computation).
  assert (H6 : forall c,
     smallest_capacity
       (2 * total_descrs ([131072] ++ frametables scenario_0)) c ->
     caml_stat_alloc_noexc (c * word_size) = true)
    by (intros; reflexivity).
  repeat (split; [assumption|]).
  destruct (rebuild_keeps_registered 64 scenario_0 [131072] H1 H2 H3 H4 H5 H6)
    as (table' & Hbody & Hadd & _ & _ & _ & Hold & _).
  exists table'. auto.
Defined.

Lemma build_capacity_witness :
  counts_ok [131072; 65536] /\
  enough_fuel 64 (total_descrs [131072; 65536]) /\
  (forall c, smallest_capacity (2 * total_descrs [131072; 65536]) c ->
             caml_stat_alloc_noexc (c * word_size) = true) /\
  total_descrs [131072; 65536] = 15 /\
  exists table',
    realloc_frame_descriptors 64 scenario_0 [131072; 65536] = Ret table' /\
    smallest_capacity (2 * total_descrs [131072; 65536]) (capacity table') /\
    capacity table' = 32.
Proof.
  assert (H1 : counts_ok [131072; 65536]) by (unfold counts_ok; by_decision).
  assert (H2 : enough_fuel 64 (total_descrs [131072; 65536]))
    by (split; by_computation).
  assert (H3 : forall c,
             smallest_capacity (2 * total_descrs [131072; 65536]) c ->
             caml_stat_alloc_noexc (c * word_size) = true)
    by (intros; reflexivity).
  assert (H4 : total_descrs [131072; 65536] = 15) by reflexivity.
  repeat (split; [assumption|]).
  destruct (build_capacity 64 scenario_0 [131072; 65536] H1 H2 H3)
    as (table' & Hre & Hcap & _ & _ & H15).
  exists table'. auto.
Defined.

Lemma rendezvous_body_merges_new_first_witness :
  [131072] <> [] /\
  realloc_frame_descriptors_from_stw_single true 64 scenario_0
    (mk_request [131072] (frametables_list_tail [131072]) 12)
    = merged_rebuild_body 64 scenario_0 [131072] 12 /\
  realloc_frame_descriptors_from_stw_single false 64 scenario_0
    (mk_request [131072] (frametables_list_tail [131072]) 12)
    = Ret scenario_0 /\
  (insufficient scenario_0 12 = false ->
   12 = count_descriptors [131072] ->
   realloc_frame_descriptors_from_stw_single true 64 scenario_0
     (mk_request [131072] (frametables_list_tail [131072]) 12)
     = add_frame_descriptors 64 scenario_0 [131072]).
Proof.
  assert (H1 : [131072] <> []) by discriminate.
  split; [assumption|].
  exact (rendezvous_body_merges_new_first 64 scenario_0 [131072] 12 H1).
Defined.

(** C7, as the specification words it, fails: the body puts the new
    batches in front of the registered ones, not behind them. *)
Lemma rendezvous_body_not_spec_order :
  realloc_frame_descriptors_from_stw_single true 64 scenario_0
    (request_for [131072])
  <> spec_rebuild_body 64 scenario_0 [131072] (count_descriptors [131072]).
Proof. vm_compute. intros H. discriminate H. Qed.

Lemma deregister_overwrites_handles_witness :
  frametables scenario_1 = [131072; 65536] /\
  caml_unregister_frametables 32 scenario_1 [131072; 65536] 2
    = Ret (scenario_3, [65536; 65536]) /\
  [65536; 65536] = [65536; 65536] /\
  frametables scenario_3 = [] /\
  (131072 <> 65536 -> [65536; 65536] <> [131072; 65536]).
Proof.
  assert (H1 : frametables scenario_1 = [131072; 65536]) by reflexivity.
  assert (H2 : caml_unregister_frametables 32 scenario_1 [131072; 65536] 2
               = Ret (scenario_3, [65536; 65536])) by by_computation.
  split; [assumption|]. split; [assumption|].
  exact (deregister_overwrites_handles 32 scenario_1 131072 65536 [] []
           scenario_3 [65536; 65536] H1 H2).
Defined.

Lemma find_frame_descr_result_witness :
  caml_find_frame_descr 8 scenario_0 200 = Ret 65560 /\
  ((65560 = NULL \/ retaddr 65560 = 200) /\
   (200 <> retaddr dummy_descr -> 65560 <> dummy_descr)) /\
  well_formed scenario_0 /\
  NULL ∈ descriptors scenario_0 /\
  (length (descriptors scenario_0) <= 8)%nat /\
  exists d, caml_find_frame_descr 8 scenario_0 999 = Ret d.
Proof.
  assert (H1 : caml_find_frame_descr 8 scenario_0 200 = Ret 65560)
    by by_computation.
  assert (H2 : well_formed scenario_0).
  { exists 3. split; [lia|]. split; reflexivity. }
  assert (H3 : NULL ∈ descriptors scenario_0) by by_decision.
  assert (H4 : (length (descriptors scenario_0) <= 8)%nat) by (simpl; lia).
  split; [assumption|].
  split; [exact (proj1 (find_frame_descr_result 8 scenario_0 200) 65560 H1)|].
  repeat (split; [assumption|]).
  exact (proj2 (find_frame_descr_result 8 scenario_0 999) H2 H3 H4).
Defined.

End Scenario.

(** *** The invariants at the table worn by registrations and removals *)

Lemma reachable_I1_I2_witness :
  @reachable churn_env churn_6 /\ I1 churn_6 /\ I2 churn_6.
Proof.
  assert (H : @reachable churn_env churn_6) by apply churn_reachable.
  split; [assumption|].
  exact (@reachable_I1_I2 churn_env churn_6 H).
Defined.

(** *** Further theorems at the scenario *)

Section ScenarioPaths.
#[local] Existing Instance scenario_env.

Lemma count_descriptors_adds_witness :
  counts_ok ([131072] ++ [65536]) /\
  count_descriptors ([131072] ++ [65536])
  = count_descriptors [131072] + count_descriptors [65536] /\
  count_descriptors ([131072] ++ [65536]) = 15.
Proof.
  assert (H : counts_ok ([131072] ++ [65536]))
    by (unfold counts_ok; by_decision).
  split; [assumption|].
  destruct (count_descriptors_adds [131072] [65536] H) as (H1 & H2 & _).
  split; [exact H1|exact H2].
Defined.

Lemma next_frame_descr_aligned_witness :
  frame_return_to_C 65544 = false /\
  next_frame_descr 65544 mod word_size = 0 /\
  live_ofs 65544 (num_live 65544) <= next_frame_descr 65544.
Proof.
  assert (H1 : frame_return_to_C 65544 = false) by reflexivity.
  assert (H2 : 0 <= load_uchar (live_ofs 65544 (num_live 65544)))
    by by_computation.
  destruct (next_frame_descr_aligned 65544) as (Ha & _ & Hb).
  split; [assumption|]. split; [exact Ha|exact (Hb H1 H2)].
Defined.

Lemma rebuild_clears_tombstones_witness :
  dummy_descr ∈ descriptors scenario_2 /\
  exists table',
    realloc_frame_descriptors 64 scenario_2 [131072] = Ret table' /\
    (dummy_descr ∉ descriptors table') /\
    NULL ∈ descriptors table' /\
    exists d, caml_find_frame_descr 64 table' 999 = Ret d.
Proof.
  assert (H0 : dummy_descr ∈ descriptors scenario_2) by by_decision.
  assert (H1 : counts_ok [131072]) by (unfold counts_ok; by_decision).
  assert (H2 : dummy_descr ∉ list_descrs [131072]) by by_decision.
  assert (H3 : enough_fuel 64 (total_descrs [131072]))
    by (split; by_computation).
  assert (H4 : forall c, smallest_capacity (2 * total_descrs [131072]) c ->
                         caml_stat_alloc_noexc (c * word_size) = true)
    by (intros; reflexivity).
  split; [assumption|].
  destruct (rebuild_clears_tombstones 64 scenario_2 [131072] H1 H2 H3 H4)
    as (table' & Hre & Hno & _ & Hnull & Hfind).
  exists table'. split; [exact Hre|]. split; [exact Hno|].
  split; [exact Hnull|exact (Hfind 999)].
Defined.

Lemma init_registers_frametables_witness :
  caml_frametable = [65536] /\
  exists fds,
    caml_init_frame_descriptors 64 = Ret fds /\
    frametables fds = [65536] /\ num_descr fds = 3 /\
    caml_find_frame_descr 64 fds 200 = Ret 65560.
Proof.
  assert (H1 : counts_ok caml_frametable) by (unfold counts_ok; by_decision).
  assert (H2 : descrs_ok (list_descrs (rev caml_frametable)))
    by (unfold descrs_ok; by_decision).
  assert (H3 : enough_fuel 64 (total_descrs caml_frametable))
    by (split; by_computation).
  assert (H4 : caml_stat_alloc node_size = true) by reflexivity.
  assert (H5 : forall c,
             smallest_capacity (2 * total_descrs caml_frametable) c ->
             caml_stat_alloc_noexc (c * word_size) = true)
    by (intros; reflexivity).
  split; [reflexivity|].
  destruct (init_registers_frametables 64 H1 H2 H3 H4 H5)
    as (fds & Hinit & Hft & Hn & Hfind & _).
  exists fds. split; [exact Hinit|]. split; [exact Hft|]. split; [exact Hn|].
  apply (Hfind 65560). by_decision.
Defined.

Lemma register_fast_path_in_place_witness :
  table_ok 32 scenario_2 /\
  insufficient scenario_2 (count_descriptors [65536]) = false /\
  exists fds',
    add_frame_descriptors 32 scenario_2 [65536] = Ret fds' /\
    mask fds' = 31 /\ num_descr fds' = 15 /\
    frametables fds' = [65536; 131072] /\
    caml_find_frame_descr 32 fds' 200 = Ret 65560.
Proof.
  assert (H1 : table_ok 32 scenario_2) by table_ok_by_computation 5.
  assert (H2 : [65536] <> []) by discriminate.
  assert (H3 : insufficient scenario_2 (count_descriptors [65536]) = false)
    by by_computation.
  assert (H4 : counts_ok ([65536] ++ frametables scenario_2))
    by (unfold counts_ok; by_decision).
  assert (H5 : descrs_ok (list_descrs ([65536] ++ frametables scenario_2)))
    by (unfold descrs_ok; by_decision).
  split; [assumption|]. split; [assumption|].
  destruct (register_fast_path_in_place 32 scenario_2 [65536] H1 H2 H3 H4 H5)
    as (fds' & Hadd & Hm & _ & Hn & Hf & _ & _ & Hfind).
  exists fds'. split; [exact Hadd|]. split; [exact Hm|]. split; [exact Hn|].
  split; [exact Hf|]. apply (Hfind 65560). by_decision.
Defined.

Lemma register_frametables_reverses_witness :
  0 < 2 <= Z.of_nat (length [65536; 131072]) /\
  caml_stat_alloc node_size = true /\
  caml_register_frametables 64 initial_frame_descrs [65536; 131072] 2
  = add_frame_descriptors 64 initial_frame_descrs [131072; 65536].
Proof.
  assert (H1 : 0 < 2 <= Z.of_nat (length [65536; 131072])) by (simpl; lia).
  assert (H2 : caml_stat_alloc node_size = true) by reflexivity.
  split; [assumption|]. split; [assumption|].
  exact (proj1 (proj1 (register_frametables_reverses 64 initial_frame_descrs
                         [65536; 131072] 2 H1) H2)).
Defined.

Lemma register_nothing_faults_witness :
  0 <= 0 /\ caml_register_frametables 64 scenario_0 [] 0 = Fault.
Proof.
  assert (H : 0 <= 0) by lia.
  split; [assumption|].
  exact (register_nothing_faults 64 scenario_0 [] 0 H).
Defined.

Lemma invalid_entry_missing_spins_witness :
  well_formed scenario_0 /\ (131080 ∉ descriptors scenario_0) /\
  invalid_entry 1000 scenario_0 131080 = Spin.
Proof.
  assert (H1 : well_formed scenario_0).
  { exists 3. split; [lia|]. split; reflexivity. }
  assert (H2 : 131080 ∉ descriptors scenario_0) by by_decision.
  split; [assumption|]. split; [assumption|].
  exact (invalid_entry_missing_spins 1000 scenario_0 131080 H1 H2).
Defined.

Lemma deregister_removes_exactly_witness :
  table_ok 32 scenario_1 /\
  handles [65536] 1 ⊆+ frametables scenario_1 /\
  exists fds' tables',
    remove_frame_descriptors 32 scenario_1 [65536] 1 = Ret (fds', tables') /\
    num_descr fds' = 12 /\
    caml_find_frame_descr 32 fds' 400 = Ret 131080 /\
    (65560 ∉ descriptors fds').
Proof.
  assert (H1 : table_ok 32 scenario_1) by table_ok_by_computation 5.
  assert (H2 : 1 <= Z.of_nat (length [65536])) by (simpl; lia).
  assert (H3 : handles [65536] 1 ⊆+ frametables scenario_1) by by_decision.
  assert (H4 : descrs_ok (list_descrs (frametables scenario_1)))
    by (unfold descrs_ok; by_decision).
  assert (H5 : Forall (fun d => retaddr d <> dummy_descr)
                 (list_descrs (frametables scenario_1))) by by_decision.
  split; [assumption|]. split; [assumption|].
  destruct (deregister_removes_exactly 32 scenario_1 [65536] 1
              H1 H2 H3 H4 H5)
    as (fds' & tables' & Hrem & _ & Hn & _ & Hfind & Hgone).
  exists fds', tables'. split; [exact Hrem|]. split; [exact Hn|]. split.
  - apply (Hfind 131080).
    assert (Hc : remove_frame_descriptors 32 scenario_1 [65536] 1
                 = Ret (scenario_2, [65536])) by by_computation.
    rewrite Hc in Hrem. injection Hrem as <- _. by_decision.
  - apply (Hgone 65560). by_decision.
Defined.

Lemma unregister_twice_spins_witness :
  table_ok 32 scenario_1 /\ 65536 ∈ frametables scenario_1 /\
  0 < frametable_len 65536 /\
  exists fds' tables',
    caml_unregister_frametable 32 scenario_1 65536 = Ret (fds', tables') /\
    caml_unregister_frametable 1000 fds' 65536 = Spin.
Proof.
  assert (H1 : table_ok 32 scenario_1) by table_ok_by_computation 5.
  assert (H2 : 65536 ∈ frametables scenario_1) by by_decision.
  assert (H3 : 0 < frametable_len 65536) by by_computation.
  assert (H4 : descrs_ok (list_descrs (frametables scenario_1)))
    by (unfold descrs_ok; by_decision).
  assert (H5 : Forall (fun d => retaddr d <> dummy_descr)
                 (list_descrs (frametables scenario_1))) by by_decision.
  split; [assumption|]. split; [assumption|]. split; [assumption|].
  destruct (unregister_twice_spins 32 scenario_1 65536 H1 H2 H3 H4 H5)
    as (fds' & tables' & Hrem & Hspin).
  exists fds', tables'. split; [exact Hrem|exact (Hspin 1000%nat)].
Defined.

Lemma unregister_nothing_witness :
  0 <= 0 /\ - 2 ^ 31 <= num_descr scenario_1 < 2 ^ 31 /\
  caml_unregister_frametables 32 scenario_1 [65536] 0
  = Ret (scenario_1, [65536]).
Proof.
  assert (H1 : 0 <= 0) by lia.
  assert (H2 : - 2 ^ 31 <= num_descr scenario_1 < 2 ^ 31) by (simpl; lia).
  split; [assumption|]. split; [assumption|].
  exact (unregister_nothing 32 scenario_1 [65536] 0 H1 H2).
Defined.

Lemma unlink_keeps_order_witness :
  2 <= Z.of_nat (length [65792; 65536; 7]) /\
  handles [65792; 65536; 7] 2 ⊆+ [66048; 65536; 131072; 65792] /\
  exists l tables',
    unlink_frametables [66048; 65536; 131072; 65792] [65792; 65536; 7] 2
    = Ret (l, tables') /\
    sublist l [66048; 65536; 131072; 65792] /\
    tables' !! 2%nat = Some 7.
Proof.
  assert (H1 : 2 <= Z.of_nat (length [65792; 65536; 7])) by (simpl; lia).
  assert (H2 : handles [65792; 65536; 7] 2
               ⊆+ [66048; 65536; 131072; 65792]) by by_decision.
  split; [assumption|]. split; [assumption|].
  destruct (unlink_keeps_order [66048; 65536; 131072; 65792]
              [65792; 65536; 7] 2 H1 H2)
    as (l & tables' & Hun & Hsub & _ & _ & Hkeep & _).
  exists l, tables'. split; [exact Hun|]. split; [exact Hsub|].
  exact (Hkeep 2%nat (Nat.le_refl 2)).
Defined.

Lemma register_unregister_restores_witness :
  table_ok 32 scenario_2 /\
  exists fds1 fds2 tables',
    add_frame_descriptors 32 scenario_2 [65536] = Ret fds1 /\
    caml_unregister_frametables 32 fds1 [65536] 1 = Ret (fds2, tables') /\
    num_descr fds2 = 12 /\ mask fds2 = 31 /\ frametables fds2 = [131072] /\
    caml_find_frame_descr 32 fds2 400 = Ret 131080.
Proof.
  assert (H1 : table_ok 32 scenario_2) by table_ok_by_computation 5.
  assert (H2 : [65536] <> []) by discriminate.
  assert (H3 : insufficient scenario_2 (count_descriptors [65536]) = false)
    by by_computation.
  assert (H4 : counts_ok ([65536] ++ frametables scenario_2))
    by (unfold counts_ok; by_decision).
  assert (H5 : descrs_ok (list_descrs ([65536] ++ frametables scenario_2)))
    by (unfold descrs_ok; by_decision).
  assert (H6 : Forall (fun d => retaddr d <> dummy_descr)
                 (list_descrs ([65536] ++ frametables scenario_2)))
    by by_decision.
  assert (H7 : 1 = Z.of_nat (length [65536])) by reflexivity.
  assert (H8 : handles [65536] 1 ≡ₚ [65536]) by by_decision.
  split; [assumption|].
  destruct (register_unregister_restores 32 scenario_2 [65536] [65536] 1
              H1 H2 H3 H4 H5 H6 H7 H8)
    as (fds1 & fds2 & tables' & Hadd & Hrem & Hn & Hm & Hf & _ & _ & Hfind).
  exists fds1, fds2, tables'. split; [exact Hadd|]. split; [exact Hrem|].
  split; [exact Hn|]. split; [exact Hm|]. split; [exact Hf|].
  apply (Hfind 131080). by_decision.
Defined.

Lemma reregister_same_table_witness :
  table_ok 32 scenario_2 /\
  exists fds1 fds2 tables',
    add_frame_descriptors 32 scenario_2 [65536] = Ret fds1 /\
    caml_unregister_frametables 32 fds1 [65536] 1 = Ret (fds2, tables') /\
    add_frame_descriptors 32 fds2 [65536] = Ret fds1.
Proof.
  assert (H1 : table_ok 32 scenario_2) by table_ok_by_computation 5.
  assert (H2 : [65536] <> []) by discriminate.
  assert (H3 : insufficient scenario_2 (count_descriptors [65536]) = false)
    by by_computation.
  assert (H4 : counts_ok ([65536] ++ frametables scenario_2))
    by (unfold counts_ok; by_decision).
  assert (H5 : descrs_ok (list_descrs ([65536] ++ frametables scenario_2)))
    by (unfold descrs_ok; by_decision).
  assert (H6 : Forall (fun d => retaddr d <> dummy_descr)
                 (list_descrs ([65536] ++ frametables scenario_2)))
    by by_decision.
  assert (H7 : 1 = Z.of_nat (length [65536])) by reflexivity.
  assert (H8 : handles [65536] 1 ≡ₚ [65536]) by by_decision.
  split; [assumption|].
  exact (reregister_same_table 32 scenario_2 [65536] [65536] 1
           H1 H2 H3 H4 H5 H6 H7 H8).
Defined.

Lemma find_frame_descr_in_bounds_witness :
  well_formed scenario_0 /\
  caml_find_frame_descr 8 scenario_0 200 <> Fault /\
  caml_find_frame_descr 8 initial_frame_descrs 200 = Fault.
Proof.
  assert (H1 : well_formed scenario_0).
  { exists 3. split; [lia|]. split; reflexivity. }
  assert (H2 : descriptors initial_frame_descrs = []) by reflexivity.
  assert (H3 : 8%nat <> O) by discriminate.
  split; [assumption|]. split.
  - exact (proj1 (find_frame_descr_in_bounds 8 scenario_0 200) H1).
  - exact (proj2 (find_frame_descr_in_bounds 8 initial_frame_descrs 200)
             H2 H3).
Defined.

Lemma lookup_returns_registered_witness :
  table_ok 8 scenario_0 /\
  caml_find_frame_descr 8 scenario_0 200 = Ret 65560 /\
  65560 ∈ list_descrs (frametables scenario_0) /\ retaddr 65560 = 200.
Proof.
  assert (H1 : table_ok 8 scenario_0) by table_ok_by_computation 3.
  assert (H2 : 200 <> dummy_descr) by by_computation.
  assert (H3 : caml_find_frame_descr 8 scenario_0 200 = Ret 65560)
    by by_computation.
  assert (H4 : 65560 <> NULL) by by_computation.
  split; [assumption|]. split; [assumption|].
  exact (lookup_returns_registered 8 8 scenario_0 200 65560 H1 H2 H3 H4).
Defined.

Lemma register_slow_path_rebuilds_witness :
  registry_inv scenario_0 /\
  insufficient scenario_0 (count_descriptors [131072]) = true /\
  exists fds',
    add_frame_descriptors 64 scenario_0 [131072] = Ret fds' /\
    capacity scenario_0 < capacity fds' /\
    frametables fds' = [131072; 65536] /\ num_descr fds' = 15 /\
    (dummy_descr ∉ descriptors fds').
Proof.
  assert (H1 : registry_inv scenario_0).
  { apply (registry_inv_intro _ 3);
      [lia|reflexivity|by_computation|unfold counts_ok; by_decision
      |reflexivity]. }
  assert (H2 : [131072] <> []) by discriminate.
  assert (H3 : insufficient scenario_0 (count_descriptors [131072]) = true)
    by by_computation.
  assert (H4 : counts_ok ([131072] ++ frametables scenario_0))
    by (unfold counts_ok; by_decision).
  assert (H5 : descrs_ok (list_descrs ([131072] ++ frametables scenario_0)))
    by (unfold descrs_ok; by_decision).
  assert (H6 : enough_fuel 64
                 (total_descrs ([131072] ++ frametables scenario_0)))
    by (split; by_computation).
  assert (H7 : forall c,
     smallest_capacity
       (2 * total_descrs ([131072] ++ frametables scenario_0)) c ->
     caml_stat_alloc_noexc (c * word_size) = true)
    by (intros; reflexivity).
  split; [assumption|]. split; [assumption|].
  destruct (register_slow_path_rebuilds 64 scenario_0 [131072]
              H1 H2 H3 H4 H5 H6 H7)
    as (fds' & Hadd & Hcap & _ & Hf & Hn & Hno & _).
  exists fds'. split; [exact Hadd|]. split; [exact Hcap|].
  split; [exact Hf|]. split; [exact Hn|exact Hno].
Defined.

Lemma lookup_absent_returns_iff_null_witness :
  well_formed scenario_0 /\ NULL ∈ descriptors scenario_0 /\
  caml_find_frame_descr 8 scenario_0 999 = Ret NULL.
Proof.
  assert (H1 : well_formed scenario_0).
  { exists 3. split; [lia|]. split; reflexivity. }
  assert (H2 : (length (descriptors scenario_0) <= 8)%nat) by (simpl; lia).
  assert (H3 : forall d, d ∈ descriptors scenario_0 -> d <> NULL ->
                         retaddr d <> 999).
  { apply (proj1 (Forall_forall
                    (fun d => d <> NULL -> retaddr d <> 999) _)).
    by_decision. }
  assert (H4 : NULL ∈ descriptors scenario_0) by by_decision.
  split; [assumption|]. split; [assumption|].
  exact (proj1 (lookup_absent_returns_iff_null 8 scenario_0 999 H1 H2 H3) H4).
Defined.

End ScenarioPaths.

(** *** The rebuild when memory is short *)

Section Tight.
#[local] Existing Instance tight_env.

Lemma rebuild_out_of_memory_witness :
  caml_init_frame_descriptors 64 = Ret scenario_0 /\
  insufficient scenario_0 (count_descriptors [131072]) = true /\
  smallest_capacity (2 * total_descrs ([131072] ++ frametables scenario_0))
    32 /\
  caml_stat_alloc_noexc (32 * word_size) = false /\
  add_frame_descriptors 64 scenario_0 [131072] = Out_of_memory.
Proof.
  assert (H0 : caml_init_frame_descriptors 64 = Ret scenario_0)
    by by_computation.
  assert (H1 : [131072] <> []) by discriminate.
  assert (H2 : insufficient scenario_0 (count_descriptors [131072]) = true)
    by by_computation.
  assert (H3 : counts_ok ([131072] ++ frametables scenario_0))
    by (unfold counts_ok; by_decision).
  assert (H4 : enough_fuel 64
                 (total_descrs ([131072] ++ frametables scenario_0)))
    by (split; by_computation).
  assert (H5 : smallest_capacity
                 (2 * total_descrs ([131072] ++ frametables scenario_0)) 32).
  { apply (smallest_capacity_intro _ 5);
      [lia|by_computation|right; by_computation]. }
  assert (H6 : caml_stat_alloc_noexc (32 * word_size) = false)
    by reflexivity.
  split; [assumption|]. split; [assumption|]. split; [assumption|].
  split; [assumption|].
  exact (proj2 (rebuild_out_of_memory 64 scenario_0 [131072] 32
                  H1 H2 H3 H4 H5 H6)).
Defined.

End Tight.

(** *** Removal from a shared probe chain *)

Section Chain.
#[local] Existing Instance chain_env.

(** The table [chain_0] is the one the code builds.  The descriptors of
    4096 and of 4160 have slot 0 as their home slot; the first holds it,
    the second was inserted later and lies in slot 3, behind the
    descriptors of 4104 and 4112.  The removal of the frame table of
    4096 puts [&dummy_descr] into slot 0, and the lookup of 4160 walks
    over it to slot 3.  With [NULL] in slot 0 the same lookup would stop
    there. *)
Lemma deregister_leaves_tombstones_witness :
  (t0 ← caml_init_frame_descriptors 64;
   t1 ← caml_register_frametable 64 t0 65792;
   t2 ← caml_register_frametable 64 t1 66048;
   caml_register_frametable 64 t2 66304) = Ret chain_0 /\
  table_ok 8 chain_0 /\
  handles [66048] 1 ⊆+ frametables chain_0 /\
  Hash_retaddr (retaddr 66056) (mask chain_0) = 0 /\
  Hash_retaddr (retaddr 66312) (mask chain_0) = 0 /\
  descriptors chain_0 !! 0%nat = Some 66056 /\
  descriptors chain_0 !! 3%nat = Some 66312 /\
  remove_frame_descriptors 8 chain_0 [66048] 1 = Ret (chain_1, [66048]) /\
  descriptors chain_1 !! 0%nat = Some dummy_descr /\
  descriptors chain_1 !! 3%nat = Some 66312 /\
  caml_find_frame_descr 8 chain_1 4160 = Ret 66312 /\
  caml_find_frame_descr 8
    (mk_frame_descrs 3 7 [NULL; 65544; 65800; 66312; 0; 0; 0; 0]
       [66304; 65792; 65536]) 4160 = Ret NULL.
Proof.
  assert (H0 : (t0 ← caml_init_frame_descriptors 64;
                t1 ← caml_register_frametable 64 t0 65792;
                t2 ← caml_register_frametable 64 t1 66048;
                caml_register_frametable 64 t2 66304) = Ret chain_0)
    by by_computation.
  assert (H1 : table_ok 8 chain_0) by table_ok_by_computation 3.
  assert (H2 : 1 <= Z.of_nat (length [66048])) by (simpl; lia).
  assert (H3 : handles [66048] 1 ⊆+ frametables chain_0) by by_decision.
  assert (H4 : descrs_ok (list_descrs (frametables chain_0)))
    by (unfold descrs_ok; by_decision).
  assert (H5 : Forall (fun d => retaddr d <> dummy_descr)
                 (list_descrs (frametables chain_0))) by by_decision.
  assert (H6 : descriptors chain_0 !! 0%nat = Some 66056) by reflexivity.
  assert (H7 : descriptors chain_0 !! 3%nat = Some 66312) by reflexivity.
  assert (H8 : 66056 ∈ list_descrs (handles [66048] 1)) by by_decision.
  assert (H9 : 66312 ∉ list_descrs (handles [66048] 1)) by by_decision.
  assert (H10 : 66312 ∈ list_descrs (frametables chain_0)) by by_decision.
  assert (Hc : remove_frame_descriptors 8 chain_0 [66048] 1
               = Ret (chain_1, [66048])) by by_computation.
  split; [assumption|]. split; [assumption|]. split; [assumption|].
  split; [by_computation|]. split; [by_computation|].
  split; [assumption|]. split; [assumption|]. split; [assumption|].
  destruct (deregister_leaves_tombstones 8 chain_0 [66048] 1 H1 H2 H3 H4 H5)
    as (_ & (fds' & tables' & Hrem & _ & _ & _ & Hset & Hstay & _ & Hfind & _)
        & _).
  rewrite Hc in Hrem. injection Hrem as <- _.
  split; [exact (Hset 0%nat 66056 H6 H8)|].
  split; [exact (Hstay 3%nat 66312 H7 H9)|].
  split; [exact (Hfind 66312 H10 H9)|].
  by_computation.
Defined.

End Chain.
